(** * Qwen 3 for the Apple Neural Engine: a shallow embedding of
      [anemll/models/qwen_model_no_cache.py]

    The development follows the Python module top to bottom.

    - Tensors are what [torch.Tensor] is for a contiguous tensor: a shape, a
      dtype tag and a row-major storage list.  [view], [unsqueeze] and
      [squeeze] only relabel the shape; every other operator builds new
      storage with [tabulate].
    - Floating-point arithmetic is an interface ([Scalar]): the theorems hold
      for every implementation of the scalar operations, IEEE half and single
      precision included.  A small integer instance is used to run the
      definitions on concrete tensors.
    - Python exceptions are values of [exn]; fallible code lives in the
      [result] monad.  The errors modelled are the ones the module raises
      itself or provokes by indexing (assertions, out-of-range gathers,
      [torch.split] with sizes that do not add up, a missing checkpoint
      directory, loading a tensor of the wrong shape) and the ones of the
      projection layers (a convolution without output channels, or given
      another channel count or no pixels).  [matmul] and broadcasting are
      total here: on operands whose shapes do not fit, where torch raises,
      they read the padding value; the theorems that rely on their results
      state the shapes. *)

From Stdlib Require Import String Ascii DecimalString.
From Stdlib Require Import List Arith PeanoNat ZArith Lia Bool.
Import ListNotations.

Set Implicit Arguments.

(* ------------------------------------------------------------------------- *)
(** ** Exceptions and the result monad *)
(* ------------------------------------------------------------------------- *)

Inductive exn : Type :=
| AssertionError (msg : string)
| FileNotFoundError (path : string)
| IndexError
| RuntimeError
| TypeError
| AttributeError.

Inductive result (A : Type) : Type :=
| Ok (a : A)
| Raise (e : exn).

Arguments Ok {A} a.
Arguments Raise {A} e.

Definition bind {A B : Type} (r : result A) (k : A -> result B) : result B :=
  match r with
  | Ok a => k a
  | Raise e => Raise e
  end.

Definition rmap {A B : Type} (f : A -> B) (r : result A) : result B :=
  bind r (fun a => Ok (f a)).

Declare Scope result_scope.
Delimit Scope result_scope with result.
Notation "x <- e ;; k" := (bind e (fun x => k))
  (at level 61, e at next level, right associativity) : result_scope.
Notation "e ;;; k" := (bind e (fun _ => k))
  (at level 61, right associativity) : result_scope.
Open Scope result_scope.

(** [assert cond, msg] *)
Definition py_assert (cond : bool) (msg : string) : result unit :=
  if cond then Ok tt else Raise (AssertionError msg).

Fixpoint mapM {A B : Type} (f : A -> result B) (l : list A) : result (list B) :=
  match l with
  | [] => Ok []
  | a :: l' => b <- f a ;; bs <- mapM f l' ;; Ok (b :: bs)
  end.

(* ------------------------------------------------------------------------- *)
(** ** Row-major index arithmetic *)
(* ------------------------------------------------------------------------- *)

Fixpoint numel (s : list nat) : nat :=
  match s with
  | [] => 1
  | n :: s' => n * numel s'
  end.

(** Storage offset of a multi-index. *)
Fixpoint ravel (s idx : list nat) : nat :=
  match s, idx with
  | _ :: s', i :: idx' => i * numel s' + ravel s' idx'
  | _, _ => 0
  end.

(** Multi-index of a storage offset. *)
Fixpoint unravel (s : list nat) (k : nat) : list nat :=
  match s with
  | [] => []
  | _ :: s' => (k / numel s') :: unravel s' (k mod numel s')
  end.

Definition in_bounds (s idx : list nat) : Prop := Forall2 lt idx s.

Fixpoint in_boundsb (s idx : list nat) : bool :=
  match s, idx with
  | [], [] => true
  | n :: s', i :: idx' => (i <? n) && in_boundsb s' idx'
  | _, _ => false
  end.

(* ------------------------------------------------------------------------- *)
(** ** Tensors *)
(* ------------------------------------------------------------------------- *)

Inductive dtype : Type := Int64 | Float16 | Float32.

Definition dtype_eqb (a b : dtype) : bool :=
  match a, b with
  | Int64, Int64 | Float16, Float16 | Float32, Float32 => true
  | _, _ => false
  end.

(** [torch.result_type] on the three dtypes the module meets. *)
Definition promote (a b : dtype) : dtype :=
  match a, b with
  | Float32, _ | _, Float32 => Float32
  | Float16, _ | _, Float16 => Float16
  | Int64, Int64 => Int64
  end.

Record tensor (A : Type) : Type := mkTensor {
  shape : list nat;
  dtype_of : dtype;
  data : list A
}.

Arguments mkTensor {A} shape dtype_of data.

Section TensorCore.
Context {A : Type}.
Variable pad : A.

Definition ndim (t : tensor A) : nat := length (shape t).

(** Contiguous storage: as many elements as the shape announces. *)
Definition wf (t : tensor A) : Prop := length (data t) = numel (shape t).

Definition tget (t : tensor A) (idx : list nat) : A :=
  nth (ravel (shape t) idx) (data t) pad.

Definition tabulate (dt : dtype) (s : list nat) (f : list nat -> A) : tensor A :=
  mkTensor s dt (map (fun k => f (unravel s k)) (seq 0 (numel s))).

(** [t.view(s)]: same storage, new shape. *)
Definition view (s : list nat) (t : tensor A) : tensor A :=
  mkTensor s (dtype_of t) (data t).

(** [t.to(dt)] with an elementwise conversion. *)
Definition to_dtype (cast : dtype -> A -> A) (dt : dtype) (t : tensor A) : tensor A :=
  mkTensor (shape t) dt (map (cast dt) (data t)).

End TensorCore.

Arguments tabulate {A} dt s f.
Arguments view {A} s t.
Arguments ndim {A} t.
Arguments wf {A} t.

(* ------------------------------------------------------------------------- *)
(** ** Shape-level and indexing operators of torch *)
(* ------------------------------------------------------------------------- *)

Definition set_nth {A : Type} (k : nat) (v : A) (l : list A) : list A :=
  firstn k l ++ v :: skipn (S k) l.

Definition sum_list (l : list nat) : nat := fold_right Nat.add 0 l.

(** Position of axis [j] in a permutation [dims]. *)
Fixpoint index_of (j : nat) (dims : list nat) : nat :=
  match dims with
  | [] => 0
  | d :: ds => if d =? j then 0 else S (index_of j ds)
  end.

(** Which piece of a concatenation holds position [k], and where in it. *)
Fixpoint locate (sizes : list nat) (k : nat) : nat * nat :=
  match sizes with
  | [] => (0, k)
  | n :: rest =>
      if k <? n then (0, k)
      else let (p, o) := locate rest (k - n) in (S p, o)
  end.

(** Python's index normalisation for a gather: negative indices count from
    the end, anything outside [-n, n) is an [IndexError]. *)
Definition wrap_index (n : nat) (i : Z) : result nat :=
  if (0 <=? i)%Z && (i <? Z.of_nat n)%Z then Ok (Z.to_nat i)
  else if (- Z.of_nat n <=? i)%Z && (i <? 0)%Z then Ok (Z.to_nat (i + Z.of_nat n))
  else Raise IndexError.

(** [nn.Embedding] accepts no negative index: anything outside [0, n) is an
    [IndexError]. *)
Definition strict_index (n : nat) (i : Z) : result nat :=
  if (0 <=? i)%Z && (i <? Z.of_nat n)%Z then Ok (Z.to_nat i)
  else Raise IndexError.

(** [torch.index_select] accepts no negative index either, and reports a
    position outside [0, n) as a [RuntimeError]. *)
Definition select_index (n : nat) (i : Z) : result nat :=
  if (0 <=? i)%Z && (i <? Z.of_nat n)%Z then Ok (Z.to_nat i)
  else Raise RuntimeError.

Section TensorOps.
Context {A : Type}.
Variable pad : A.

Local Abbreviation tget := (tget pad).

(** [t.unsqueeze(k)] *)
Definition unsqueeze (k : nat) (t : tensor A) : tensor A :=
  view (firstn k (shape t) ++ 1 :: skipn k (shape t)) t.

(** [t.squeeze(k)]: drops axis [k] when its size is 1, else no change. *)
Definition squeeze (k : nat) (t : tensor A) : tensor A :=
  if nth k (shape t) 0 =? 1
  then view (firstn k (shape t) ++ skipn (S k) (shape t)) t
  else t.

(** [t.permute(dims)], materialised. *)
Definition permute (dims : list nat) (t : tensor A) : tensor A :=
  tabulate (dtype_of t)
    (map (fun d => nth d (shape t) 0) dims)
    (fun idx =>
       tget t (map (fun j => nth (index_of j dims) idx 0)
                   (seq 0 (length dims)))).

(** [t.narrow(dim, start, len)], the slice [start : start+len] on one axis. *)
Definition narrow (dim start len : nat) (t : tensor A) : tensor A :=
  tabulate (dtype_of t)
    (set_nth dim len (shape t))
    (fun idx => tget t (set_nth dim (start + nth dim idx 0) idx)).

(** Python's [t[..., a:b, ...]] on one axis with [0 <= a]: the bounds are
    clipped to the axis. *)
Definition slice (dim a b : nat) (t : tensor A) : tensor A :=
  let n := nth dim (shape t) 0 in
  narrow dim (Nat.min a n) (Nat.min b n - Nat.min a n) t.

(** [torch.cat(ts, dim)] *)
Definition cat (dim : nat) (ts : list (tensor A)) : tensor A :=
  match ts with
  | [] => mkTensor [0] Float32 []
  | t0 :: _ =>
      let sizes := map (fun t => nth dim (shape t) 0) ts in
      tabulate (dtype_of t0)
        (set_nth dim (sum_list sizes) (shape t0))
        (fun idx =>
           let (p, o) := locate sizes (nth dim idx 0) in
           tget (nth p ts t0) (set_nth dim o idx))
  end.

Fixpoint split_from (start : nat) (sizes : list nat) (t : tensor A)
  : list (tensor A) :=
  match sizes with
  | [] => []
  | n :: rest => narrow 0 start n t :: split_from (start + n) rest t
  end.

(** [torch.split(t, sizes)] along axis 0: the sizes must add up to the axis. *)
Definition torch_split (t : tensor A) (sizes : list nat)
  : result (list (tensor A)) :=
  if sum_list sizes =? nth 0 (shape t) 0
  then Ok (split_from 0 sizes t)
  else Raise RuntimeError.

(** [torch.index_select(t, dim, index)]: [index] is a vector (or a scalar
    tensor) of positions on axis [dim], each within the axis.  An index of
    higher rank is an [IndexError], a position outside the axis a
    [RuntimeError]. *)
Definition index_select (dim : nat) (t : tensor A) (index : tensor Z)
  : result (tensor A) :=
  if 1 <? ndim index then Raise IndexError
  else
    ps <- mapM (select_index (nth dim (shape t) 0)) (data index) ;;
    Ok (tabulate (dtype_of t)
          (set_nth dim (length ps) (shape t))
          (fun idx => tget t (set_nth dim (nth (nth dim idx 0) ps 0) idx))).

(** [t[:, ids]] for an integer tensor [ids]: a gather on axis 1 whose
    result has the shape of [ids] in place of that axis. *)
Definition gather_axis1 (t : tensor A) (ids : tensor Z) : result (tensor A) :=
  ps <- mapM (wrap_index (nth 1 (shape t) 0)) (data ids) ;;
  let r := ndim ids in
  Ok (tabulate (dtype_of t)
        (firstn 1 (shape t) ++ shape ids ++ skipn 2 (shape t))
        (fun idx =>
           let k := ravel (shape ids) (firstn r (skipn 1 idx)) in
           tget t (firstn 1 idx ++ nth k ps 0 :: skipn (S r) idx))).

(** [t.repeat(reps)] with as many repetition counts as axes. *)
Definition repeat_t (reps : list nat) (t : tensor A) : tensor A :=
  tabulate (dtype_of t)
    (map (fun p => fst p * snd p) (combine (shape t) reps))
    (fun idx => tget t (map (fun p => fst p mod snd p) (combine idx (shape t)))).

End TensorOps.

Arguments unsqueeze {A} k t.
Arguments squeeze {A} k t.

(* ------------------------------------------------------------------------- *)
(** ** Scalar arithmetic *)
(* ------------------------------------------------------------------------- *)

(** The floating-point operations the module uses, as an interface.  No law
    is assumed of them: whatever is proved below holds of the computation as
    the module arranges it, not of real-number algebra. *)
Class Scalar (F : Type) : Type := {
  fzero : F;
  fone : F;
  fadd : F -> F -> F;
  fsub : F -> F -> F;
  fmul : F -> F -> F;
  fdiv : F -> F -> F;
  fneg : F -> F;
  fsqrt : F -> F;
  frsqrt : F -> F;
  fpow : F -> F -> F;
  fcos : F -> F;
  fsin : F -> F;
  fsilu : F -> F;
  (** [float(n)] *)
  of_nat : nat -> F;
  (** [torch.softmax] of one vector. *)
  softmax1 : list F -> list F;
  (** Conversion of one value to a dtype. *)
  cast : dtype -> F -> F
}.

Definition MODEL_DTYPE : dtype := Float16.
Definition CONTEXT_LENGTH : nat := 512.

Section FloatOps.
Context {F : Type} `{Scalar F}.

Local Abbreviation tget := (tget fzero).

Definition fsum (l : list F) : F := fold_left fadd l fzero.

Definition fmean (l : list F) : F := fdiv (fsum l) (of_nat (length l)).

(** [t.to(dt)] *)
Definition to (dt : dtype) (t : tensor F) : tensor F := to_dtype cast dt t.

(** An elementwise unary operator. *)
Definition map_t (f : F -> F) (t : tensor F) : tensor F :=
  mkTensor (shape t) (dtype_of t) (map f (data t)).

(** Broadcasting, aligned on the trailing axes. *)
Fixpoint bshape_rev (a b : list nat) : list nat :=
  match a, b with
  | [], _ => b
  | _, [] => a
  | x :: a', y :: b' => (if x =? 1 then y else x) :: bshape_rev a' b'
  end.

Definition bshape (s1 s2 : list nat) : list nat :=
  rev (bshape_rev (rev s1) (rev s2)).

Definition bcast_index (s idx : list nat) : list nat :=
  map (fun p => if fst p =? 1 then 0 else snd p)
      (combine s (skipn (length idx - length s) idx)).

(** An elementwise binary operator on broadcast operands. *)
Definition zip_t (op : F -> F -> F) (a b : tensor F) : tensor F :=
  tabulate (promote (dtype_of a) (dtype_of b))
    (bshape (shape a) (shape b))
    (fun idx => op (tget a (bcast_index (shape a) idx))
                   (tget b (bcast_index (shape b) idx))).

Definition add_t := zip_t fadd.
Definition sub_t := zip_t fsub.
Definition mul_t := zip_t fmul.

(** [t * c] and [t + c] for a Python float [c]. *)
Definition scale_t (c : F) (t : tensor F) : tensor F := map_t (fun x => fmul x c) t.
Definition shift_t (c : F) (t : tensor F) : tensor F := map_t (fun x => fadd x c) t.

(** The vector along the last axis at the leading index [pre]. *)
Definition row (t : tensor F) (pre : list nat) : list F :=
  map (fun j => tget t (pre ++ [j])) (seq 0 (last (shape t) 0)).

(** [t.mean(-1, keepdim=True)] *)
Definition mean_last (t : tensor F) : tensor F :=
  tabulate (dtype_of t) (removelast (shape t) ++ [1])
    (fun idx => fmean (row t (removelast idx))).

(** [torch.softmax(t, dim=-1)] *)
Definition softmax_last (t : tensor F) : tensor F :=
  tabulate (dtype_of t) (shape t)
    (fun idx => nth (last idx 0) (softmax1 (row t (removelast idx))) fzero).

(** [torch.matmul(a, b)] on operands with equal leading (batch) axes. *)
Definition matmul (a b : tensor F) : tensor F :=
  let K := last (shape a) 0 in
  tabulate (promote (dtype_of a) (dtype_of b))
    (removelast (shape a) ++ [last (shape b) 0])
    (fun idx =>
       let r := length idx in
       let pre := firstn (r - 2) idx in
       let i := nth (r - 2) idx 0 in
       let j := nth (r - 1) idx 0 in
       fsum (map (fun k => fmul (tget a (pre ++ [i; k])) (tget b (pre ++ [k; j])))
                 (seq 0 K))).

(** Modelled from the torch documentation: [F.layer_norm(x, [d], weight,
    bias, eps)] normalises every vector along the last axis,
    [y = (x - E[x]) / sqrt(Var[x] + eps) * weight + bias], with the biased
    variance; [bias=None] adds nothing. *)
Definition layer_norm (x : tensor F) (weight : tensor F)
    (bias : option (tensor F)) (eps : F) : tensor F :=
  tabulate (dtype_of x) (shape x)
    (fun idx =>
       let v := row x (removelast idx) in
       let mu := fmean v in
       let var := fmean (map (fun e => fmul (fsub e mu) (fsub e mu)) v) in
       let j := last idx 0 in
       let y := fmul (fdiv (fsub (tget x idx) mu) (fsqrt (fadd var eps)))
                     (tget weight [j]) in
       match bias with
       | None => y
       | Some b => fadd y (tget b [j])
       end).

(** [nn.Conv2d(in_channels, out_channels, 1, bias=False)] *)
Record Conv2d : Type := mkConv2d {
  in_channels : nat;
  out_channels : nat;
  conv_weight : tensor F        (* [out_channels, in_channels, 1, 1] *)
}.

(** A fresh layer: the weight has the working precision and arbitrary
    (randomly initialised) content [init]. *)
Definition Conv2d_init (init : list nat -> F) (cin cout : nat) : Conv2d :=
  mkConv2d cin cout (tabulate MODEL_DTYPE [cout; cin; 1; 1] init).

(** The arithmetic of the layer on [x : [B, in_channels, h, w]]: with a unit
    kernel every output pixel is the weighted sum of the input channels
    there. *)
Definition pointwise_conv (c : Conv2d) (x : tensor F) : tensor F :=
  tabulate (dtype_of x)
    (set_nth 1 (out_channels c) (shape x))
    (fun idx =>
       let o := nth 1 idx 0 in
       fsum (map (fun ci => fmul (tget (conv_weight c) [o; ci; 0; 0])
                                 (tget x (set_nth 1 ci idx)))
                 (seq 0 (in_channels c)))).

(** The layer applied to [x].  torch's convolution raises a [RuntimeError]
    on a weight without output channels, on an input whose channel axis is
    not the weight's, and on an input without pixels (the unit kernel is
    then larger than the input). *)
Definition Conv2d_forward (c : Conv2d) (x : tensor F) : result (tensor F) :=
  if out_channels c =? 0 then Raise RuntimeError
  else if negb (nth 1 (shape x) 0 =? in_channels c) then Raise RuntimeError
  else if (nth 2 (shape x) 0 =? 0) || (nth 3 (shape x) 0 =? 0)
  then Raise RuntimeError
  else Ok (pointwise_conv c x).

(** [nn.Embedding]: a table [V, H] (single precision) indexed by token id. *)
Definition Embedding_forward (table : tensor F) (ids : tensor Z)
  : result (tensor F) :=
  ps <- mapM (strict_index (nth 0 (shape table) 0)) (data ids) ;;
  Ok (tabulate (dtype_of table)
        (shape ids ++ skipn 1 (shape table))
        (fun idx =>
           let r := ndim ids in
           let k := ravel (shape ids) (firstn r idx) in
           tget table (nth k ps 0 :: skipn r idx))).

End FloatOps.

Arguments Conv2d F : clear implicits.

(* ------------------------------------------------------------------------- *)
(** ** Function bodies with [return] statements *)
(* ------------------------------------------------------------------------- *)

(** A statement either falls through to the next one with a value or
    returns from the enclosing function; what follows a [Return] is not run. *)
Inductive flow (R A : Type) : Type :=
| Next (a : A)
| Return (r : R).

Arguments Next {R A} a.
Arguments Return {R A} r.

Definition seq_flow {R A B : Type} (s : flow R A) (k : A -> flow R B) : flow R B :=
  match s with
  | Next a => k a
  | Return r => Return r
  end.

(** The value of a body that ends on a [return]. *)
Definition run_body {R : Type} (b : flow R R) : R :=
  match b with
  | Next r => r
  | Return r => r
  end.

(** A [return] in the middle of a body; the statements after it are bound
    to its (absent) fall-through value. *)
Definition py_return {R : Type} (r : R) : flow R unit := Return r.

Declare Scope flow_scope.
Delimit Scope flow_scope with flow.
Notation "'stmt' x := e 'in' k" := (seq_flow e (fun x => k))
  (at level 61, x name, e at next level, right associativity) : flow_scope.

(* ------------------------------------------------------------------------- *)
(** ** The module's switches *)
(* ------------------------------------------------------------------------- *)

Record flags : Type := mkFlags {
  ENABLE_CONV2D : bool;
  ENABLE_VACAB_SPLIT : bool;
  ENABLE_VACAB_SPLIT8 : bool;
  ENABLE_VACAB_SPLIT16 : bool;
  ENABLE_LOGITS2 : bool;
  ENABLE_COREML : bool
}.

(** Python's [bool(n)] *)
Definition py_bool (n : Z) : bool := negb (n =? 0)%Z.

(** The values the module assigns at import time. *)
Definition module_flags : flags :=
  {| ENABLE_CONV2D := py_bool 1;
     ENABLE_VACAB_SPLIT := py_bool 1;
     ENABLE_VACAB_SPLIT8 := py_bool 0;
     ENABLE_VACAB_SPLIT16 := py_bool 1;
     ENABLE_LOGITS2 := py_bool 1;
     ENABLE_COREML := py_bool 0 |}.

(** A build that differs from the module's in the head only: one unsplit
    convolutional head (the last [else] of every [ENABLE_CONV2D] chain). *)
Definition single_head_flags : flags :=
  {| ENABLE_CONV2D := true;
     ENABLE_VACAB_SPLIT := false;
     ENABLE_VACAB_SPLIT8 := false;
     ENABLE_VACAB_SPLIT16 := false;
     ENABLE_LOGITS2 := py_bool 1;
     ENABLE_COREML := py_bool 0 |}.

(** The arm of the [if ENABLE_CONV2D: if ENABLE_VACAB_SPLIT16: ... elif ...]
    chain that runs; the chain is written three times in the module
    (construction, projection, head-weight loading) with the same tests. *)
Inductive head_arm : Type :=
| Arm16 | Arm8 | Arm2 | ArmSingle | ArmLinear.

Definition select_arm (fl : flags) : head_arm :=
  if ENABLE_CONV2D fl then
    if ENABLE_VACAB_SPLIT16 fl then Arm16
    else if ENABLE_VACAB_SPLIT8 fl then Arm8
    else if ENABLE_VACAB_SPLIT fl then Arm2
    else ArmSingle
  else ArmLinear.

(* ------------------------------------------------------------------------- *)
(** ** The model *)
(* ------------------------------------------------------------------------- *)

Section Model.
Context {F : Type} `{Scalar F}.

Local Abbreviation tget := (tget fzero).

(** The fields of [QwenConfig] the model reads. *)
Record QwenConfig : Type := mkConfig {
  hidden_size : nat;
  intermediate_size : nat;
  max_position_embeddings : nat;
  num_attention_heads : nat;
  num_hidden_layers : nat;
  num_key_value_heads : nat;
  head_dim : nat;
  rms_norm_eps : F;
  rope_theta : F;
  vocab_size : nat
}.

(** *** Normalisation *)

Record QwenRMSNorm : Type := mkRMSNorm {
  rms_weight : tensor F;
  rms_eps : F
}.

Definition QwenRMSNorm_init (hidden : nat) (eps : F) : QwenRMSNorm :=
  mkRMSNorm (tabulate Float32 [hidden] (fun _ => fone)) eps.

(** The second formula of the Python body ("true RMSNorm"), the statements
    after the first [return]. *)
Definition true_rmsnorm (weight : tensor F) (eps : F) (x : tensor F) : tensor F :=
  let variance := mean_last (map_t (fun e => fmul e e) x) in
  let x := mul_t x (map_t frsqrt (shift_t eps variance)) in
  to MODEL_DTYPE (mul_t weight x).

Definition QwenRMSNorm_body (self : QwenRMSNorm) (hidden_states : tensor F)
  : flow (tensor F) (tensor F) :=
  (stmt mean := Next (mean_last hidden_states) in
   stmt hidden_states := Next (sub_t hidden_states mean) in
   stmt _ := py_return (to MODEL_DTYPE
                       (layer_norm hidden_states (rms_weight self) None
                                   (rms_eps self))) in
   Return (true_rmsnorm (rms_weight self) (rms_eps self) hidden_states))%flow.

Definition QwenRMSNorm_forward (self : QwenRMSNorm) (hidden_states : tensor F)
  : tensor F :=
  run_body (QwenRMSNorm_body self hidden_states).

Record QwenHeadNorm : Type := mkHeadNorm {
  hn_weight : tensor F;
  hn_eps : F
}.

Definition QwenHeadNorm_init (d : nat) (eps : F) : QwenHeadNorm :=
  mkHeadNorm (tabulate Float32 [d] (fun _ => fone)) eps.

Definition QwenHeadNorm_body (self : QwenHeadNorm) (x : tensor F)
  : flow (tensor F) (tensor F) :=
  (stmt mean := Next (mean_last x) in
   stmt x := Next (sub_t x mean) in
   stmt _ := py_return (to MODEL_DTYPE
                       (layer_norm x (hn_weight self) None (hn_eps self))) in
   Return (true_rmsnorm (hn_weight self) (hn_eps self) x))%flow.

Definition QwenHeadNorm_forward (self : QwenHeadNorm) (x : tensor F) : tensor F :=
  run_body (QwenHeadNorm_body self x).

(** *** Rotary position embedding *)

Record QwenRotaryEmbedding : Type := mkRotary {
  rot_dim : nat;
  inv_freq : tensor F;
  cos_cached : tensor F;
  sin_cached : tensor F
}.

(** [torch.arange(0, n, 2)] has one entry per even number below [n]. *)
Definition arange_step2_len (n : nat) : nat := (n + 1) / 2.

Definition QwenRotaryEmbedding_init (config : QwenConfig) : QwenRotaryEmbedding :=
  let dim := head_dim config in
  let inv_freq :=
    tabulate Float32 [arange_step2_len dim]
      (fun idx =>
         let i := nth 0 idx 0 in
         fdiv fone (fpow (rope_theta config)
                         (fdiv (of_nat (2 * i)) (of_nat dim)))) in
  let t := tabulate Float32 [max_position_embeddings config]
             (fun idx => of_nat (nth 0 idx 0)) in
  (* torch.einsum("i,j->ij", t, inv_freq) *)
  let freqs :=
    tabulate Float32 [max_position_embeddings config; arange_step2_len dim]
      (fun idx => fmul (tget t [nth 0 idx 0]) (tget inv_freq [nth 1 idx 0])) in
  let emb := cat fzero 1 [freqs; freqs] in
  mkRotary dim inv_freq
    (unsqueeze 0 (map_t fcos emb))
    (unsqueeze 0 (map_t fsin emb)).

Definition QwenRotaryEmbedding_forward (self : QwenRotaryEmbedding)
    (x : tensor F) (position_ids : option (tensor Z))
  : result (tensor F * tensor F) :=
  match position_ids with
  | Some position_ids =>
      let pos_ids :=
        if ndim position_ids =? 1 then position_ids
        else squeeze 0 position_ids in
      cos <- gather_axis1 fzero (cos_cached self) pos_ids ;;
      sin <- gather_axis1 fzero (sin_cached self) pos_ids ;;
      Ok (to (dtype_of x) cos, to (dtype_of x) sin)
  | None =>
      (* x.shape[1] *)
      if ndim x <? 2 then Raise IndexError
      else
        let seq_len := nth 1 (shape x) 0 in
        Ok (to (dtype_of x) (slice fzero 1 0 seq_len (cos_cached self)),
            to (dtype_of x) (slice fzero 1 0 seq_len (sin_cached self)))
  end.

Definition rotate_half (x : tensor F) : tensor F :=
  let ax := ndim x - 1 in
  let n := last (shape x) 0 in
  let x1 := slice fzero ax 0 (n / 2) x in
  let x2 := slice fzero ax (n / 2) n x in
  cat fzero ax [map_t fneg x2; x1].

Definition apply_rotary_pos_emb (q k cos sin : tensor F) : tensor F * tensor F :=
  let cos := unsqueeze 1 cos in
  let sin := unsqueeze 1 sin in
  let q_embed := add_t (mul_t q cos) (mul_t (rotate_half q) sin) in
  let k_embed := add_t (mul_t k cos) (mul_t (rotate_half k) sin) in
  (q_embed, k_embed).

(** *** Grouped-query expansion *)

Definition repeat_kv (hidden_states : tensor F) (n_rep : nat) : tensor F :=
  if n_rep =? 1 then hidden_states
  else
    let bsz := nth 0 (shape hidden_states) 0 in
    let n_kv := nth 1 (shape hidden_states) 0 in
    let seq_len := nth 2 (shape hidden_states) 0 in
    let head_dim := nth 3 (shape hidden_states) 0 in
    let hidden_states :=
      repeat_t fzero [1; 1; n_rep; 1; 1] (unsqueeze 2 hidden_states) in
    view [bsz; n_kv * n_rep; seq_len; head_dim] hidden_states.

(** *** Feed-forward block *)

Record QwenMLP : Type := mkMLP {
  gate_proj : Conv2d F;
  up_proj : Conv2d F;
  down_proj : Conv2d F
}.

Definition QwenMLP_init (init : list nat -> F) (config : QwenConfig) : QwenMLP :=
  mkMLP (Conv2d_init init (hidden_size config) (intermediate_size config))
        (Conv2d_init init (hidden_size config) (intermediate_size config))
        (Conv2d_init init (intermediate_size config) (hidden_size config)).

Definition QwenMLP_forward (self : QwenMLP) (x : tensor F) : result (tensor F) :=
  let x := unsqueeze 2 (permute fzero [0; 2; 1] (to MODEL_DTYPE x)) in
  a <- Conv2d_forward (gate_proj self) x ;;
  b <- Conv2d_forward (up_proj self) x ;;
  let c := map_t fsilu a in
  let d := mul_t c b in
  e <- Conv2d_forward (down_proj self) d ;;
  Ok (permute fzero [0; 2; 1] (squeeze 2 e)).

(** *** Attention *)

Record QwenAttention : Type := mkAttention {
  att_hidden_size : nat;
  num_heads : nat;
  num_kv_heads : nat;
  att_head_dim : nat;
  rotary_emb : QwenRotaryEmbedding;
  q_proj : Conv2d F;
  k_proj : Conv2d F;
  v_proj : Conv2d F;
  o_proj : Conv2d F;
  q_norm : QwenHeadNorm;
  k_norm : QwenHeadNorm;
  scale : F
}.

Definition QwenAttention_init (init : list nat -> F) (config : QwenConfig)
  : QwenAttention :=
  let hs := hidden_size config in
  let nh := num_attention_heads config in
  let nkv := num_key_value_heads config in
  let hd := head_dim config in
  mkAttention hs nh nkv hd
    (QwenRotaryEmbedding_init config)
    (Conv2d_init init hs (nh * hd))
    (Conv2d_init init hs (nkv * hd))
    (Conv2d_init init hs (nkv * hd))
    (Conv2d_init init (nh * hd) hs)
    (QwenHeadNorm_init hd (rms_norm_eps config))
    (QwenHeadNorm_init hd (rms_norm_eps config))
    (fdiv fone (fsqrt (of_nat hd))).

(** The position argument that the layers pass along and never read. *)
Inductive pos_arg : Type :=
| PosNone
| PosInt (p : Z)
| PosTensor (t : tensor Z).

Definition QwenAttention_forward (self : QwenAttention)
    (hidden_states : tensor F) (causal_mask : option (tensor F))
    (position_ids : option (tensor Z)) (current_pos : pos_arg)
  : result (tensor F) :=
  let bsz := nth 0 (shape hidden_states) 0 in
  let seq_len := nth 1 (shape hidden_states) 0 in
  let hs := unsqueeze 2 (permute fzero [0; 2; 1] hidden_states) in
  q <- Conv2d_forward (q_proj self) hs ;;
  let query_states :=
    permute fzero [0; 1; 3; 2]
      (view [bsz; num_heads self; att_head_dim self; seq_len] q) in
  k <- Conv2d_forward (k_proj self) hs ;;
  let key_states :=
    permute fzero [0; 1; 3; 2]
      (view [bsz; num_kv_heads self; att_head_dim self; seq_len] k) in
  v <- Conv2d_forward (v_proj self) hs ;;
  let value_states :=
    permute fzero [0; 1; 3; 2]
      (view [bsz; num_kv_heads self; att_head_dim self; seq_len] v) in
  let n_rep := num_heads self / num_kv_heads self in
  let key_states := repeat_kv key_states n_rep in
  let value_states := repeat_kv value_states n_rep in
  let query_states := QwenHeadNorm_forward (q_norm self) query_states in
  let key_states := QwenHeadNorm_forward (k_norm self) key_states in
  cs <- QwenRotaryEmbedding_forward (rotary_emb self) hidden_states position_ids ;;
  let (query_states, key_states) :=
    apply_rotary_pos_emb query_states key_states (fst cs) (snd cs) in
  let attn_weights :=
    scale_t (scale self)
      (matmul query_states (permute fzero [0; 1; 3; 2] key_states)) in
  let attn_weights :=
    match causal_mask with
    | Some causal_mask =>
        let causal_mask_slice :=
          slice fzero 3 0 seq_len (slice fzero 2 0 seq_len causal_mask) in
        add_t attn_weights (to (dtype_of attn_weights) causal_mask_slice)
    | None => attn_weights
    end in
  let attn_weights := softmax_last attn_weights in
  let attn_output := matmul attn_weights value_states in
  let attn_output := permute fzero [0; 2; 1; 3] attn_output in
  let attn_output :=
    view [bsz; seq_len; numel (shape attn_output) / (bsz * seq_len)]
         attn_output in
  out <- Conv2d_forward (o_proj self)
           (unsqueeze 2 (permute fzero [0; 2; 1] attn_output)) ;;
  Ok (permute fzero [0; 2; 1] (squeeze 2 out)).

(** *** Decoder layer *)

Record QwenDecoderLayer : Type := mkLayer {
  self_attn : QwenAttention;
  mlp : QwenMLP;
  input_layernorm : QwenRMSNorm;
  post_attention_layernorm : QwenRMSNorm
}.

Definition QwenDecoderLayer_init (init : list nat -> F) (config : QwenConfig)
  : QwenDecoderLayer :=
  mkLayer (QwenAttention_init init config)
          (QwenMLP_init init config)
          (QwenRMSNorm_init (hidden_size config) (rms_norm_eps config))
          (QwenRMSNorm_init (hidden_size config) (rms_norm_eps config)).

Definition QwenDecoderLayer_forward (self : QwenDecoderLayer)
    (hidden_states : tensor F) (causal_mask : option (tensor F))
    (position_ids : option (tensor Z)) (current_pos : pos_arg)
  : result (tensor F) :=
  let residual := hidden_states in
  let hidden_states := QwenRMSNorm_forward (input_layernorm self) hidden_states in
  hidden_states <- QwenAttention_forward (self_attn self) hidden_states
                     causal_mask position_ids current_pos ;;
  let hidden_states := add_t residual hidden_states in
  let residual := hidden_states in
  let hidden_states :=
    QwenRMSNorm_forward (post_attention_layernorm self) hidden_states in
  hidden_states <- QwenMLP_forward (mlp self) hidden_states ;;
  let hidden_states := add_t residual hidden_states in
  Ok hidden_states.

(** *** Decoder stack *)

Record QwenModel : Type := mkModel {
  model_config : QwenConfig;
  embed_tokens : tensor F;              (* [vocab_size, hidden_size] *)
  layers : list QwenDecoderLayer;
  norm : QwenRMSNorm
}.

Definition QwenModel_init (init : list nat -> F) (config : QwenConfig) : QwenModel :=
  mkModel config
    (tabulate Float32 [vocab_size config; hidden_size config] init)
    (map (fun _ => QwenDecoderLayer_init init config)
         (seq 0 (num_hidden_layers config)))
    (QwenRMSNorm_init (hidden_size config) (rms_norm_eps config)).

(** [for layer in self.layers: hidden_states = layer(hidden_states, ...)] *)
Fixpoint run_layers (ls : list QwenDecoderLayer) (hidden_states : tensor F)
    (causal_mask : option (tensor F)) (position_ids : option (tensor Z))
    (current_pos : pos_arg) : result (tensor F) :=
  match ls with
  | [] => Ok hidden_states
  | layer :: rest =>
      hidden_states <- QwenDecoderLayer_forward layer hidden_states
                         causal_mask position_ids current_pos ;;
      run_layers rest hidden_states causal_mask position_ids current_pos
  end.

Definition QwenModel_forward (self : QwenModel) (input_ids : tensor Z)
    (causal_mask : option (tensor F)) (position_ids : option (tensor Z))
    (current_pos : pos_arg) (IN_PREFILL : bool) : result (tensor F) :=
  hidden_states <- Embedding_forward (embed_tokens self) input_ids ;;
  hidden_states <- run_layers (layers self) hidden_states causal_mask
                     position_ids current_pos ;;
  if IN_PREFILL then
    (* Skip final normalization when used only for cache priming *)
    Ok hidden_states
  else
    let hidden_states := QwenRMSNorm_forward (norm self) hidden_states in
    Ok hidden_states.

(** *** Causal-LM head *)

(** The head attributes [__init__] creates: [lm_head16_1 .. lm_head16_16],
    [lm_head8_1 .. lm_head8_8], [lm_head2_1] and [lm_head2_2], [lm_head1],
    or [lm_head]; shards are kept in the order of their number. *)
Inductive lm_heads : Type :=
| Heads16 (shards : list (Conv2d F))
| Heads8 (shards : list (Conv2d F))
| Heads2 (h1 h2 : Conv2d F)
| Head1 (h : Conv2d F)
| HeadLinear (h : Conv2d F).

Record QwenForCausalLM : Type := mkCausalLM {
  config : QwenConfig;
  enable_coreml : bool;
  model : QwenModel;
  heads : lm_heads
}.

(** [split_size = vocab_split + (1 if i < vocab_remainder else 0)] *)
Definition split_size (n : nat) (vocab : nat) (i : nat) : nat :=
  let vocab_split := vocab / n in
  let vocab_remainder := vocab mod n in
  vocab_split + (if i <? vocab_remainder then 1 else 0).

(** The arms of the construction chain. *)
Definition make_heads16 (init : list nat -> F) (config : QwenConfig) : lm_heads :=
  Heads16 (map (fun i => Conv2d_init init (hidden_size config)
                           (split_size 16 (vocab_size config) i))
               (seq 0 16)).

Definition make_heads8 (init : list nat -> F) (config : QwenConfig) : lm_heads :=
  Heads8 (map (fun i => Conv2d_init init (hidden_size config)
                          (split_size 8 (vocab_size config) i))
              (seq 0 8)).

Definition make_heads2 (init : list nat -> F) (config : QwenConfig) : lm_heads :=
  Heads2 (Conv2d_init init (hidden_size config) (vocab_size config / 2))
         (Conv2d_init init (hidden_size config) (vocab_size config / 2)).

Definition make_head1 (init : list nat -> F) (config : QwenConfig) : lm_heads :=
  Head1 (Conv2d_init init (hidden_size config) (vocab_size config)).

Definition make_head_linear (init : list nat -> F) (config : QwenConfig) : lm_heads :=
  HeadLinear (Conv2d_init init (hidden_size config) (vocab_size config)).

Definition QwenForCausalLM_init_under (fl : flags) (init : list nat -> F)
    (config : QwenConfig) (enable_coreml : bool) : QwenForCausalLM :=
  let model := QwenModel_init init config in
  let heads :=
    if ENABLE_CONV2D fl then
      if ENABLE_VACAB_SPLIT16 fl then make_heads16 init config
      else if ENABLE_VACAB_SPLIT8 fl then make_heads8 init config
      else if ENABLE_VACAB_SPLIT fl then make_heads2 init config
      else make_head1 init config
    else make_head_linear init config in
  mkCausalLM config enable_coreml model heads.

(** [QwenForCausalLM(config)]: [enable_coreml] defaults to [False]. *)
Definition QwenForCausalLM_init := QwenForCausalLM_init_under module_flags.

(** What [forward] returns: one tensor, or a tuple of shard outputs. *)
Inductive logits_out : Type :=
| Logits (t : tensor F)
| LogitsTuple (ts : list (tensor F)).

(** [self.lm_headN_k(hidden_states).squeeze(2).transpose(1, 2)] *)
Definition shard_logits (hidden_states : tensor F) (h : Conv2d F)
  : result (tensor F) :=
  y <- Conv2d_forward h hidden_states ;;
  Ok (permute fzero [0; 2; 1] (squeeze 2 y)).

(** The shard attributes are read by name, one by one: all [n] must exist. *)
Definition get_shards (n : nat) (l : list (Conv2d F))
  : result (list (Conv2d F)) :=
  if length l =? n then Ok l else Raise AttributeError.

(** A split head: every shard projects, and the outputs are returned
    apart or concatenated on the vocabulary axis. *)
Definition project_shards (fl : flags) (self : QwenForCausalLM) (n : nat)
    (l : list (Conv2d F)) (hidden_states : tensor F) : result logits_out :=
  l <- get_shards n l ;;
  logits <- mapM (shard_logits hidden_states) l ;;
  if enable_coreml self && ENABLE_LOGITS2 fl
  then Ok (LogitsTuple logits)
  else Ok (Logits (cat fzero 2 logits)).

(** The arms of the projection chain; the first four take the hidden
    states already reshaped for [Conv2d]. *)
Definition project16 (fl : flags) (self : QwenForCausalLM)
    (hidden_states : tensor F) : result logits_out :=
  match heads self with
  | Heads16 l => project_shards fl self 16 l hidden_states
  | _ => Raise AttributeError
  end.

Definition project8 (fl : flags) (self : QwenForCausalLM)
    (hidden_states : tensor F) : result logits_out :=
  match heads self with
  | Heads8 l => project_shards fl self 8 l hidden_states
  | _ => Raise AttributeError
  end.

Definition project2 (fl : flags) (self : QwenForCausalLM)
    (hidden_states : tensor F) : result logits_out :=
  match heads self with
  | Heads2 h1 h2 =>
      logits1 <- shard_logits hidden_states h1 ;;
      logits2 <- shard_logits hidden_states h2 ;;
      if enable_coreml self && ENABLE_LOGITS2 fl
      then Ok (LogitsTuple [logits1; logits2])
      else Ok (Logits (cat fzero 2 [logits1; logits2]))
  | _ => Raise AttributeError
  end.

Definition project1 (self : QwenForCausalLM) (hidden_states : tensor F)
  : result logits_out :=
  match heads self with
  | Head1 h =>
      logits <- shard_logits hidden_states h ;;
      Ok (Logits logits)
  | _ => Raise AttributeError
  end.

Definition project_linear (self : QwenForCausalLM) (hidden_states : tensor F)
  : result logits_out :=
  match heads self with
  | HeadLinear h =>
      logits <-
        Conv2d_forward h (unsqueeze 2 (permute fzero [0; 2; 1] hidden_states)) ;;
      Ok (Logits (permute fzero [0; 2; 1] (squeeze 2 logits)))
  | _ => Raise AttributeError
  end.

(** "Reshape for Conv2d and ensure float16" *)
Definition conv_layout (hidden_states : tensor F) : tensor F :=
  to MODEL_DTYPE (unsqueeze 2 (permute fzero [0; 2; 1] hidden_states)).

(** Lines "Project to vocabulary using appropriate head" of [forward]. *)
Definition project_under (fl : flags) (self : QwenForCausalLM)
    (hidden_states : tensor F) : result logits_out :=
  if ENABLE_CONV2D fl then
    let hidden_states := conv_layout hidden_states in
    if ENABLE_VACAB_SPLIT16 fl then project16 fl self hidden_states
    else if ENABLE_VACAB_SPLIT8 fl then project8 fl self hidden_states
    else if ENABLE_VACAB_SPLIT fl then project2 fl self hidden_states
    else project1 self hidden_states
  else project_linear self hidden_states.

(** [x.shape[-1]] *)
Definition shape_last {A : Type} (t : tensor A) : result nat :=
  match shape t with
  | [] => Raise IndexError
  | s => Ok (last s 0)
  end.

(** The three assertions that open [forward]. *)
Definition forward_checks (input_ids position_ids : tensor Z)
    (IN_PREFILL : bool) : result unit :=
  py_assert (length (shape input_ids) =? 2) "input_ids must be 2D" ;;;
  if negb IN_PREFILL then
    py_assert ((ndim position_ids =? 1) || (ndim position_ids =? 2))
              "position_ids must be 1D or 2D"
  else
    p <- shape_last position_ids ;;
    i <- shape_last input_ids ;;
    py_assert (p =? i) "position_ids length must match input_ids in prefill".

(** "Extract hidden states at current position right before LM head". *)
Definition extract_position (hidden_states : tensor F) (current_pos : pos_arg)
    (IN_PREFILL : bool) : result (tensor F) :=
  match negb IN_PREFILL, current_pos with
  | true, PosTensor current_pos =>
      let pos_tensor :=
        if 0 <? ndim current_pos then current_pos else unsqueeze 0 current_pos in
      index_select fzero 1 hidden_states pos_tensor
  | true, PosInt current_pos =>
      let pos_tensor := mkTensor [1] Int64 [current_pos] in
      index_select fzero 1 hidden_states pos_tensor
  | _, _ => Ok hidden_states
  end.

Definition QwenForCausalLM_forward_under (fl : flags) (self : QwenForCausalLM)
    (input_ids : tensor Z) (update_mask : option (tensor F))
    (position_ids : tensor Z) (causal_mask : option (tensor F))
    (current_pos : pos_arg) (IN_PREFILL : bool) : result logits_out :=
  forward_checks input_ids position_ids IN_PREFILL ;;;
  hidden_states <- QwenModel_forward (model self) input_ids causal_mask
                     (Some position_ids) current_pos IN_PREFILL ;;
  hidden_states <- extract_position hidden_states current_pos IN_PREFILL ;;
  project_under fl self hidden_states.

Definition QwenForCausalLM_forward := QwenForCausalLM_forward_under module_flags.

(** *** Prefill *)

(** The part of torch's global state the module touches: the gradient mode,
    and the autograd graph that operations extend while the mode is on
    (counted in recorded module calls). *)
Record torch_state : Type := mkTorch {
  grad_enabled : bool;
  recorded_calls : nat
}.

Definition set_grad_enabled (b : bool) (w : torch_state) : torch_state :=
  mkTorch b (recorded_calls w).

(** [with torch.no_grad(): body]: the mode is switched off for the body and
    put back afterwards, also when the body raises. *)
Definition with_no_grad {A : Type} (body : torch_state -> A * torch_state)
    (w : torch_state) : A * torch_state :=
  let prev := grad_enabled w in
  let (a, w') := body (set_grad_enabled false w) in
  (a, set_grad_enabled prev w').

(** [self.model(...)] as a statement: the stack runs, and it is recorded
    for differentiation exactly when the gradient mode is on. *)
Definition QwenModel_call (self : QwenModel) (input_ids : tensor Z)
    (causal_mask : option (tensor F)) (position_ids : option (tensor Z))
    (current_pos : pos_arg) (IN_PREFILL : bool) (w : torch_state)
  : result (tensor F) * torch_state :=
  (QwenModel_forward self input_ids causal_mask position_ids current_pos IN_PREFILL,
   if grad_enabled w
   then mkTorch (grad_enabled w) (S (recorded_calls w))
   else w).

(** [prefill_kv_cache] has no [return]: it yields [None] unless the stack
    raises. *)
Definition prefill_kv_cache (self : QwenForCausalLM) (input_ids : tensor Z)
    (position_ids : option (tensor Z)) (start_pos : pos_arg)
    (causal_mask : option (tensor F)) (w : torch_state)
  : result unit * torch_state :=
  let seq_len := nth 1 (shape input_ids) 0 in
  let causal_slice :=
    match causal_mask with
    | Some causal_mask => Some (slice fzero 2 0 seq_len causal_mask)
    | None => None
    end in
  let (r, w') :=
    with_no_grad
      (QwenModel_call (model self) input_ids causal_slice position_ids
                      start_pos true) w in
  (r ;;; Ok tt, w').

End Model.

Arguments QwenConfig F : clear implicits.
Arguments QwenRMSNorm F : clear implicits.
Arguments QwenHeadNorm F : clear implicits.
Arguments QwenRotaryEmbedding F : clear implicits.
Arguments QwenMLP F : clear implicits.
Arguments QwenAttention F : clear implicits.
Arguments QwenDecoderLayer F : clear implicits.
Arguments QwenModel F : clear implicits.
Arguments lm_heads F : clear implicits.
Arguments QwenForCausalLM F : clear implicits.
Arguments logits_out F : clear implicits.

(* ------------------------------------------------------------------------- *)
(** ** Python strings and dictionaries *)
(* ------------------------------------------------------------------------- *)

(** [str(n)], as an f-string prints it. *)
Definition string_of_nat (n : nat) : string :=
  NilEmpty.string_of_uint (Nat.to_uint n).

(** [s.startswith(p)] *)
Definition startswith (p s : string) : bool := String.prefix p s.

(** [sub in s] *)
Fixpoint contains (sub s : string) : bool :=
  String.prefix sub s ||
  match s with
  | EmptyString => false
  | String _ s' => contains sub s'
  end.

(** [s.endswith(suf)] *)
Definition endswith (suf s : string) : bool :=
  let n := String.length s in
  let m := String.length suf in
  (m <=? n) && String.eqb (substring (n - m) m s) suf.

(** [s.replace(old, new)] for a non-empty [old]: every occurrence, scanning
    from the left, occurrences not overlapping.  [skip] counts the characters
    of a matched occurrence still to be dropped. *)
Fixpoint replace_from (old new : string) (skip : nat) (s : string) : string :=
  match s with
  | EmptyString => EmptyString
  | String c s' =>
      match skip with
      | S k => replace_from old new k s'
      | 0 =>
          if String.prefix old s
          then String.append new (replace_from old new (String.length old - 1) s')
          else String c (replace_from old new 0 s')
      end
  end.

Definition replace (old new s : string) : string := replace_from old new 0 s.

Definition mem_string (k : string) (l : list string) : bool :=
  existsb (String.eqb k) l.

Section Dict.
Context {V : Type}.

(** A [dict] with string keys, in insertion order. *)
Definition dict : Type := list (string * V).

Fixpoint dict_get (k : string) (d : dict) : option V :=
  match d with
  | [] => None
  | (k', v) :: d' => if String.eqb k k' then Some v else dict_get k d'
  end.

(** [d[k] = v]: an existing key keeps its place. *)
Fixpoint dict_set (k : string) (v : V) (d : dict) : dict :=
  match d with
  | [] => [(k, v)]
  | (k', v') :: d' =>
      if String.eqb k k' then (k', v) :: d' else (k', v') :: dict_set k v d'
  end.

(** [d.update(d2)] *)
Definition dict_update (d d2 : dict) : dict :=
  fold_left (fun acc kv => dict_set (fst kv) (snd kv) acc) d2 d.

Definition dict_keys (d : dict) : list string := map fst d.

End Dict.

Arguments dict V : clear implicits.

(* ------------------------------------------------------------------------- *)
(** ** Weight loading *)
(* ------------------------------------------------------------------------- *)

(** What the loader prints. *)
Inductive printed : Type :=
| PrintMissing (keys : list string)            (* "Missing keys", missing *)
| PrintUnexpected (keys : list string)         (* "Unexpected keys", unexpected *)
| PrintLoadedShard (attr : string) (s : list nat)
    (* "Loaded {attr}.weight with shape {s}" *)
| PrintLoaded (what : string)                  (* "Loaded {what}" *)
| PrintHeadNotFound.          (* "Warning: lm_head.weight not found in model weights" *)

(** A computation that prints and then returns or raises. *)
Definition io (A : Type) : Type := list printed * result A.

Definition io_bind {A B : Type} (m : io A) (k : A -> io B) : io B :=
  match m with
  | (out, Ok a) => let (out', r) := k a in (out ++ out', r)
  | (out, Raise e) => (out, Raise e)
  end.

Definition io_ret {A : Type} (a : A) : io A := ([], Ok a).
Definition io_lift {A : Type} (r : result A) : io A := ([], r).
Definition io_print (p : printed) : io unit := ([p], Ok tt).

Declare Scope io_scope.
Delimit Scope io_scope with io.
Notation "x <~ e ;; k" := (io_bind e (fun x => k))
  (at level 61, e at next level, right associativity) : io_scope.
Notation "e ;;> k" := (io_bind e (fun _ => k))
  (at level 61, right associativity) : io_scope.

Section Load.
Context {F : Type} `{Scalar F}.

Local Abbreviation tget := (tget fzero).

(** The tensors of one [.safetensors] file, by name. *)
Definition state_dict : Type := dict (tensor F).

(** A directory as [os.listdir] reports it: file names, each with what
    [safetensors.torch.load_file] reads from it. *)
Definition directory : Type := list (string * state_dict).

(** [os.path.isdir] holds of the paths mapped to a directory. *)
Definition filesystem : Type := string -> option directory.

(** The loop over [os.listdir(model_path)] that fills [state_dict]. *)
Definition read_checkpoint (dir : directory) : state_dict :=
  fold_left
    (fun sd file =>
       if endswith ".safetensors" (fst file)
       then dict_update sd (snd file)
       else sd)
    dir [].

(** [v.view(v.shape[0], v.shape[1], 1, 1)]: indexing the shape of a tensor
    of rank below 2 is an [IndexError]; a view that changes the number of
    elements is a [RuntimeError]. *)
Definition view_as_conv (v : tensor F) : result (tensor F) :=
  match shape v with
  | s0 :: s1 :: _ =>
      if numel (shape v) =? numel [s0; s1; 1; 1]
      then Ok (view [s0; s1; 1; 1] v)
      else Raise RuntimeError
  | _ => Raise IndexError
  end.

Definition projection_names : list string :=
  [ "q_proj.weight"; "k_proj.weight"; "v_proj.weight"; "o_proj.weight";
    "gate_proj.weight"; "up_proj.weight"; "down_proj.weight" ]%string.

(** The loop [for k, v in state_dict.items()] that fills [conv_state]. *)
Fixpoint convert_items (items conv_state : state_dict) : result state_dict :=
  match items with
  | [] => Ok conv_state
  | (k, v) :: rest =>
      let new_k := if startswith "model." k then replace "model." "" k else k in
      if contains "lm_head.weight" new_k then
        convert_items rest conv_state
      else if existsb (fun proj => contains proj new_k) projection_names then
        v' <- view_as_conv v ;;
        convert_items rest (dict_set new_k v' conv_state)
      else
        convert_items rest (dict_set new_k v conv_state)
  end.

(** *** [nn.Module.state_dict] and [load_state_dict] for the decoder stack

    Modelled from the torch documentation: the parameters and persistent
    buffers of the module tree, named by attribute path, in registration
    order.  ([cos_cached] and [sin_cached] are plain attributes and are not
    part of it; [inv_freq] is a registered buffer.) *)

Definition layer_state (i : nat) (l : QwenDecoderLayer F) : state_dict :=
  let p := ("layers." ++ string_of_nat i ++ ".")%string in
  [ ((p ++ "self_attn.rotary_emb.inv_freq")%string, inv_freq (rotary_emb (self_attn l)));
    ((p ++ "self_attn.q_proj.weight")%string, conv_weight (q_proj (self_attn l)));
    ((p ++ "self_attn.k_proj.weight")%string, conv_weight (k_proj (self_attn l)));
    ((p ++ "self_attn.v_proj.weight")%string, conv_weight (v_proj (self_attn l)));
    ((p ++ "self_attn.o_proj.weight")%string, conv_weight (o_proj (self_attn l)));
    ((p ++ "self_attn.q_norm.weight")%string, hn_weight (q_norm (self_attn l)));
    ((p ++ "self_attn.k_norm.weight")%string, hn_weight (k_norm (self_attn l)));
    ((p ++ "mlp.gate_proj.weight")%string, conv_weight (gate_proj (mlp l)));
    ((p ++ "mlp.up_proj.weight")%string, conv_weight (up_proj (mlp l)));
    ((p ++ "mlp.down_proj.weight")%string, conv_weight (down_proj (mlp l)));
    ((p ++ "input_layernorm.weight")%string, rms_weight (input_layernorm l));
    ((p ++ "post_attention_layernorm.weight")%string,
      rms_weight (post_attention_layernorm l)) ].

Fixpoint layers_state (i : nat) (ls : list (QwenDecoderLayer F)) : state_dict :=
  match ls with
  | [] => []
  | l :: rest => layer_state i l ++ layers_state (S i) rest
  end.

Definition QwenModel_state_dict (self : QwenModel F) : state_dict :=
  ("embed_tokens.weight"%string, embed_tokens self)
    :: layers_state 0 (layers self)
    ++ [("norm.weight"%string, rms_weight (norm self))].

Definition shape_eqb (a b : list nat) : bool :=
  if list_eq_dec Nat.eq_dec a b then true else false.

(** [param.copy_(input_param)] on equal shapes keeps the parameter's dtype. *)
Definition assign_param (src : state_dict) (name : string) (p : tensor F)
  : tensor F :=
  match dict_get name src with
  | Some v => mkTensor (shape p) (dtype_of p) (map (cast (dtype_of p)) (data v))
  | None => p
  end.

Definition assign_conv (src : state_dict) (name : string) (c : Conv2d F)
  : Conv2d F :=
  mkConv2d (in_channels c) (out_channels c) (assign_param src name (conv_weight c)).

Definition assign_layer (src : state_dict) (i : nat) (l : QwenDecoderLayer F)
  : QwenDecoderLayer F :=
  let p := ("layers." ++ string_of_nat i ++ ".")%string in
  let a := self_attn l in
  let r := rotary_emb a in
  mkLayer
    (mkAttention (att_hidden_size a) (num_heads a) (num_kv_heads a) (att_head_dim a)
       (mkRotary (rot_dim r)
          (assign_param src (p ++ "self_attn.rotary_emb.inv_freq")%string (inv_freq r))
          (cos_cached r) (sin_cached r))
       (assign_conv src (p ++ "self_attn.q_proj.weight")%string (q_proj a))
       (assign_conv src (p ++ "self_attn.k_proj.weight")%string (k_proj a))
       (assign_conv src (p ++ "self_attn.v_proj.weight")%string (v_proj a))
       (assign_conv src (p ++ "self_attn.o_proj.weight")%string (o_proj a))
       (mkHeadNorm (assign_param src (p ++ "self_attn.q_norm.weight")%string
                                 (hn_weight (q_norm a)))
                   (hn_eps (q_norm a)))
       (mkHeadNorm (assign_param src (p ++ "self_attn.k_norm.weight")%string
                                 (hn_weight (k_norm a)))
                   (hn_eps (k_norm a)))
       (scale a))
    (mkMLP (assign_conv src (p ++ "mlp.gate_proj.weight")%string (gate_proj (mlp l)))
           (assign_conv src (p ++ "mlp.up_proj.weight")%string (up_proj (mlp l)))
           (assign_conv src (p ++ "mlp.down_proj.weight")%string (down_proj (mlp l))))
    (mkRMSNorm (assign_param src (p ++ "input_layernorm.weight")%string
                             (rms_weight (input_layernorm l)))
               (rms_eps (input_layernorm l)))
    (mkRMSNorm (assign_param src (p ++ "post_attention_layernorm.weight")%string
                             (rms_weight (post_attention_layernorm l)))
               (rms_eps (post_attention_layernorm l))).

Fixpoint assign_layers (src : state_dict) (i : nat) (ls : list (QwenDecoderLayer F))
  : list (QwenDecoderLayer F) :=
  match ls with
  | [] => []
  | l :: rest => assign_layer src i l :: assign_layers src (S i) rest
  end.

Definition assign_model (src : state_dict) (self : QwenModel F) : QwenModel F :=
  mkModel (model_config self)
    (assign_param src "embed_tokens.weight" (embed_tokens self))
    (assign_layers src 0 (layers self))
    (mkRMSNorm (assign_param src "norm.weight" (rms_weight (norm self)))
               (rms_eps (norm self))).

(** A tensor offered for a parameter of another shape. *)
Definition size_mismatch (own src : state_dict) : bool :=
  existsb
    (fun kv =>
       match dict_get (fst kv) src with
       | Some v => negb (shape_eqb (shape v) (shape (snd kv)))
       | None => false
       end)
    own.

(** Modelled from the torch documentation:
    [self.load_state_dict(src, strict=False)] copies every tensor of [src]
    whose name is a key of the module, reports the module keys absent from
    [src] and the keys of [src] the module does not have, and raises a
    [RuntimeError] when a tensor has not the shape of its parameter.  The
    unexpected keys are listed in the order of [src]; torch collects them
    module by module, so its list can hold the same keys in another order. *)
Definition load_state_dict (self : QwenModel F) (src : state_dict)
  : result (list string * list string * QwenModel F) :=
  let own := QwenModel_state_dict self in
  if size_mismatch own src then Raise RuntimeError
  else
    let missing :=
      filter (fun k => negb (mem_string k (dict_keys src))) (dict_keys own) in
    let unexpected :=
      filter (fun k => negb (mem_string k (dict_keys own))) (dict_keys src) in
    Ok (missing, unexpected, assign_model src self).

(** Python's truth value of a list *)
Definition nonempty {A : Type} (l : list A) : bool :=
  match l with [] => false | _ => true end.

Definition QwenModel_load_pretrained_weights (self : QwenModel F)
    (fs : filesystem) (model_path : string) : io (bool * QwenModel F) :=
  match fs model_path with
  | None => io_lift (Raise (FileNotFoundError model_path))
  | Some dir =>
      (let state_dict := read_checkpoint dir in
       conv_state <~ io_lift (convert_items state_dict []) ;;
       loaded <~ io_lift (load_state_dict self conv_state) ;;
       let '(missing, unexpected, self') := loaded in
       let missing :=
         filter (fun m => negb (contains "rotary_emb.inv_freq" m)) missing in
       (if nonempty missing || nonempty unexpected
        then io_print (PrintMissing missing) ;;>
             io_print (PrintUnexpected unexpected)
        else io_ret tt) ;;>
       io_ret (negb (nonempty missing) && negb (nonempty unexpected), self'))%io
  end.

(** *** Head weights *)

Fixpoint expandable_rev (src dst : list nat) : bool :=
  match src, dst with
  | [], _ => true
  | _ :: _, [] => false
  | x :: src', y :: dst' => ((x =? y) || (x =? 1)) && expandable_rev src' dst'
  end.

(** [dst.copy_(src)]: [src] is broadcast to the shape of [dst] and
    converted to its dtype; a [src] that does not broadcast is a
    [RuntimeError]. *)
Definition copy_ (dst src : tensor F) : result (tensor F) :=
  if expandable_rev (rev (shape src)) (rev (shape dst))
  then Ok (tabulate (dtype_of dst) (shape dst)
             (fun idx => cast (dtype_of dst)
                           (tget src (bcast_index (shape src) idx))))
  else Raise RuntimeError.

Definition copy_conv (c : Conv2d F) (src : tensor F)
  : result (Conv2d F) :=
  w <- copy_ (conv_weight c) src ;;
  Ok (mkConv2d (in_channels c) (out_channels c) w).

(** [for i, split in enumerate(splits):
       getattr(self, f"{attr}{i+1}").weight.data.copy_(split); print(...)]
    from shard number [i] on. *)
Fixpoint copy_shards (attr : string) (i : nat) (shards : list (Conv2d F))
    (splits : list (tensor F)) : io (list (Conv2d F)) :=
  match splits with
  | [] => io_ret shards
  | split :: splits' =>
      match shards with
      | [] => io_lift (Raise AttributeError)
      | c :: shards' =>
          (c' <~ io_lift (copy_conv c split) ;;
           io_print (PrintLoadedShard (attr ++ string_of_nat (i + 1)) (shape split)) ;;>
           rest <~ copy_shards attr (S i) shards' splits' ;;
           io_ret (c' :: rest))%io
      end
  end.

Definition with_heads (self : QwenForCausalLM F) (h : lm_heads F) : QwenForCausalLM F :=
  mkCausalLM (config self) (enable_coreml self) (model self) h.

(** The arms of the head-loading chain, on the reshaped weight. *)
Definition load_head16 (self : QwenForCausalLM F) (reshaped_weight : tensor F)
  : io (QwenForCausalLM F) :=
  let split_sizes := map (split_size 16 (vocab_size (config self))) (seq 0 16) in
  (splits <~ io_lift (torch_split fzero reshaped_weight split_sizes) ;;
   match heads self with
   | Heads16 l =>
       l' <~ copy_shards "lm_head16_" 0 l splits ;;
       io_ret (with_heads self (Heads16 l'))
   | _ => io_lift (Raise AttributeError)
   end)%io.

Definition load_head8 (self : QwenForCausalLM F) (reshaped_weight : tensor F)
  : io (QwenForCausalLM F) :=
  let split_sizes := map (split_size 8 (vocab_size (config self))) (seq 0 8) in
  (splits <~ io_lift (torch_split fzero reshaped_weight split_sizes) ;;
   match heads self with
   | Heads8 l =>
       l' <~ copy_shards "lm_head8_" 0 l splits ;;
       io_ret (with_heads self (Heads8 l'))
   | _ => io_lift (Raise AttributeError)
   end)%io.

Definition load_head2 (self : QwenForCausalLM F) (reshaped_weight : tensor F)
  : io (QwenForCausalLM F) :=
  let vocab_split := vocab_size (config self) / 2 in
  (splits <~ io_lift (torch_split fzero reshaped_weight
                        [vocab_split; vocab_size (config self) - vocab_split]) ;;
   match splits, heads self with
   | [split1; split2], Heads2 h1 h2 =>
       h1' <~ io_lift (copy_conv h1 split1) ;;
       h2' <~ io_lift (copy_conv h2 split2) ;;
       io_print (PrintLoaded "lm_head2_1.weight and lm_head2_2.weight") ;;>
       io_ret (with_heads self (Heads2 h1' h2'))
   | _, _ => io_lift (Raise AttributeError)
   end)%io.

Definition load_head1 (self : QwenForCausalLM F) (reshaped_weight : tensor F)
  : io (QwenForCausalLM F) :=
  match heads self with
  | Head1 h =>
      (h' <~ io_lift (copy_conv h reshaped_weight) ;;
       io_print (PrintLoaded "lm_head1.weight") ;;>
       io_ret (with_heads self (Head1 h')))%io
  | _ => io_lift (Raise AttributeError)
  end.

Definition load_head_linear (self : QwenForCausalLM F) (lm_head_weight : tensor F)
  : io (QwenForCausalLM F) :=
  match heads self with
  | HeadLinear h =>
      (w <~ io_lift (view_as_conv lm_head_weight) ;;
       h' <~ io_lift (copy_conv h w) ;;
       io_ret (with_heads self (HeadLinear h')))%io
  | _ => io_lift (Raise AttributeError)
  end.

(** The branch [if lm_head_weight is not None] of the loader. *)
Definition load_head_under (fl : flags) (self : QwenForCausalLM F)
    (lm_head_weight : tensor F) : io (QwenForCausalLM F) :=
  if ENABLE_CONV2D fl then
    (reshaped_weight <~ io_lift (view_as_conv lm_head_weight) ;;
     if ENABLE_VACAB_SPLIT16 fl then load_head16 self reshaped_weight
     else if ENABLE_VACAB_SPLIT8 fl then load_head8 self reshaped_weight
     else if ENABLE_VACAB_SPLIT fl then load_head2 self reshaped_weight
     else load_head1 self reshaped_weight)%io
  else load_head_linear self lm_head_weight.

Definition with_model (self : QwenForCausalLM F) (m : QwenModel F) : QwenForCausalLM F :=
  mkCausalLM (config self) (enable_coreml self) m (heads self).

Definition QwenForCausalLM_load_pretrained_weights_under (fl : flags)
    (self : QwenForCausalLM F) (fs : filesystem) (model_path : string)
  : io (bool * QwenForCausalLM F) :=
  (loaded <~ QwenModel_load_pretrained_weights (model self) fs model_path ;;
   let (ok, m) := loaded in
   let self := with_model self m in
   if negb ok then io_ret (false, self)
   else
     match fs model_path with
     | None => io_lift (Raise (FileNotFoundError model_path))
     | Some dir =>
         let state_dict := read_checkpoint dir in
         (* the loop that stops at the key equal to "lm_head.weight" *)
         match dict_get "lm_head.weight" state_dict with
         | Some lm_head_weight =>
             self <~ load_head_under fl self lm_head_weight ;;
             io_ret (true, self)
         | None =>
             io_print PrintHeadNotFound ;;>
             io_ret (false, self)
         end
     end)%io.

Definition QwenForCausalLM_load_pretrained_weights :=
  QwenForCausalLM_load_pretrained_weights_under module_flags.

End Load.

Arguments state_dict F : clear implicits.
Arguments directory F : clear implicits.
Arguments filesystem F : clear implicits.

(* ------------------------------------------------------------------------- *)
(** ** The specification's side of the comparisons *)
(* ------------------------------------------------------------------------- *)

(** A current position that denotes one index: a Python int, a scalar
    tensor, or a tensor with a single element. *)
Definition pos_index (cp : pos_arg) : option Z :=
  match cp with
  | PosNone => None
  | PosInt p => Some p
  | PosTensor t =>
      match shape t, data t with
      | [], [p] => Some p
      | [1], [p] => Some p
      | _, _ => None
      end
  end.

(** The contract in the words of the specification: token ids of rank 2; in
    non-prefill mode position ids of rank 1 or 2; in prefill mode a
    position-id length (the last axis) equal to the token sequence length. *)
Definition inputs_valid (input_ids position_ids : tensor Z) (IN_PREFILL : bool)
  : bool :=
  (ndim input_ids =? 2) &&
  (if IN_PREFILL then
     match shape position_ids with
     | [] => false
     | s => last s 0 =? last (shape input_ids) 0
     end
   else (ndim position_ids =? 1) || (ndim position_ids =? 2)).

Section SpecSide.
Context {F : Type} `{Scalar F}.

Local Abbreviation tget := (tget fzero).

(** What a unit-kernel projection of [x : [B, C, 1, S]] holds once the layer
    has accepted its input, with the pixel axis dropped and channels last:
    a [B, S, out_channels] tensor. *)
Definition shard_value (x : tensor F) (h : Conv2d F) : tensor F :=
  permute fzero [0; 2; 1] (squeeze 2 (pointwise_conv h x)).

(** The normalisation contract: centre on the mean of the last axis, then
    [layer_norm] with the learned scale, no bias, in float16. *)
Definition mean_centred_norm (w : tensor F) (eps : F) (x : tensor F) : tensor F :=
  to Float16 (layer_norm (sub_t x (mean_last x)) w None eps).

(** The rotary angle of position [p] at frequency index [i]: the position
    times the inverse frequency [1 / theta^(2i/D)]. *)
Definition rope_angle (cfg : QwenConfig F) (p i : nat) : F :=
  fmul (of_nat p)
       (fdiv fone (fpow (rope_theta cfg)
                        (fdiv (of_nat (2 * i)) (of_nat (head_dim cfg))))).

(** *** The attention block, step by step (specification section 4.3) *)

(** Step 1, one projection: hidden states [B, S, H] to heads [B, N, S, D]
    by a bias-free linear map, output channel [n*D + d] being entry [d] of
    head [n]. *)
Definition project_heads (proj : Conv2d F) (N D : nat) (x : tensor F) : tensor F :=
  tabulate (dtype_of x) [nth 0 (shape x) 0; N; nth 1 (shape x) 0; D]
    (fun idx =>
       let b := nth 0 idx 0 in
       let n := nth 1 idx 0 in
       let s := nth 2 idx 0 in
       let d := nth 3 idx 0 in
       fsum (map (fun c => fmul (tget (conv_weight proj) [n * D + d; c; 0; 0])
                                (tget x [b; s; c]))
                 (seq 0 (in_channels proj)))).

(** Step 2: every kv-head repeated [n_rep] times in a row, so that query
    head [j] reads kv-head [j / n_rep]. *)
Definition expand_heads (n_rep : nat) (t : tensor F) : tensor F :=
  tabulate (dtype_of t)
    [nth 0 (shape t) 0; nth 1 (shape t) 0 * n_rep; nth 2 (shape t) 0;
     nth 3 (shape t) 0]
    (fun idx =>
       tget t [nth 0 idx 0; nth 1 idx 0 / n_rep; nth 2 idx 0; nth 3 idx 0]).

(** Step 7, head merge: [B, N, S, D] to [B, S, N*D], head after head. *)
Definition merge_heads (t : tensor F) : tensor F :=
  let D := nth 3 (shape t) 0 in
  tabulate (dtype_of t)
    [nth 0 (shape t) 0; nth 2 (shape t) 0; nth 1 (shape t) 0 * D]
    (fun idx =>
       tget t [nth 0 idx 0; nth 2 idx 0 / D; nth 1 idx 0; nth 2 idx 0 mod D]).

(** Step 7, output projection: a bias-free linear map on the last axis. *)
Definition out_projection (proj : Conv2d F) (y : tensor F) : tensor F :=
  tabulate (dtype_of y)
    [nth 0 (shape y) 0; nth 1 (shape y) 0; out_channels proj]
    (fun idx =>
       let b := nth 0 idx 0 in
       let s := nth 1 idx 0 in
       let o := nth 2 idx 0 in
       fsum (map (fun c => fmul (tget (conv_weight proj) [o; c; 0; 0])
                                (tget y [b; s; c]))
                 (seq 0 (in_channels proj)))).

(** Step 6: the mask, cut to the live [S x S] corner, added to the scores.
    Without a mask there is nothing to cut: Python raises a [TypeError] on
    subscripting [None]. *)
Definition add_causal_mask (seq_len : nat) (causal_mask : option (tensor F))
    (scores : tensor F) : result (tensor F) :=
  match causal_mask with
  | Some m =>
      Ok (add_t scores
            (to (dtype_of scores)
                (slice fzero 3 0 seq_len (slice fzero 2 0 seq_len m))))
  | None => Raise TypeError
  end.

(** The steps of the attention block in the order of the specification,
    the mask step handed in as [mask_step]. *)
Definition attention_steps
    (mask_step : nat -> tensor F -> result (tensor F))
    (self : QwenAttention F) (x : tensor F)
    (position_ids : option (tensor Z)) : result (tensor F) :=
  let N := num_heads self in
  let Nkv := num_kv_heads self in
  let D := att_head_dim self in
  let seq_len := nth 1 (shape x) 0 in
  (* 1. q/k/v projections *)
  let q := project_heads (q_proj self) N D x in
  let k := project_heads (k_proj self) Nkv D x in
  let v := project_heads (v_proj self) Nkv D x in
  (* 2. key/value heads expanded to the query heads *)
  let k := expand_heads (N / Nkv) k in
  let v := expand_heads (N / Nkv) v in
  (* 3. per-head normalisation of query and key *)
  let q := mean_centred_norm (hn_weight (q_norm self)) (hn_eps (q_norm self)) q in
  let k := mean_centred_norm (hn_weight (k_norm self)) (hn_eps (k_norm self)) k in
  (* 4. rotary rotation of query and key at the position ids *)
  cs <- QwenRotaryEmbedding_forward (rotary_emb self) x position_ids ;;
  let qk := apply_rotary_pos_emb q k (fst cs) (snd cs) in
  (* 5. scores: query times key transposed, scaled *)
  let scores :=
    scale_t (scale self) (matmul (fst qk) (permute fzero [0; 1; 3; 2] (snd qk))) in
  (* 6. causal mask *)
  scores <- mask_step seq_len scores ;;
  (* 7. softmax, times value, head merge, output projection *)
  let weights := softmax_last scores in
  let context := matmul weights v in
  Ok (out_projection (o_proj self) (merge_heads context)).

(** The order with the mask step unconditional: the mask is always cut and
    added. *)
Definition attention_as_claimed (self : QwenAttention F) (x : tensor F)
    (causal_mask : option (tensor F)) (position_ids : option (tensor Z))
  : result (tensor F) :=
  attention_steps (fun seq_len => add_causal_mask seq_len causal_mask)
                  self x position_ids.

(** The order as the code has it: the mask step is skipped without a mask. *)
Definition attention_in_order (self : QwenAttention F) (x : tensor F)
    (causal_mask : option (tensor F)) (position_ids : option (tensor Z))
  : result (tensor F) :=
  attention_steps
    (fun seq_len scores =>
       match causal_mask with
       | Some _ => add_causal_mask seq_len causal_mask scores
       | None => Ok scores
       end)
    self x position_ids.

(** The dimensions of an attention block built for hidden size [H]. *)
Definition attention_dims_ok (self : QwenAttention F) (H0 : nat) : Prop :=
  let N := num_heads self in
  let Nkv := num_kv_heads self in
  let D := att_head_dim self in
  in_channels (q_proj self) = H0 /\ out_channels (q_proj self) = N * D
  /\ in_channels (k_proj self) = H0 /\ out_channels (k_proj self) = Nkv * D
  /\ in_channels (v_proj self) = H0 /\ out_channels (v_proj self) = Nkv * D
  /\ in_channels (o_proj self) = N * D
  /\ Nkv * (N / Nkv) = N
  /\ 0 < D
  /\ shape (cos_cached (rotary_emb self)) = shape (sin_cached (rotary_emb self))
  /\ nth 0 (shape (cos_cached (rotary_emb self))) 0 = 1
  /\ nth 2 (shape (cos_cached (rotary_emb self))) 0 = D
  /\ length (shape (cos_cached (rotary_emb self))) = 3.


(** A mask that broadcasts against scores [B, N, S, S] once cut to its
    leading [S x S] corner. *)
Definition mask_fits (m : tensor F) (B N S : nat) : Prop :=
  exists Bm Cm R C,
    shape m = [Bm; Cm; R; C]
    /\ (Bm = B \/ Bm = 1) /\ (Cm = N \/ Cm = 1) /\ S <= R /\ S <= C.

End SpecSide.

(** Row at which block [p] of a partition with the given sizes starts. *)
Definition block_offset (sizes : list nat) (p : nat) : nat :=
  sum_list (firstn p sizes).

(** The partition rule of the specification: [N] contiguous blocks of
    [V // N] rows, one extra row for each of the first [V mod N] blocks. *)
Definition partition_sizes (N V : nat) : list nat :=
  map (fun i => V / N + (if i <? V mod N then 1 else 0)) (seq 0 N).

Section SpecSideLoad.
Context {F : Type} `{Scalar F}.

(** A projection layer after [weight.data.copy_(src)]. *)
Definition loaded_conv (c : Conv2d F) (src : tensor F) : Conv2d F :=
  mkConv2d (in_channels c) (out_channels c)
    (tabulate (dtype_of (conv_weight c)) (shape (conv_weight c))
       (fun idx => cast (dtype_of (conv_weight c))
                     (tget fzero src (bcast_index (shape src) idx)))).

(** The name a checkpoint key is filed under: the namespace prefix gone. *)
Definition stripped_key (k : string) : string :=
  if startswith "model." k then replace "model." "" k else k.

Definition is_head_key (k : string) : bool := contains "lm_head.weight" k.

Definition is_projection_key (k : string) : bool :=
  existsb (fun proj => contains proj k) projection_names.

(** The mapping handed to the bulk assignment (steps 1 to 3 of the loader
    in the specification): prefix stripped, head key skipped, projection
    matrices [out, in] reshaped to [out, in, 1, 1], the rest unchanged. *)
Fixpoint conv_state_from (items conv_state : state_dict F) : state_dict F :=
  match items with
  | [] => conv_state
  | (k, v) :: rest =>
      let new_k := stripped_key k in
      if is_head_key new_k then conv_state_from rest conv_state
      else if is_projection_key new_k then
        conv_state_from rest
          (dict_set new_k
             (view [nth 0 (shape v) 0; nth 1 (shape v) 0; 1; 1] v) conv_state)
      else conv_state_from rest (dict_set new_k v conv_state)
  end.

(** Every projection weight of the checkpoint is a matrix. *)
Definition projections_are_matrices (sd : state_dict F) : Prop :=
  Forall (fun kv : string * tensor F =>
            is_head_key (stripped_key (fst kv)) = false ->
            is_projection_key (stripped_key (fst kv)) = true ->
            exists s0 s1, shape (snd kv) = [s0; s1])
         sd.

(** Keys of the decoder stack the checkpoint does not provide, the rotary
    buffer left out; and keys of the checkpoint the stack does not have. *)
Definition missing_keys (stack : QwenModel F) (sd : state_dict F) : list string :=
  filter (fun m => negb (contains "rotary_emb.inv_freq" m))
    (filter (fun k => negb (mem_string k (dict_keys (conv_state_from sd []))))
            (dict_keys (QwenModel_state_dict stack))).

Definition unexpected_keys (stack : QwenModel F) (sd : state_dict F) : list string :=
  filter (fun k => negb (mem_string k (dict_keys (QwenModel_state_dict stack))))
         (dict_keys (conv_state_from sd [])).

Definition is_nil {A : Type} (l : list A) : bool :=
  match l with [] => true | _ => false end.

(** The proviso under which the loader returns rather than raises: the
    tensors of the checkpoint have shapes their destinations accept. *)
Definition checkpoint_fits (cfg : QwenConfig F) (stack : QwenModel F)
    (sd : state_dict F) : Prop :=
  projections_are_matrices sd
  /\ size_mismatch (QwenModel_state_dict stack) (conv_state_from sd []) = false
  /\ (forall W, dict_get "lm_head.weight" sd = Some W ->
                shape W = [vocab_size cfg; hidden_size cfg]).

(** The head of a model as construction shapes it under the module's
    constants: sixteen shards, shard [i] a [rows_i, hidden_size, 1, 1] weight
    with [rows_i] given by the partition rule.  Loading keeps these shapes. *)
Definition head_shards_as_built (cfg : QwenConfig F) (self : QwenForCausalLM F)
  : Prop :=
  vocab_size (config self) = vocab_size cfg
  /\ exists l,
      heads self = Heads16 l
      /\ map (fun c => shape (conv_weight c)) l
         = map (fun i => [split_size 16 (vocab_size cfg) i; hidden_size cfg; 1; 1])
               (seq 0 16).

End SpecSideLoad.

(* ------------------------------------------------------------------------- *)
(** ** Reference formulas for the building blocks *)
(* ------------------------------------------------------------------------- *)

Section Formulas.
Context {F : Type} `{Scalar F}.

Local Abbreviation tget := (tget fzero).

(** The rotary rotation of one entry of a [B, N, S, 2h] tensor: coordinate
    [d] of the first half is paired with coordinate [d + h] of the second,
    both turned by the angle whose cosine and sine sit at [0, s, d]. *)
Definition rope_rotate (x cos sin : tensor F) (h b n s d : nat) : F :=
  if d <? h
  then fadd (fmul (tget x [b; n; s; d]) (tget cos [0; s; d]))
            (fmul (fneg (tget x [b; n; s; h + d])) (tget sin [0; s; d]))
  else fadd (fmul (tget x [b; n; s; d]) (tget cos [0; s; d]))
            (fmul (tget x [b; n; s; d - h]) (tget sin [0; s; d])).

End Formulas.

Section BlockFormulas.
Context {F : Type} `{Scalar F}.

Local Abbreviation tget := (tget fzero).

(** Unit [i] of the feed-forward block at token [(b, s)]: the activation of
    the gate projection times the up projection, both taken on the float16
    copy of the token's row. *)
Definition gated_unit (self : QwenMLP F) (x : tensor F) (b s i : nat) : F :=
  let row c := cast MODEL_DTYPE (tget x [b; s; c]) in
  fmul
    (fsilu (fsum (map (fun c => fmul (tget (conv_weight (gate_proj self)) [i; c; 0; 0])
                                     (row c))
                      (seq 0 (in_channels (gate_proj self))))))
    (fsum (map (fun c => fmul (tget (conv_weight (up_proj self)) [i; c; 0; 0])
                              (row c))
               (seq 0 (in_channels (up_proj self))))).

(** Output channel [o] of the feed-forward block at token [(b, s)]. *)
Definition mlp_at (self : QwenMLP F) (x : tensor F) (b s o : nat) : F :=
  fsum (map (fun i => fmul (tget (conv_weight (down_proj self)) [o; i; 0; 0])
                           (gated_unit self x b s i))
            (seq 0 (in_channels (down_proj self)))).

(** What the feed-forward block holds once its three projections have
    accepted their inputs. *)
Definition mlp_value (self : QwenMLP F) (x : tensor F) : tensor F :=
  let x4 := unsqueeze 2 (permute fzero [0; 2; 1] (to MODEL_DTYPE x)) in
  shard_value
    (mul_t (map_t fsilu (pointwise_conv (gate_proj self) x4))
           (pointwise_conv (up_proj self) x4))
    (down_proj self).

(** The dimensions of a feed-forward block built for hidden size [H0]. *)
Definition mlp_dims_ok (self : QwenMLP F) (H0 : nat) : Prop :=
  in_channels (gate_proj self) = H0
  /\ in_channels (up_proj self) = H0
  /\ out_channels (up_proj self) = out_channels (gate_proj self)
  /\ in_channels (down_proj self) = out_channels (gate_proj self)
  /\ out_channels (down_proj self) = H0.

(** A decoder layer built for hidden size [H0], [N] query heads and rotary
    tables of [M] rows. *)
Definition layer_dims_ok (l : QwenDecoderLayer F) (H0 M N : nat) : Prop :=
  attention_dims_ok (self_attn l) H0
  /\ out_channels (o_proj (self_attn l)) = H0
  /\ num_heads (self_attn l) = N
  /\ nth 1 (shape (cos_cached (rotary_emb (self_attn l)))) 0 = M
  /\ shape (hn_weight (q_norm (self_attn l))) = [att_head_dim (self_attn l)]
  /\ shape (hn_weight (k_norm (self_attn l))) = [att_head_dim (self_attn l)]
  /\ mlp_dims_ok (mlp l) H0
  /\ shape (rms_weight (input_layernorm l)) = [H0]
  /\ shape (rms_weight (post_attention_layernorm l)) = [H0]
  /\ 0 < num_kv_heads (self_attn l)
  /\ 0 < N.

(** A decoder stack over [V] tokens. *)
Definition model_dims_ok (m : QwenModel F) (V H0 M N : nat) : Prop :=
  shape (embed_tokens m) = [V; H0]
  /\ dtype_of (embed_tokens m) = Float32
  /\ Forall (fun l => layer_dims_ok l H0 M N) (layers m)
  /\ shape (rms_weight (norm m)) = [H0].

(** Position ids for [S] tokens that rotary tables of [M] rows can serve:
    one id per token, each in [-M, M); or no ids and at most [M] tokens. *)
Definition positions_served (position_ids : option (tensor Z)) (S M : nat) : Prop :=
  match position_ids with
  | Some ids =>
      (shape ids = [S] \/ shape ids = [1; S]) /\ length (data ids) = S
      /\ Forall (fun p => (- Z.of_nat M <= p < Z.of_nat M)%Z) (data ids)
  | None => S <= M
  end.

(** A sixteen-way head over [V] tokens for hidden size [H0]. *)
Definition head16_dims_ok (self : QwenForCausalLM F) (V H0 : nat) : Prop :=
  exists l,
    heads self = Heads16 l
    /\ map (@out_channels F) l = partition_sizes 16 V
    /\ Forall (fun c => in_channels c = H0) l.

(** The current position of a call: unused in prefill, absent, or one index
    of the sequence. *)
Definition current_pos_ok (cp : pos_arg) (pf : bool) (S : nat) : Prop :=
  pf = true \/ cp = PosNone
  \/ exists p, pos_index cp = Some p /\ (0 <= p < Z.of_nat S)%Z.

(** Sequence positions that reach the vocabulary head. *)
Definition logits_rows (cp : pos_arg) (pf : bool) (S : nat) : nat :=
  if pf then S else match cp with PosNone => S | _ => 1 end.

End BlockFormulas.

(** [torch.arange(n)] *)
Definition arange (n : nat) : tensor Z :=
  mkTensor [n] Int64 (map Z.of_nat (seq 0 n)).

(* ------------------------------------------------------------------------- *)
(** ** Reference points for the loader and the other head layouts *)
(* ------------------------------------------------------------------------- *)

Section LoaderFormulas.
Context {F : Type} `{Scalar F}.

(** The tensor a checkpoint directory provides under a key: the one in the
    last [.safetensors] file of the listing that has the key. *)
Fixpoint last_provider (k : string) (dir : directory F) : option (tensor F) :=
  match dir with
  | [] => None
  | file :: rest =>
      match last_provider k rest with
      | Some v => Some v
      | None =>
          if endswith ".safetensors" (fst file) then dict_get k (snd file)
          else None
      end
  end.

End LoaderFormulas.

(** Builds of the module with [ENABLE_VACAB_SPLIT16] switched off: the
    eight-way arm, and the two-way arm ([ENABLE_VACAB_SPLIT8] off as well). *)
Definition eight_way_flags : flags :=
  {| ENABLE_CONV2D := true;
     ENABLE_VACAB_SPLIT := py_bool 1;
     ENABLE_VACAB_SPLIT8 := true;
     ENABLE_VACAB_SPLIT16 := false;
     ENABLE_LOGITS2 := py_bool 1;
     ENABLE_COREML := py_bool 0 |}.

Definition two_way_flags : flags :=
  {| ENABLE_CONV2D := true;
     ENABLE_VACAB_SPLIT := true;
     ENABLE_VACAB_SPLIT8 := false;
     ENABLE_VACAB_SPLIT16 := false;
     ENABLE_LOGITS2 := py_bool 1;
     ENABLE_COREML := py_bool 0 |}.

(* ------------------------------------------------------------------------- *)
(** ** Construction, with the divisions it performs *)
(* ------------------------------------------------------------------------- *)

(** The constructors compute two quotients with Python's own operators,
    which raise on a zero divisor; nothing else in them can fail. *)
Inductive construction (A : Type) : Type :=
| Constructed (a : A)
| ZeroDivisionError.

Arguments Constructed {A} a.
Arguments ZeroDivisionError {A}.

Definition and_then {A B : Type} (c : construction A) (k : A -> construction B)
  : construction B :=
  match c with
  | Constructed a => k a
  | ZeroDivisionError => ZeroDivisionError
  end.

(** [a // b] on non-negative ints *)
Definition int_floordiv (a b : nat) : construction nat :=
  if b =? 0 then ZeroDivisionError else Constructed (a / b).

(** [[make(i) for i in range(n)]] *)
Fixpoint construct_each {A : Type} (make : nat -> construction A) (i n : nat)
  : construction (list A) :=
  match n with
  | 0 => Constructed []
  | S n' =>
      and_then (make i) (fun a =>
      and_then (construct_each make (S i) n') (fun rest =>
      Constructed (a :: rest)))
  end.

Section Construction.
Context {F : Type} `{Scalar F}.

(** [1 / math.sqrt(d)]: [math.sqrt(0)] is [0.0], and Python raises on a
    float division by zero. *)
Definition inv_sqrt (d : nat) : construction F :=
  if d =? 0 then ZeroDivisionError
  else Constructed (fdiv fone (fsqrt (of_nat d))).

(** [getattr(config, "head_dim", config.hidden_size // config.num_attention_heads)]:
    the default is an argument, so it is evaluated before [getattr] looks
    the attribute up; a [QwenConfig] always has the attribute. *)
Definition getattr_head_dim (config : QwenConfig F) : construction nat :=
  and_then (int_floordiv (hidden_size config) (num_attention_heads config))
    (fun _default => Constructed (head_dim config)).

(** [QwenRotaryEmbedding(config)] *)
Definition QwenRotaryEmbedding_new (config : QwenConfig F)
  : construction (QwenRotaryEmbedding F) :=
  and_then (getattr_head_dim config) (fun _dim =>
  Constructed (QwenRotaryEmbedding_init config)).

(** [QwenAttention(config)] *)
Definition QwenAttention_new (init : list nat -> F) (config : QwenConfig F)
  : construction (QwenAttention F) :=
  let hs := hidden_size config in
  let nh := num_attention_heads config in
  let nkv := num_key_value_heads config in
  and_then (getattr_head_dim config) (fun hd =>
  and_then (QwenRotaryEmbedding_new config) (fun rotary_emb =>
  let q_proj := Conv2d_init init hs (nh * hd) in
  let k_proj := Conv2d_init init hs (nkv * hd) in
  let v_proj := Conv2d_init init hs (nkv * hd) in
  let o_proj := Conv2d_init init (nh * hd) hs in
  let q_norm := QwenHeadNorm_init hd (rms_norm_eps config) in
  let k_norm := QwenHeadNorm_init hd (rms_norm_eps config) in
  and_then (inv_sqrt hd) (fun scale =>
  Constructed (mkAttention hs nh nkv hd rotary_emb q_proj k_proj v_proj o_proj
                           q_norm k_norm scale)))).

(** [QwenDecoderLayer(config)] *)
Definition QwenDecoderLayer_new (init : list nat -> F) (config : QwenConfig F)
  : construction (QwenDecoderLayer F) :=
  and_then (QwenAttention_new init config) (fun self_attn =>
  Constructed
    (mkLayer self_attn
       (QwenMLP_init init config)
       (QwenRMSNorm_init (hidden_size config) (rms_norm_eps config))
       (QwenRMSNorm_init (hidden_size config) (rms_norm_eps config)))).

(** [QwenModel(config)] *)
Definition QwenModel_new (init : list nat -> F) (config : QwenConfig F)
  : construction (QwenModel F) :=
  let embed_tokens := tabulate Float32 [vocab_size config; hidden_size config] init in
  and_then
    (construct_each (fun _ => QwenDecoderLayer_new init config) 0
       (num_hidden_layers config))
    (fun layers =>
  Constructed
    (mkModel config embed_tokens layers
       (QwenRMSNorm_init (hidden_size config) (rms_norm_eps config)))).

(** [QwenForCausalLM(config, enable_coreml)] under given switches. *)
Definition QwenForCausalLM_new (fl : flags) (init : list nat -> F)
    (config : QwenConfig F) (enable_coreml : bool)
  : construction (QwenForCausalLM F) :=
  and_then (QwenModel_new init config) (fun model =>
  let heads :=
    if ENABLE_CONV2D fl then
      if ENABLE_VACAB_SPLIT16 fl then make_heads16 init config
      else if ENABLE_VACAB_SPLIT8 fl then make_heads8 init config
      else if ENABLE_VACAB_SPLIT fl then make_heads2 init config
      else make_head1 init config
    else make_head_linear init config in
  Constructed (mkCausalLM config enable_coreml model heads)).

End Construction.

(* ------------------------------------------------------------------------- *)
(** ** An integer instance of the arithmetic, to run the definitions *)
(* ------------------------------------------------------------------------- *)

(** Exact integer arithmetic with stand-ins for the transcendental
    functions.  It is used to evaluate the model on small tensors; nothing
    proved for every [Scalar] depends on it. *)
#[export] Instance ZScalar : Scalar Z := {|
  fzero := 0%Z;
  fone := 1%Z;
  fadd := Z.add;
  fsub := Z.sub;
  fmul := Z.mul;
  fdiv := Z.div;
  fneg := Z.opp;
  fsqrt := Z.sqrt;
  frsqrt := fun x => x;
  fpow := Z.pow;
  fcos := fun x => (x + 1000)%Z;
  fsin := fun x => (x + 2000)%Z;
  fsilu := fun x => x;
  of_nat := Z.of_nat;
  softmax1 := fun l => l;
  cast := fun _ x => x
|}.

(** A tensor whose entries spell their own index in decimal digits. *)
Definition digits_tensor (dt : dtype) (s : list nat) : tensor Z :=
  tabulate dt s (fun idx => fold_left (fun a i => (10 * a + Z.of_nat i)%Z) idx 0%Z).

(** A two-head, one-kv-head, one-layer model over 17 tokens. *)
Definition tiny_config : QwenConfig Z :=
  {| hidden_size := 4;
     intermediate_size := 2;
     max_position_embeddings := 4;
     num_attention_heads := 2;
     num_hidden_layers := 1;
     num_key_value_heads := 1;
     head_dim := 2;
     rms_norm_eps := 1%Z;
     rope_theta := 10%Z;
     vocab_size := 17 |}.

(** Initial weights: the product of the successors of the index. *)
Definition tiny_init (idx : list nat) : Z :=
  fold_left (fun a i => (a * (Z.of_nat i + 1))%Z) idx 1%Z.

Definition tiny_model : QwenForCausalLM Z :=
  QwenForCausalLM_init tiny_init tiny_config false.


(** The same model over a vocabulary of five tokens: eleven of its sixteen
    shards are built without a row. *)
Definition small_config : QwenConfig Z :=
  {| hidden_size := 4;
     intermediate_size := 2;
     max_position_embeddings := 4;
     num_attention_heads := 2;
     num_hidden_layers := 1;
     num_key_value_heads := 1;
     head_dim := 2;
     rms_norm_eps := 1%Z;
     rope_theta := 10%Z;
     vocab_size := 5 |}.

Definition small_model : QwenForCausalLM Z :=
  QwenForCausalLM_init tiny_init small_config false.

(** Three tokens at positions 0, 1, 2 under a causal mask. *)
Definition tiny_ids : tensor Z := mkTensor [1; 3] Int64 [1; 2; 3]%Z.
Definition tiny_pos : tensor Z := mkTensor [3] Int64 [0; 1; 2]%Z.

Definition tiny_mask : tensor Z :=
  tabulate Float16 [1; 1; 3; 3]
    (fun idx => if nth 3 idx 0 <=? nth 2 idx 0 then 0%Z else (-1000)%Z).

Definition tiny_hidden : tensor Z := digits_tensor Float16 [1; 3; 4].

(** What the decoder stack returns for them in normal mode. *)
Definition stack_output (r : result (tensor Z)) : tensor Z :=
  match r with
  | Ok t => t
  | Raise _ => mkTensor [] Float16 []
  end.

Definition tiny_stack_out : tensor Z := Eval vm_compute in
  stack_output (QwenModel_forward (model tiny_model) tiny_ids (Some tiny_mask)
                  (Some tiny_pos) (PosInt 1) false).

(** Its row at the current position 1. *)
Definition tiny_stack_row : tensor Z := Eval vm_compute in
  stack_output (extract_position tiny_stack_out (PosInt 1) false).

(** A head matrix and checkpoints. *)
Definition tiny_head_weight : tensor Z := digits_tensor Float32 [17; 4].

(** The stack's own tensors under checkpoint names: prefixed, projection
    weights as matrices. *)
Definition checkpoint_of (m : QwenModel Z) : state_dict Z :=
  map (fun kv =>
         (String.append "model." (fst kv),
          if existsb (fun proj => contains proj (fst kv)) projection_names
          then view (firstn 2 (shape (snd kv))) (snd kv)
          else snd kv))
      (QwenModel_state_dict m).

Definition tiny_checkpoint : state_dict Z :=
  checkpoint_of (model tiny_model) ++ [("lm_head.weight"%string, tiny_head_weight)].

Definition tiny_fs : filesystem Z :=
  fun path =>
    if String.eqb path "ckpt"
    then Some [("config.json"%string, []); ("model.safetensors"%string, tiny_checkpoint)]
    else None.

(** A directory whose only tensor is a vector filed under a projection name. *)
Definition vector_fs : filesystem Z :=
  fun path =>
    if String.eqb path "ckpt"
    then Some [("model.safetensors"%string,
                [("q_proj.weight"%string, digits_tensor Float32 [3])])]
    else None.


(* ------------------------------------------------------------------------- *)
(** ** More fixtures on the tiny model *)
(* ------------------------------------------------------------------------- *)

Definition tiny_mlp : QwenMLP Z := QwenMLP_init tiny_init tiny_config.

Definition tiny_layer : QwenDecoderLayer Z := QwenDecoderLayer_init tiny_init tiny_config.

Definition tiny_rotary : QwenRotaryEmbedding Z := QwenRotaryEmbedding_init tiny_config.

(** Hidden states that agree with [tiny_hidden] on token 0 only. *)
Definition tiny_hidden_other : tensor Z :=
  tabulate Float16 [1; 3; 4]
    (fun idx => if nth 1 idx 0 =? 0 then Z.of_nat (nth 2 idx 0) else 7%Z).

(** Queries [1, 2, 3, 2] and rotary tables [1, 3, 2]. *)
Definition tiny_queries : tensor Z := digits_tensor Float16 [1; 2; 3; 2].
Definition tiny_cos : tensor Z := digits_tensor Float16 [1; 3; 2].
Definition tiny_sin : tensor Z := tabulate Float16 [1; 3; 2] (fun _ => 1%Z).

(** Token 17 is one past the vocabulary; position 4 one past the tables. *)
Definition outside_ids : tensor Z := mkTensor [1; 3] Int64 [1; 17; 3]%Z.

(** The tiny model with [enable_coreml=True]. *)
Definition tiny_model_coreml : QwenForCausalLM Z :=
  mkCausalLM (config tiny_model) true (model tiny_model) (heads tiny_model).

(** A directory of two weight files and a text file that name one key
    thrice. *)
Definition two_file_dir : directory Z :=
  [ ("a.safetensors"%string,
      [("w"%string, digits_tensor Float32 [2]); ("v"%string, digits_tensor Float32 [3])]);
    ("b.safetensors"%string, [("w"%string, digits_tensor Float32 [4])]);
    ("notes.txt"%string, [("w"%string, digits_tensor Float32 [5])]) ].

(** Checkpoint items: a norm weight, the head weight, a projection matrix. *)
Definition small_items : state_dict Z :=
  [ ("model.norm.weight"%string, digits_tensor Float32 [4]);
    ("lm_head.weight"%string, digits_tensor Float32 [17; 4]);
    ("model.layers.0.mlp.up_proj.weight"%string, digits_tensor Float32 [2; 4]) ].

Definition small_converted : state_dict Z :=
  [ ("norm.weight"%string, digits_tensor Float32 [4]);
    ("layers.0.mlp.up_proj.weight"%string,
      view [2; 4; 1; 1] (digits_tensor Float32 [2; 4])) ].

(** The tiny model after loading the tiny checkpoint. *)
Definition load_result (r : io (bool * QwenForCausalLM Z)) : QwenForCausalLM Z :=
  match snd r with
  | Ok (_, m) => m
  | Raise _ => tiny_model
  end.

Definition tiny_loaded : QwenForCausalLM Z := Eval vm_compute in
  load_result (QwenForCausalLM_load_pretrained_weights tiny_model tiny_fs "ckpt").

Definition tiny_load_output : list printed := Eval vm_compute in
  fst (QwenForCausalLM_load_pretrained_weights tiny_model tiny_fs "ckpt").

(* ------------------------------------------------------------------------- *)
(** ** Row-major indexing: offsets and multi-indices correspond *)
(* ------------------------------------------------------------------------- *)

Lemma in_boundsb_spec s idx : in_boundsb s idx = true <-> in_bounds s idx.
Proof.
  revert idx; induction s as [|n s IH]; intros [|i idx]; simpl; split; intros H;
    try discriminate; try constructor; try (inversion H; fail).
  - apply andb_prop in H as [H1 H2]. apply Nat.ltb_lt in H1. exact H1.
  - apply andb_prop in H as [H1 H2]. apply IH. exact H2.
  - inversion H; subst. apply andb_true_intro; split.
    + now apply Nat.ltb_lt.
    + now apply IH.
Qed.

Lemma in_bounds_length s idx : in_bounds s idx -> length idx = length s.
Proof. induction 1; simpl; congruence. Qed.

Lemma ravel_lt s idx : in_bounds s idx -> ravel s idx < numel s.
Proof.
  unfold in_bounds. intros H. induction H as [|i n idx s Hi _ IH]; simpl.
  - lia.
  - nia.
Qed.

Lemma unravel_ravel s idx : in_bounds s idx -> unravel s (ravel s idx) = idx.
Proof.
  unfold in_bounds. intros H. induction H as [|i n idx s Hi Hrest IH]; simpl.
  - reflexivity.
  - pose proof (ravel_lt Hrest) as Hlt.
    assert (Hm : numel s <> 0) by lia.
    rewrite Nat.div_add_l by exact Hm.
    rewrite (Nat.div_small _ _ Hlt), Nat.add_0_r.
    rewrite Nat.add_comm, Nat.Div0.mod_add, (Nat.mod_small _ _ Hlt).
    now rewrite IH.
Qed.

Lemma unravel_in_bounds s k : k < numel s -> in_bounds s (unravel s k).
Proof.
  unfold in_bounds. revert k. induction s as [|n s IH]; simpl; intros k Hk.
  - constructor.
  - assert (Hm : numel s <> 0) by (intros E; rewrite E in Hk; lia).
    constructor.
    + apply Nat.Div0.div_lt_upper_bound. lia.
    + apply IH. now apply Nat.mod_upper_bound.
Qed.

Lemma ravel_unravel s k : k < numel s -> ravel s (unravel s k) = k.
Proof.
  revert k. induction s as [|n s IH]; simpl; intros k Hk.
  - lia.
  - assert (Hm : numel s <> 0) by (intros E; rewrite E in Hk; lia).
    rewrite IH by now apply Nat.mod_upper_bound.
    pose proof (Nat.div_mod k (numel s) Hm). lia.
Qed.

Lemma numel_app s1 s2 : numel (s1 ++ s2) = numel s1 * numel s2.
Proof. induction s1 as [|n s1 IH]; simpl; [lia | rewrite IH; lia]. Qed.

Section TensorCoreFacts.
Context {A : Type}.
Variable pad : A.

Lemma tabulate_wf dt s (f : list nat -> A) : wf (tabulate dt s f).
Proof. unfold wf, tabulate; simpl. now rewrite length_map, length_seq. Qed.

Lemma tget_tabulate dt s (f : list nat -> A) idx :
  in_bounds s idx -> tget pad (tabulate dt s f) idx = f idx.
Proof.
  intros Hb. unfold tget, tabulate; simpl.
  pose proof (ravel_lt Hb) as Hlt.
  rewrite (nth_indep _ pad (f (unravel s 0)))
    by (now rewrite length_map, length_seq).
  change (f (unravel s 0)) with ((fun k => f (unravel s k)) 0).
  rewrite map_nth, seq_nth by exact Hlt. simpl.
  now rewrite unravel_ravel.
Qed.

Lemma tabulate_ext dt s (f g : list nat -> A) :
  (forall idx, in_bounds s idx -> f idx = g idx) ->
  tabulate dt s f = tabulate dt s g.
Proof.
  intros H. unfold tabulate. f_equal. apply map_ext_in.
  intros k Hk. apply in_seq in Hk. apply H. apply unravel_in_bounds. lia.
Qed.

(** Two contiguous tensors of one shape and dtype that agree at every
    index are the same tensor. *)
Lemma tensor_ext (a b : tensor A) :
  wf a -> wf b -> shape a = shape b -> dtype_of a = dtype_of b ->
  (forall idx, in_bounds (shape a) idx -> tget pad a idx = tget pad b idx) ->
  a = b.
Proof.
  destruct a as [sa da xa], b as [sb db xb]. unfold wf, tget; simpl.
  intros Ha Hb -> -> H. f_equal.
  apply (nth_ext _ _ pad pad); [congruence|].
  intros k Hk. rewrite Ha in Hk.
  specialize (H (unravel sb k) (unravel_in_bounds _ Hk)).
  now rewrite (ravel_unravel _ Hk) in H.
Qed.

End TensorCoreFacts.

(* ------------------------------------------------------------------------- *)
(** ** Reading tensors through the shape operators *)
(* ------------------------------------------------------------------------- *)

Section AccessLemmas.
Context {A : Type}.
Variable pad : A.

Lemma tget_view (s : list nat) (t : tensor A) idx' idx :
  ravel s idx' = ravel (shape t) idx ->
  tget pad (view s t) idx' = tget pad t idx.
Proof. intros E. unfold tget, view; simpl. now rewrite E. Qed.

Lemma in_bounds_cons n s i idx :
  i < n -> in_bounds s idx -> in_bounds (n :: s) (i :: idx).
Proof. intros; now constructor. Qed.

Lemma in_bounds_nil : in_bounds [] [].
Proof. constructor. Qed.

End AccessLemmas.

Ltac bounds := repeat (apply in_bounds_cons; [lia|]); try apply in_bounds_nil.

(* ------------------------------------------------------------------------- *)
(** ** Grouped-query expansion *)
(* ------------------------------------------------------------------------- *)

Section RepeatKv.
Context {F : Type} `{Scalar F}.

Lemma repeat_kv_one (hs : tensor F) : repeat_kv hs 1 = hs.
Proof. reflexivity. Qed.

Lemma repeat_kv_shape (hs : tensor F) B Nkv S D n_rep :
  shape hs = [B; Nkv; S; D] ->
  shape (repeat_kv hs n_rep) = [B; Nkv * n_rep; S; D].
Proof.
  intros Hs. unfold repeat_kv. destruct (Nat.eqb_spec n_rep 1) as [->|Hn].
  - now rewrite Hs, Nat.mul_1_r.
  - simpl. now rewrite Hs.
Qed.

Lemma repeat_kv_get (hs : tensor F) B Nkv S D n_rep b i r s d :
  shape hs = [B; Nkv; S; D] ->
  b < B -> i < Nkv -> r < n_rep -> s < S -> d < D ->
  tget fzero (repeat_kv hs n_rep) [b; i * n_rep + r; s; d]
  = tget fzero hs [b; i; s; d].
Proof.
  intros Hs Hb Hi Hr Hsq Hd. unfold repeat_kv.
  destruct (Nat.eqb_spec n_rep 1) as [->|Hn].
  - replace (i * 1 + r) with i by lia. reflexivity.
  - rewrite Hs. cbn [nth].
    rewrite (tget_view fzero _ _ _ [b; i; r; s; d]).
    + unfold repeat_t. rewrite tget_tabulate.
      * unfold unsqueeze. rewrite Hs.
        cbn [firstn skipn app combine map fst snd view shape].
        rewrite Nat.mod_1_r, !Nat.mod_small by lia.
        apply tget_view. rewrite Hs. cbn [ravel numel]. lia.
      * unfold unsqueeze. rewrite Hs.
        cbn [firstn skipn app combine map fst snd view shape].
        bounds.
    + unfold repeat_t, unsqueeze. rewrite Hs.
      cbn [firstn skipn app combine map fst snd view shape tabulate ravel numel].
      nia.
Qed.

Lemma repeat_kv_wf (hs : tensor F) B Nkv S D n_rep :
  shape hs = [B; Nkv; S; D] -> wf hs -> wf (repeat_kv hs n_rep).
Proof.
  intros Hs Hwf. unfold repeat_kv. destruct (Nat.eqb_spec n_rep 1) as [->|Hn].
  - exact Hwf.
  - unfold wf, repeat_t, unsqueeze. rewrite Hs.
    cbn [firstn skipn app combine map fst snd view shape tabulate data nth numel].
    rewrite length_map, length_seq. lia.
Qed.

(** C4.  Grouped-query expansion of a [B, Nkv, S, D] tensor by [n_rep]
    gives a [B, Nkv*n_rep, S, D] tensor in which every query head [j] with
    [i*n_rep <= j < (i+1)*n_rep] carries the data of kv-head [i]
    (contiguous replication); with [n_rep = 1] the input itself is
    returned. *)
Theorem repeat_kv_contiguous (hs : tensor F) (B Nkv S D n_rep : nat) :
  shape hs = [B; Nkv; S; D] ->
  wf hs ->
  shape (repeat_kv hs n_rep) = [B; Nkv * n_rep; S; D]
  /\ wf (repeat_kv hs n_rep)
  /\ (forall b i j s d,
        b < B -> i < Nkv -> s < S -> d < D ->
        i * n_rep <= j < (i + 1) * n_rep ->
        tget fzero (repeat_kv hs n_rep) [b; j; s; d] = tget fzero hs [b; i; s; d])
  /\ (n_rep = 1 -> repeat_kv hs n_rep = hs).
Proof.
  intros Hs Hwf. repeat split.
  - now apply repeat_kv_shape.
  - now apply repeat_kv_wf with B Nkv S D.
  - intros b i j s d Hb Hi Hsq Hd Hj.
    replace j with (i * n_rep + (j - i * n_rep)) by lia.
    apply repeat_kv_get with B Nkv S D; auto; lia.
  - intros ->. apply repeat_kv_one.
Qed.

End RepeatKv.

(** Two kv-heads, three copies each: heads 0-2 repeat kv-head 0 and heads
    3-5 repeat kv-head 1. *)
Example repeat_kv_run :
  repeat_kv (digits_tensor Float16 [1; 2; 1; 2]) 3
  = mkTensor [1; 6; 1; 2] Float16
      [0; 1; 0; 1; 0; 1; 100; 101; 100; 101; 100; 101]%Z.
Proof. vm_compute. reflexivity. Qed.

Lemma repeat_kv_contiguous_witness :
  tget 0%Z (repeat_kv (digits_tensor Float16 [1; 2; 1; 2]) 3) [0; 4; 0; 1]
  = tget 0%Z (digits_tensor Float16 [1; 2; 1; 2]) [0; 1; 0; 1].
Proof.
  refine (proj1 (proj2 (proj2
    (@repeat_kv_contiguous Z ZScalar (digits_tensor Float16 [1; 2; 1; 2])
       1 2 1 2 3 eq_refl eq_refl))) 0 1 4 0 1 _ _ _ _ _); lia.
Defined.

(* ------------------------------------------------------------------------- *)
(** ** Decode-mode position extraction *)
(* ------------------------------------------------------------------------- *)

Lemma strict_index_in_range n p :
  (0 <= p < Z.of_nat n)%Z -> strict_index n p = Ok (Z.to_nat p).
Proof.
  intros [H0 H1]. unfold strict_index.
  destruct (Z.leb_spec 0 p); [|lia]. destruct (Z.ltb_spec p (Z.of_nat n)); [|lia].
  reflexivity.
Qed.

Lemma select_index_in_range n p :
  (0 <= p < Z.of_nat n)%Z -> select_index n p = Ok (Z.to_nat p).
Proof.
  intros [H0 H1]. unfold select_index.
  destruct (Z.leb_spec 0 p); [|lia]. destruct (Z.ltb_spec p (Z.of_nat n)); [|lia].
  reflexivity.
Qed.

Section Extraction.
Context {F : Type} `{Scalar F}.

Lemma index_select_one (hs : tensor F) (ix : tensor Z) B S H0 p :
  shape hs = [B; S; H0] ->
  ndim ix <= 1 -> data ix = [p] ->
  (0 <= p < Z.of_nat S)%Z ->
  index_select fzero 1 hs ix
  = Ok (slice fzero 1 (Z.to_nat p) (Z.to_nat p + 1) hs).
Proof.
  intros Hs Hnd Hdata Hp. unfold index_select.
  destruct (Nat.ltb_spec 1 (ndim ix)) as [Hlt|_]; [lia|].
  rewrite Hdata, Hs. cbn [nth mapM].
  rewrite (select_index_in_range _ Hp). cbn [bind length].
  f_equal. unfold slice, narrow. rewrite Hs. cbn [nth].
  assert (Hn : Z.to_nat p < S) by lia.
  rewrite (Nat.min_l (Z.to_nat p) S), (Nat.min_l (Z.to_nat p + 1) S) by lia.
  replace (Z.to_nat p + 1 - Z.to_nat p) with 1 by lia.
  apply tabulate_ext. intros idx Hb.
  unfold in_bounds, set_nth in Hb. cbn [firstn skipn app] in Hb.
  inversion Hb as [|b ? idx1 ? Hb0 Hb1]; subst.
  inversion Hb1 as [|j ? idx2 ? Hj Hb2]; subst.
  assert (j = 0) by lia. subst j. cbn [nth]. now rewrite Nat.add_0_r.
Qed.

Lemma slice_one_shape (hs : tensor F) B S H0 p :
  shape hs = [B; S; H0] -> p < S ->
  shape (slice fzero 1 p (p + 1) hs) = [B; 1; H0].
Proof.
  intros Hs Hp. unfold slice, narrow. rewrite Hs. cbn [nth tabulate shape].
  rewrite (Nat.min_l p S), (Nat.min_l (p + 1) S) by lia.
  replace (p + 1 - p) with 1 by lia. reflexivity.
Qed.

(** The row the slice holds is row [p] of the stack output. *)
Lemma slice_one_get (hs : tensor F) B S H0 p b h :
  shape hs = [B; S; H0] -> p < S -> b < B -> h < H0 ->
  tget fzero (slice fzero 1 p (p + 1) hs) [b; 0; h] = tget fzero hs [b; p; h].
Proof.
  intros Hs Hp Hb Hh. unfold slice, narrow. rewrite Hs. cbn [nth].
  rewrite (Nat.min_l p S), (Nat.min_l (p + 1) S) by lia.
  replace (p + 1 - p) with 1 by lia.
  rewrite tget_tabulate by (unfold set_nth; cbn [firstn skipn app]; bounds).
  unfold set_nth. cbn [firstn skipn app nth]. now rewrite Nat.add_0_r.
Qed.

Lemma extract_position_one (hs : tensor F) cp p B S H0 :
  pos_index cp = Some p ->
  shape hs = [B; S; H0] ->
  (0 <= p < Z.of_nat S)%Z ->
  extract_position hs cp false
  = Ok (slice fzero 1 (Z.to_nat p) (Z.to_nat p + 1) hs).
Proof.
  intros Hcp Hs Hp. destruct cp as [|q|t]; simpl in Hcp; try discriminate.
  - injection Hcp as ->. cbn [extract_position negb].
    apply index_select_one with B S H0; auto.
  - cbn [extract_position negb].
    destruct t as [st dt xs]. simpl in Hcp.
    destruct st as [|[|[|n]] [|? ?]]; try discriminate;
      destruct xs as [|x [|? ?]]; try discriminate;
      injection Hcp as ->; cbn [ndim shape length Nat.ltb Nat.leb];
      apply index_select_one with B S H0; auto.
Qed.

Lemma extract_position_by_index_select (hs : tensor F) cp p :
  pos_index cp = Some p ->
  exists ix,
    ndim ix = 1 /\ data ix = [p]
    /\ extract_position hs cp false = index_select fzero 1 hs ix.
Proof.
  intros Hcp. destruct cp as [|q|t]; simpl in Hcp; try discriminate.
  - injection Hcp as ->. exists (mkTensor [1] Int64 [p]).
    split; [reflexivity | split; reflexivity].
  - destruct t as [st dt xs]. simpl in Hcp.
    destruct st as [|[|[|n]] [|? ?]]; try discriminate;
      destruct xs as [|x [|? ?]]; try discriminate;
      injection Hcp as ->.
    + exists (unsqueeze 0 (mkTensor [] dt [p])).
      split; [reflexivity | split; reflexivity].
    + exists (mkTensor [1] dt [p]).
      split; [reflexivity | split; reflexivity].
Qed.

(** C3.  In a non-prefill [forward] call whose current position denotes an
    index [p] inside the sequence, the head takes the stack output
    [B, S, H] through [torch.index_select] on the sequence axis with the
    index built from [current_pos]; the selected tensor is
    [hidden_states[:, p:p+1, :]] exactly, of shape [B, 1, H], and it is what
    the vocabulary head projects. *)
Theorem decode_selects_current_row
    (fl : flags) (self : QwenForCausalLM F) (input_ids : tensor Z)
    (update_mask : option (tensor F)) (position_ids : tensor Z)
    (causal_mask : option (tensor F)) (cp : pos_arg)
    (p : Z) (hs : tensor F) (B S H0 : nat) :
  pos_index cp = Some p ->
  forward_checks input_ids position_ids false = Ok tt ->
  QwenModel_forward (model self) input_ids causal_mask (Some position_ids)
                    cp false = Ok hs ->
  shape hs = [B; S; H0] ->
  (0 <= p < Z.of_nat S)%Z ->
  let row := slice fzero 1 (Z.to_nat p) (Z.to_nat p + 1) hs in
  extract_position hs cp false = Ok row
  /\ (exists ix,
        ndim ix = 1 /\ data ix = [p]
        /\ extract_position hs cp false = index_select fzero 1 hs ix)
  /\ shape row = [B; 1; H0]
  /\ (forall b h, b < B -> h < H0 ->
        tget fzero row [b; 0; h] = tget fzero hs [b; Z.to_nat p; h])
  /\ QwenForCausalLM_forward_under fl self input_ids update_mask position_ids
       causal_mask cp false
     = project_under fl self row.
Proof.
  intros Hcp Hchk Hstack Hs Hp row.
  assert (Hex : extract_position hs cp false = Ok row)
    by (apply extract_position_one with B S H0; auto).
  split; [exact Hex|].
  split; [now apply extract_position_by_index_select|].
  split; [|split].
  - apply slice_one_shape with S; auto; lia.
  - intros b h Hb Hh. apply slice_one_get with B S H0; auto; lia.
  - unfold QwenForCausalLM_forward_under.
    rewrite Hchk, Hstack. cbn [bind]. rewrite Hex. reflexivity.
Qed.

End Extraction.

(* ------------------------------------------------------------------------- *)
(** ** Argument checks of [forward] *)
(* ------------------------------------------------------------------------- *)

Lemma forward_checks_valid input_ids position_ids pf :
  inputs_valid input_ids position_ids pf = true ->
  forward_checks input_ids position_ids pf = Ok tt.
Proof.
  unfold inputs_valid, forward_checks, ndim. intros Hv.
  apply andb_prop in Hv as [H2 Hrest]. rewrite H2. cbn [py_assert bind].
  destruct pf; cbn [negb].
  - unfold shape_last.
    destruct (shape position_ids) as [|x xs] eqn:Ep; [discriminate|].
    cbn [bind].
    destruct (shape input_ids) as [|y ys] eqn:Ei; [discriminate|].
    cbn [bind]. rewrite Hrest. reflexivity.
  - rewrite Hrest. reflexivity.
Qed.

Lemma forward_checks_invalid input_ids position_ids pf :
  inputs_valid input_ids position_ids pf = false ->
  exists e, forward_checks input_ids position_ids pf = Raise e.
Proof.
  unfold inputs_valid, forward_checks, ndim. intros Hv.
  destruct (length (shape input_ids) =? 2) eqn:H2; cbn [py_assert bind].
  - cbn [andb] in Hv. destruct pf; cbn [negb].
    + unfold shape_last.
      destruct (shape position_ids) as [|x xs] eqn:Ep; cbn [bind]; [eauto|].
      destruct (shape input_ids) as [|y ys] eqn:Ei; [discriminate|].
      cbn [bind]. rewrite Hv. cbn [py_assert]. eauto.
    + rewrite Hv. cbn [py_assert]. eauto.
  - eauto.
Qed.

Section Checks.
Context {F : Type} `{Scalar F}.

(** C7.  [forward] raises before anything else runs whenever the token ids
    are not rank 2, whenever, outside prefill, the position ids are neither
    rank 1 nor rank 2, and whenever, in prefill, the position-id length
    differs from the token sequence length; on every other input the checks
    pass. *)
Theorem forward_contract_checks
    (fl : flags) (self : QwenForCausalLM F) (input_ids : tensor Z)
    (update_mask : option (tensor F)) (position_ids : tensor Z)
    (causal_mask : option (tensor F)) (cp : pos_arg) (pf : bool) :
  if inputs_valid input_ids position_ids pf
  then forward_checks input_ids position_ids pf = Ok tt
  else exists e,
      forward_checks input_ids position_ids pf = Raise e
      /\ QwenForCausalLM_forward_under fl self input_ids update_mask
           position_ids causal_mask cp pf = Raise e.
Proof.
  destruct (inputs_valid input_ids position_ids pf) eqn:Hv.
  - now apply forward_checks_valid.
  - destruct (forward_checks_invalid _ _ _ Hv) as [e He].
    exists e. split; [exact He|].
    unfold QwenForCausalLM_forward_under. now rewrite He.
Qed.

End Checks.

(* ------------------------------------------------------------------------- *)
(** ** Broadcasting against a kept last axis *)
(* ------------------------------------------------------------------------- *)

Lemma bshape_rev_same r : bshape_rev r r = r.
Proof.
  induction r as [|x r IH]; simpl; [reflexivity|].
  rewrite IH. now destruct (x =? 1).
Qed.

Lemma bshape_keepdim s :
  s <> [] -> bshape s (removelast s ++ [1]) = s.
Proof.
  intros Hs. destruct (exists_last Hs) as [s' [d ->]].
  unfold bshape. rewrite removelast_last, !rev_app_distr. simpl.
  rewrite bshape_rev_same.
  destruct (Nat.eqb_spec d 1) as [->|_]; simpl; now rewrite rev_involutive.
Qed.

Lemma bcast_pairs_same s idx :
  in_bounds s idx ->
  map (fun p => if fst p =? 1 then 0 else snd p) (combine s idx) = idx.
Proof.
  unfold in_bounds. induction 1 as [|i n idx s Hi _ IH]; simpl; [reflexivity|].
  rewrite IH. destruct (Nat.eqb_spec n 1); [f_equal; lia | reflexivity].
Qed.

Lemma bcast_index_same s idx : in_bounds s idx -> bcast_index s idx = idx.
Proof.
  intros Hb. unfold bcast_index.
  rewrite (in_bounds_length Hb), Nat.sub_diag. simpl.
  now apply bcast_pairs_same.
Qed.

Lemma bcast_pairs_keepdim s idx j :
  in_bounds s idx ->
  map (fun p => if fst p =? 1 then 0 else snd p)
      (combine (s ++ [1]) (idx ++ [j])) = idx ++ [0].
Proof.
  unfold in_bounds. induction 1 as [|i n idx s Hi _ IH]; simpl; [reflexivity|].
  rewrite IH. destruct (Nat.eqb_spec n 1); [f_equal; lia | reflexivity].
Qed.

Lemma bcast_index_keepdim s idx j :
  in_bounds s idx -> bcast_index (s ++ [1]) (idx ++ [j]) = idx ++ [0].
Proof.
  intros Hb. unfold bcast_index.
  rewrite !length_app, (in_bounds_length Hb). simpl. rewrite Nat.sub_diag. simpl.
  now apply bcast_pairs_keepdim.
Qed.

Lemma in_bounds_snoc_inv s d idx :
  in_bounds (s ++ [d]) idx ->
  exists idx' j, idx = idx' ++ [j] /\ in_bounds s idx' /\ j < d.
Proof.
  unfold in_bounds. intros Hb.
  apply Forall2_app_inv_r in Hb as (idx' & tl & H1 & H2 & ->).
  inversion H2 as [|j ? ? ? Hj Hnil]; subst. inversion Hnil; subst.
  now exists idx', j.
Qed.

Lemma in_bounds_snoc s d idx j :
  in_bounds s idx -> j < d -> in_bounds (s ++ [d]) (idx ++ [j]).
Proof.
  unfold in_bounds. intros Hb Hj. apply Forall2_app; [exact Hb|].
  constructor; [exact Hj | constructor].
Qed.

(* ------------------------------------------------------------------------- *)
(** ** Normalisation *)
(* ------------------------------------------------------------------------- *)

(** Whatever follows a [return] statement does not contribute. *)
Lemma run_body_return {R : Type} (r : R) (k : unit -> flow R R) :
  run_body (seq_flow (py_return r) k) = r.
Proof. reflexivity. Qed.

Section Norms.
Context {F : Type} `{Scalar F}.

Lemma tget_to dt (t : tensor F) idx :
  wf t -> in_bounds (shape t) idx ->
  tget fzero (to dt t) idx = cast dt (tget fzero t idx).
Proof.
  intros Hwf Hb. unfold tget, to, to_dtype; simpl.
  pose proof (ravel_lt Hb) as Hlt. rewrite <- Hwf in Hlt.
  rewrite (nth_indep _ fzero (cast dt fzero)) by now rewrite length_map.
  apply map_nth.
Qed.

(** The centred input [x - x.mean(-1, keepdim=True)], entry by entry. *)
Lemma centred_shape (x : tensor F) :
  shape x <> [] -> shape (sub_t x (mean_last x)) = shape x.
Proof. intros Hs. unfold sub_t, zip_t, mean_last; simpl. now apply bshape_keepdim. Qed.

Lemma centred_get (x : tensor F) idx :
  shape x <> [] -> in_bounds (shape x) idx ->
  tget fzero (sub_t x (mean_last x)) idx
  = fsub (tget fzero x idx) (fmean (row x (removelast idx))).
Proof.
  intros Hs Hb. unfold sub_t, zip_t.
  rewrite tget_tabulate
    by (unfold mean_last; cbn [shape tabulate]; now rewrite bshape_keepdim).
  rewrite (bcast_index_same Hb). f_equal.
  destruct (exists_last Hs) as [s' [d Es]].
  rewrite Es in Hb. apply in_bounds_snoc_inv in Hb as (idx' & j & -> & Hb' & Hj).
  unfold mean_last. cbn [shape tabulate]. rewrite Es, !removelast_last.
  rewrite (bcast_index_keepdim _ Hb').
  rewrite tget_tabulate by (apply in_bounds_snoc; [exact Hb'|lia]).
  now rewrite removelast_last.
Qed.

Lemma layer_norm_get (y w : tensor F) eps idx :
  in_bounds (shape y) idx ->
  tget fzero (layer_norm y w None eps) idx
  = let v := row y (removelast idx) in
    let mu := fmean v in
    let var := fmean (map (fun e => fmul (fsub e mu) (fsub e mu)) v) in
    fmul (fdiv (fsub (tget fzero y idx) mu) (fsqrt (fadd var eps)))
         (tget fzero w [last idx 0]).
Proof. intros Hb. unfold layer_norm. now rewrite tget_tabulate. Qed.

Lemma mean_centred_norm_shape w eps x :
  shape x <> [] ->
  shape (mean_centred_norm w eps x) = shape x
  /\ dtype_of (mean_centred_norm w eps x) = Float16.
Proof.
  intros Hs. unfold mean_centred_norm, to, to_dtype, layer_norm.
  cbn [shape dtype_of tabulate]. split; [now apply centred_shape | reflexivity].
Qed.

Lemma mean_centred_norm_get w eps x idx :
  shape x <> [] -> in_bounds (shape x) idx ->
  tget fzero (mean_centred_norm w eps x) idx
  = let y := sub_t x (mean_last x) in
    let v := row y (removelast idx) in
    let mu := fmean v in
    let var := fmean (map (fun e => fmul (fsub e mu) (fsub e mu)) v) in
    cast Float16
      (fmul (fdiv (fsub (fsub (tget fzero x idx)
                              (fmean (row x (removelast idx)))) mu)
                  (fsqrt (fadd var eps)))
            (tget fzero w [last idx 0])).
Proof.
  intros Hs Hb. unfold mean_centred_norm.
  assert (Hb' : in_bounds (shape (sub_t x (mean_last x))) idx)
    by now rewrite centred_shape.
  rewrite tget_to; [| apply tabulate_wf | exact Hb'].
  rewrite layer_norm_get by exact Hb'. cbv zeta.
  now rewrite centred_get.
Qed.

(** C5.  On an input [..., d] both normalisation modules return the
    mean-centred input put through [layer_norm] with the learned scale, no
    bias and epsilon added to the variance under the square root, cast to
    float16; the result has the shape of the input, and the "true RMSNorm"
    statements that follow the [return] never contribute. *)
Theorem norms_are_mean_centred
    (rms : QwenRMSNorm F) (hn : QwenHeadNorm F) (x : tensor F) (idx : list nat) :
  shape x <> [] ->
  in_bounds (shape x) idx ->
  QwenRMSNorm_forward rms x = mean_centred_norm (rms_weight rms) (rms_eps rms) x
  /\ QwenHeadNorm_forward hn x = mean_centred_norm (hn_weight hn) (hn_eps hn) x
  /\ shape (QwenRMSNorm_forward rms x) = shape x
  /\ shape (QwenHeadNorm_forward hn x) = shape x
  /\ dtype_of (QwenRMSNorm_forward rms x) = Float16
  /\ dtype_of (QwenHeadNorm_forward hn x) = Float16
  /\ (forall w eps,
        tget fzero (mean_centred_norm w eps x) idx
        = let y := sub_t x (mean_last x) in
          let v := row y (removelast idx) in
          let mu := fmean v in
          let var := fmean (map (fun e => fmul (fsub e mu) (fsub e mu)) v) in
          cast Float16
            (fmul (fdiv (fsub (fsub (tget fzero x idx)
                                    (fmean (row x (removelast idx)))) mu)
                        (fsqrt (fadd var eps)))
                  (tget fzero w [last idx 0]))).
Proof.
  intros Hs Hb.
  assert (E1 : QwenRMSNorm_forward rms x
               = mean_centred_norm (rms_weight rms) (rms_eps rms) x)
    by reflexivity.
  assert (E2 : QwenHeadNorm_forward hn x
               = mean_centred_norm (hn_weight hn) (hn_eps hn) x)
    by reflexivity.
  rewrite E1, E2.
  destruct (mean_centred_norm_shape (rms_weight rms) (rms_eps rms) x Hs) as [S1 D1].
  destruct (mean_centred_norm_shape (hn_weight hn) (hn_eps hn) x Hs) as [S2 D2].
  repeat split; auto.
  intros w eps. now apply mean_centred_norm_get.
Qed.

End Norms.

(* ------------------------------------------------------------------------- *)
(** ** Partitions of the vocabulary axis *)
(* ------------------------------------------------------------------------- *)

Lemma partition_sizes_split_size N V :
  map (split_size N V) (seq 0 N) = partition_sizes N V.
Proof. reflexivity. Qed.

Lemma sum_list_app l1 l2 : sum_list (l1 ++ l2) = sum_list l1 + sum_list l2.
Proof. induction l1 as [|x l1 IH]; simpl; [reflexivity | rewrite IH; lia]. Qed.

Lemma sum_extra_rows q r n :
  sum_list (map (fun i => q + (if i <? r then 1 else 0)) (seq 0 n))
  = n * q + Nat.min r n.
Proof.
  induction n as [|n IH]; [simpl; lia|].
  rewrite seq_S, map_app, sum_list_app, IH. simpl.
  destruct (Nat.ltb_spec n r); lia.
Qed.

Lemma partition_sizes_sum N V : 0 < N -> sum_list (partition_sizes N V) = V.
Proof.
  intros HN. unfold partition_sizes. rewrite sum_extra_rows.
  pose proof (Nat.mod_upper_bound V N ltac:(lia)).
  pose proof (Nat.div_mod_eq V N). lia.
Qed.

Lemma partition_sizes_length N V : length (partition_sizes N V) = N.
Proof. unfold partition_sizes. now rewrite length_map, length_seq. Qed.

Lemma nth_map_seq {B : Type} (f : nat -> B) n i d :
  i < n -> nth i (map f (seq 0 n)) d = f i.
Proof.
  intros Hi. rewrite (nth_indep _ d (f 0)) by now rewrite length_map, length_seq.
  rewrite map_nth. now rewrite seq_nth.
Qed.

Lemma nth_map_in {A B : Type} (f : A -> B) l p d d' :
  p < length l -> nth p (map f l) d' = f (nth p l d).
Proof.
  intros Hp. rewrite (nth_indep _ d' (f d)) by now rewrite length_map.
  apply map_nth.
Qed.

Lemma partition_sizes_nth N V i :
  i < N ->
  nth i (partition_sizes N V) 0 = V / N + (if i <? V mod N then 1 else 0).
Proof.
  intros Hi. unfold partition_sizes. now rewrite nth_map_seq.
Qed.

Lemma split_size_pos N V i : 0 < N -> N <= V -> 0 < split_size N V i.
Proof.
  intros HN HV. unfold split_size.
  pose proof (Nat.div_str_pos V N ltac:(lia)). lia.
Qed.

Lemma sum_list_cons x l : sum_list (x :: l) = x + sum_list l.
Proof. reflexivity. Qed.

Lemma block_offset_0 sizes : block_offset sizes 0 = 0.
Proof. reflexivity. Qed.

Lemma block_offset_cons n sizes p :
  block_offset (n :: sizes) (S p) = n + block_offset sizes p.
Proof. reflexivity. Qed.

Lemma locate_spec sizes v :
  v < sum_list sizes ->
  let (p, o) := locate sizes v in
  p < length sizes /\ o < nth p sizes 0 /\ v = block_offset sizes p + o.
Proof.
  revert v. induction sizes as [|n sizes IH]; intros v Hv.
  - cbn in Hv. lia.
  - rewrite sum_list_cons in Hv. cbn [locate].
    destruct (Nat.ltb_spec v n) as [Hlt|Hge].
    + rewrite block_offset_0. cbn [length nth]. lia.
    + specialize (IH (v - n) ltac:(lia)).
      destruct (locate sizes (v - n)) as [p o]. destruct IH as (Hp & Ho & Hv').
      rewrite block_offset_cons. cbn [length nth]. lia.
Qed.

Lemma block_offset_le sizes p :
  p < length sizes -> block_offset sizes p + nth p sizes 0 <= sum_list sizes.
Proof.
  revert p. induction sizes as [|n sizes IH]; intros p Hp.
  - cbn in Hp. lia.
  - rewrite sum_list_cons. destruct p as [|p].
    + rewrite block_offset_0. cbn [nth]. lia.
    + rewrite block_offset_cons. cbn [nth]. cbn [length] in Hp.
      specialize (IH p ltac:(lia)). lia.
Qed.

Section SplitLemmas.
Context {A : Type}.
Variable pad : A.

Lemma split_from_length start sizes (t : tensor A) :
  length (split_from pad start sizes t) = length sizes.
Proof.
  revert start. induction sizes as [|n sizes IH]; intros start; simpl;
    [reflexivity | now rewrite IH].
Qed.

Lemma split_from_nth start sizes (t : tensor A) p d :
  p < length sizes ->
  nth p (split_from pad start sizes t) d
  = narrow pad 0 (start + block_offset sizes p) (nth p sizes 0) t.
Proof.
  revert start p. induction sizes as [|n sizes IH]; intros start p Hp.
  - simpl in Hp. lia.
  - destruct p as [|p]; cbn [split_from nth].
    + now rewrite block_offset_0, Nat.add_0_r.
    + cbn [length] in Hp. rewrite IH by lia. rewrite block_offset_cons.
      f_equal. lia.
Qed.

Lemma torch_split_ok (t : tensor A) sizes :
  sum_list sizes = nth 0 (shape t) 0 ->
  torch_split pad t sizes = Ok (split_from pad 0 sizes t).
Proof. intros E. unfold torch_split. now rewrite E, Nat.eqb_refl. Qed.

Lemma in_bounds3_inv a b c idx :
  in_bounds [a; b; c] idx ->
  exists i j k, idx = [i; j; k] /\ i < a /\ j < b /\ k < c.
Proof.
  unfold in_bounds. intros Hb.
  inversion Hb as [|i ? t1 ? Hi H1]; subst.
  inversion H1 as [|j ? t2 ? Hj H2]; subst.
  inversion H2 as [|k ? t3 ? Hk H3]; subst.
  inversion H3; subst. now exists i, j, k.
Qed.

Lemma in_bounds4_inv a b c d idx :
  in_bounds [a; b; c; d] idx ->
  exists i j k l, idx = [i; j; k; l] /\ i < a /\ j < b /\ k < c /\ l < d.
Proof.
  unfold in_bounds. intros Hb.
  inversion Hb as [|i ? t1 ? Hi H1]; subst.
  inversion H1 as [|j ? t2 ? Hj H2]; subst.
  inversion H2 as [|k ? t3 ? Hk H3]; subst.
  inversion H3 as [|l ? t4 ? Hl H4]; subst.
  inversion H4; subst. now exists i, j, k, l.
Qed.

End SplitLemmas.

(* ------------------------------------------------------------------------- *)
(** ** The vocabulary head *)
(* ------------------------------------------------------------------------- *)

Section Head.
Context {F : Type} `{Scalar F}.

Lemma conv_layout_shape (hs : tensor F) B S H0 :
  shape hs = [B; S; H0] -> shape (conv_layout hs) = [B; H0; 1; S].
Proof.
  intros Hs. unfold conv_layout, to, to_dtype, unsqueeze, permute.
  cbn [shape view tabulate]. rewrite Hs. reflexivity.
Qed.

Lemma conv_layout_dtype (hs : tensor F) : dtype_of (conv_layout hs) = Float16.
Proof. reflexivity. Qed.

Lemma conv_input_shape (x : tensor F) B S H0 :
  shape x = [B; S; H0] ->
  shape (unsqueeze 2 (permute fzero [0; 2; 1] x)) = [B; H0; 1; S].
Proof. intros Hx. unfold unsqueeze, permute. cbn [shape view tabulate]. now rewrite Hx. Qed.

Lemma conv_input_get (x : tensor F) B S H0 b c s :
  shape x = [B; S; H0] -> b < B -> c < H0 -> s < S ->
  tget fzero (unsqueeze 2 (permute fzero [0; 2; 1] x)) [b; c; 0; s]
  = tget fzero x [b; s; c].
Proof.
  intros Hx Hb Hc Hs. unfold unsqueeze.
  rewrite (tget_view fzero _ _ _ [b; c; s]).
  - unfold permute. rewrite Hx. cbn [map nth].
    rewrite tget_tabulate by bounds. reflexivity.
  - unfold permute. rewrite Hx. cbn [shape tabulate map nth firstn skipn app ravel numel].
    lia.
Qed.

Lemma conv_layout_get (t : tensor F) B S H0 b c s :
  shape t = [B; S; H0] -> b < B -> c < H0 -> s < S ->
  tget fzero (conv_layout t) [b; c; 0; s] = cast Float16 (tget fzero t [b; s; c]).
Proof.
  intros Ht Hb Hc Hs. unfold conv_layout.
  pose proof (conv_input_shape t Ht) as H4.
  rewrite tget_to.
  - f_equal. now apply conv_input_get with B S H0.
  - unfold wf, unsqueeze, permute. cbn [view data shape tabulate].
    rewrite length_map, length_seq, Ht. cbn [map nth numel firstn skipn app]. lia.
  - rewrite H4. bounds.
Qed.


Lemma conv_forward_shape (c : Conv2d F) (x : tensor F) B C S :
  shape x = [B; C; 1; S] ->
  shape (pointwise_conv c x) = [B; out_channels c; 1; S].
Proof. intros Hx. unfold pointwise_conv. cbn [shape tabulate]. now rewrite Hx. Qed.

Lemma conv_forward_get (c : Conv2d F) (x : tensor F) B C S b o s :
  shape x = [B; C; 1; S] -> b < B -> o < out_channels c -> s < S ->
  tget fzero (pointwise_conv c x) [b; o; 0; s]
  = fsum (map (fun ci => fmul (tget fzero (conv_weight c) [o; ci; 0; 0])
                              (tget fzero x [b; ci; 0; s]))
              (seq 0 (in_channels c))).
Proof.
  intros Hx Hb Ho Hs. unfold pointwise_conv.
  rewrite tget_tabulate by (rewrite Hx; unfold set_nth; cbn [firstn skipn app]; bounds).
  reflexivity.
Qed.

(** The layer accepts an input with its channel count and at least one
    pixel, provided it has output channels. *)
Lemma conv_forward_ok (c : Conv2d F) (x : tensor F) B S :
  shape x = [B; in_channels c; 1; S] -> 0 < out_channels c -> 0 < S ->
  Conv2d_forward c x = Ok (pointwise_conv c x).
Proof.
  intros Hx Ho Hs. unfold Conv2d_forward. rewrite Hx. cbn [nth].
  destruct (Nat.eqb_spec (out_channels c) 0) as [E|_]; [lia|].
  rewrite Nat.eqb_refl. cbn [negb].
  destruct (Nat.eqb_spec S 0) as [E|_]; [lia|]. reflexivity.
Qed.

(** It raises nothing but [RuntimeError]. *)
Lemma conv_forward_cases (c : Conv2d F) (x : tensor F) :
  Conv2d_forward c x = Ok (pointwise_conv c x)
  \/ Conv2d_forward c x = Raise RuntimeError.
Proof.
  unfold Conv2d_forward.
  destruct (out_channels c =? 0); [now right|].
  destruct (negb (nth 1 (shape x) 0 =? in_channels c)); [now right|].
  destruct ((nth 2 (shape x) 0 =? 0) || (nth 3 (shape x) 0 =? 0)); [now right|].
  now left.
Qed.

Lemma shard_value_shape (c : Conv2d F) (x : tensor F) B C S :
  shape x = [B; C; 1; S] ->
  shape (shard_value x c) = [B; S; out_channels c].
Proof.
  intros Hx. unfold shard_value, permute, squeeze.
  rewrite (conv_forward_shape c x Hx). reflexivity.
Qed.

Lemma shard_value_dtype (c : Conv2d F) (x : tensor F) B C S :
  shape x = [B; C; 1; S] ->
  dtype_of (shard_value x c) = dtype_of x.
Proof.
  intros Hx. unfold shard_value, permute, squeeze.
  rewrite (conv_forward_shape c x Hx). reflexivity.
Qed.

Lemma shard_value_get (c : Conv2d F) (x : tensor F) B C S b s o :
  shape x = [B; C; 1; S] -> b < B -> s < S -> o < out_channels c ->
  tget fzero (shard_value x c) [b; s; o]
  = fsum (map (fun ci => fmul (tget fzero (conv_weight c) [o; ci; 0; 0])
                              (tget fzero x [b; ci; 0; s]))
              (seq 0 (in_channels c))).
Proof.
  intros Hx Hb Hs Ho. unfold shard_value, permute, squeeze.
  rewrite (conv_forward_shape c x Hx). cbn [nth Nat.eqb].
  cbn [firstn skipn app shape view map nth].
  rewrite tget_tabulate by bounds.
  cbn [length seq map index_of Nat.eqb nth].
  rewrite (tget_view fzero _ _ _ [b; o; 0; s]).
  - now apply conv_forward_get with B C S.
  - rewrite (conv_forward_shape c x Hx). cbn [ravel numel firstn skipn app]. lia.
Qed.

Lemma shard_logits_ok (c : Conv2d F) (x : tensor F) B S :
  shape x = [B; in_channels c; 1; S] -> 0 < out_channels c -> 0 < S ->
  shard_logits x c = Ok (shard_value x c).
Proof.
  intros Hx Ho Hs. unfold shard_logits.
  now rewrite (conv_forward_ok c x Hx Ho Hs).
Qed.

Lemma shard_logits_cases (c : Conv2d F) (x : tensor F) :
  shard_logits x c = Ok (shard_value x c)
  \/ shard_logits x c = Raise RuntimeError.
Proof.
  unfold shard_logits.
  destruct (conv_forward_cases c x) as [-> | ->]; [now left | now right].
Qed.

(** Shards that all accept the input project one after the other. *)
Lemma shards_logits_ok (l : list (Conv2d F)) (x : tensor F) B C S :
  shape x = [B; C; 1; S] -> 0 < S ->
  Forall (fun c => in_channels c = C /\ 0 < out_channels c) l ->
  mapM (shard_logits x) l = Ok (map (shard_value x) l).
Proof.
  intros Hx Hs. induction 1 as [|c l [Hc Ho] _ IH]; [reflexivity|].
  cbn [mapM map]. rewrite <- Hc in Hx.
  rewrite (shard_logits_ok c x Hx Ho Hs). cbn [bind].
  now rewrite IH.
Qed.

(** Whatever a list of shards returns is the list of their values. *)
Lemma shards_logits_cases (l : list (Conv2d F)) (x : tensor F) :
  mapM (shard_logits x) l = Ok (map (shard_value x) l)
  \/ mapM (shard_logits x) l = Raise RuntimeError.
Proof.
  induction l as [|c l IH]; [now left|]. cbn [mapM map].
  destruct (shard_logits_cases c x) as [-> | ->]; cbn [bind]; [|now right].
  destruct IH as [-> | ->]; cbn [bind]; [now left | now right].
Qed.

(** A layer that returns has accepted its input. *)
Lemma conv_forward_inv (c : Conv2d F) (x y : tensor F) :
  Conv2d_forward c x = Ok y ->
  y = pointwise_conv c x
  /\ 0 < out_channels c
  /\ nth 1 (shape x) 0 = in_channels c
  /\ 0 < nth 2 (shape x) 0 /\ 0 < nth 3 (shape x) 0.
Proof.
  unfold Conv2d_forward.
  destruct (Nat.eqb_spec (out_channels c) 0) as [|Ho]; [discriminate|].
  destruct (Nat.eqb_spec (nth 1 (shape x) 0) (in_channels c)) as [Hc|];
    [|discriminate]. cbn [negb].
  destruct (Nat.eqb_spec (nth 2 (shape x) 0) 0) as [|H2]; [discriminate|].
  destruct (Nat.eqb_spec (nth 3 (shape x) 0) 0) as [|H3]; [discriminate|].
  cbn [orb]. intros E. injection E as <-. repeat split; auto; lia.
Qed.

Lemma shards_logits_inv (l : list (Conv2d F)) (x : tensor F) ts :
  mapM (shard_logits x) l = Ok ts ->
  ts = map (shard_value x) l
  /\ Forall (fun c => in_channels c = nth 1 (shape x) 0 /\ 0 < out_channels c) l
  /\ (l <> [] -> 0 < nth 3 (shape x) 0).
Proof.
  revert ts. induction l as [|c l IH]; intros ts E; cbn [mapM map] in *.
  - injection E as <-. repeat split; [constructor | congruence].
  - unfold shard_logits at 1 in E.
    destruct (Conv2d_forward c x) as [y|e] eqn:Ec; cbn [bind] in E; [|discriminate].
    apply conv_forward_inv in Ec as (-> & Ho & Hc & _ & H3).
    destruct (mapM (shard_logits x) l) as [ts'|e] eqn:El; cbn [bind] in E;
      [|discriminate].
    injection E as <-. destruct (IH ts' eq_refl) as (-> & Hall & _).
    repeat split; [constructor; auto | auto].
Qed.

(** *** Loading the shards *)

Lemma expandable_rev_same s : expandable_rev s s = true.
Proof.
  induction s as [|x s IH]; simpl; [reflexivity|].
  now rewrite Nat.eqb_refl, IH.
Qed.

Lemma copy_conv_same_shape (c : Conv2d F) (src : tensor F) :
  shape src = shape (conv_weight c) ->
  copy_conv c src = Ok (loaded_conv c src).
Proof.
  intros E. unfold copy_conv, copy_.
  assert (X : expandable_rev (rev (shape src)) (rev (shape (conv_weight c))) = true)
    by (rewrite E; apply expandable_rev_same).
  rewrite X. reflexivity.
Qed.

Lemma copy_shards_ok attr (splits : list (tensor F)) :
  forall (shards : list (Conv2d F)) i,
    Forall2 (fun c sp => shape sp = shape (conv_weight c)) shards splits ->
    snd (copy_shards attr i shards splits)
    = Ok (map (fun p => loaded_conv (fst p) (snd p)) (combine shards splits)).
Proof.
  induction splits as [|sp splits IH]; intros shards i Hall.
  - inversion Hall; subst. reflexivity.
  - inversion Hall as [|c ? shards' ? Hc Hrest]; subst.
    cbn [copy_shards]. rewrite (copy_conv_same_shape c sp Hc).
    specialize (IH shards' (S i) Hrest).
    cbn [io_lift io_bind io_print io_ret].
    destruct (copy_shards attr (S i) shards' splits) as [out r].
    cbn [snd] in IH. subst r. reflexivity.
Qed.

Lemma narrow0_shape (t : tensor F) start len V C :
  shape t = [V; C; 1; 1] ->
  shape (narrow fzero 0 start len t) = [len; C; 1; 1].
Proof. intros Ht. unfold narrow. cbn [shape tabulate]. now rewrite Ht. Qed.

Lemma narrow0_get (t : tensor F) start len V C o ci :
  shape t = [V; C; 1; 1] -> o < len -> ci < C ->
  tget fzero (narrow fzero 0 start len t) [o; ci; 0; 0]
  = tget fzero t [start + o; ci; 0; 0].
Proof.
  intros Ht Ho Hci. unfold narrow.
  rewrite tget_tabulate
    by (rewrite Ht; unfold set_nth; cbn [firstn skipn app]; bounds).
  reflexivity.
Qed.

Lemma built_shards_fit C (t : tensor F) V' (size : nat -> nat) n :
  shape t = [V'; C; 1; 1] ->
  forall a start (l : list (Conv2d F)),
    map (fun c => shape (conv_weight c)) l
    = map (fun i => [size i; C; 1; 1]) (seq a n) ->
    Forall2 (fun (c : Conv2d F) (sp : tensor F) => shape sp = shape (conv_weight c))
      l (split_from fzero start (map size (seq a n)) t).
Proof.
  intros Ht. induction n as [|n IH]; intros a start l Hl; cbn [seq map split_from] in *.
  - destruct l; [constructor | discriminate].
  - destruct l as [|c l]; [discriminate|]. cbn [map] in Hl.
    injection Hl as Hc Hl. constructor; [| now apply IH].
    rewrite (narrow0_shape t start (size a) Ht). now rewrite Hc.
Qed.

Lemma loaded_fresh_get init cin cout (src : tensor F) o ci :
  shape src = [cout; cin; 1; 1] -> o < cout -> ci < cin ->
  tget fzero (conv_weight (loaded_conv (Conv2d_init init cin cout) src))
       [o; ci; 0; 0]
  = cast Float16 (tget fzero src [o; ci; 0; 0]).
Proof.
  intros Hs Ho Hci. unfold loaded_conv, Conv2d_init.
  cbn [conv_weight shape dtype_of tabulate].
  change (mkTensor [cout; cin; 1; 1] Float16
            (map (fun k => cast Float16
                             (tget fzero src
                                (bcast_index (shape src) (unravel [cout; cin; 1; 1] k))))
                 (seq 0 (numel [cout; cin; 1; 1]))))
    with (tabulate Float16 [cout; cin; 1; 1]
            (fun idx => cast Float16 (tget fzero src (bcast_index (shape src) idx)))).
  rewrite tget_tabulate by bounds.
  rewrite Hs, bcast_index_same by bounds. reflexivity.
Qed.

(** *** Concatenation on the vocabulary axis *)

Lemma cat2_spec (ts : list (tensor F)) (d : tensor F) B S sizes :
  ts <> [] ->
  length sizes = length ts ->
  (forall p, p < length ts -> shape (nth p ts d) = [B; S; nth p sizes 0]) ->
  shape (cat fzero 2 ts) = [B; S; sum_list sizes]
  /\ dtype_of (cat fzero 2 ts) = dtype_of (nth 0 ts d)
  /\ wf (cat fzero 2 ts)
  /\ forall b s v, b < B -> s < S -> v < sum_list sizes ->
       tget fzero (cat fzero 2 ts) [b; s; v]
       = tget fzero (nth (fst (locate sizes v)) ts d)
              [b; s; snd (locate sizes v)].
Proof.
  intros Hne Hlen Hshape.
  assert (Hsizes : map (fun t => nth 2 (shape t) 0) ts = sizes).
  { apply (nth_ext _ _ 0 0); [now rewrite length_map|].
    intros p Hp. rewrite length_map in Hp.
    rewrite (nth_map_in _ _ d) by exact Hp.
    now rewrite (Hshape p Hp). }
  destruct ts as [|t0 rest]; [contradiction|].
  pose proof (Hshape 0 ltac:(simpl; lia)) as H0. cbn [nth] in H0.
  unfold cat. rewrite Hsizes, H0. unfold set_nth. cbn [firstn skipn app].
  repeat split.
  - apply tabulate_wf.
  - intros b s v Hb Hs Hv. rewrite tget_tabulate by bounds.
    cbn [nth]. destruct (locate sizes v) as [p o] eqn:El. cbn [fst snd firstn skipn app].
    pose proof (@locate_spec sizes v Hv) as Hl. rewrite El in Hl.
    destruct Hl as (Hp & _ & _).
    f_equal. apply (nth_indep (t0 :: rest) t0 d). now rewrite <- Hlen.
Qed.

(** The concatenated outputs of shards [l] on hidden states [B, R, H]:
    column [v] is row [o] of shard [p], where [p] is the shard whose block
    holds [v] and [o] the place of [v] in it. *)
Lemma shards_cat_value (l : list (Conv2d F)) (rows : tensor F) B R H0 :
  l <> [] ->
  Forall (fun c => in_channels c = H0) l ->
  shape rows = [B; R; H0] ->
  let sizes := map (@out_channels F) l in
  let t := cat fzero 2 (map (shard_value (conv_layout rows)) l) in
  shape t = [B; R; sum_list sizes]
  /\ dtype_of t = Float16
  /\ forall b s v d, b < B -> s < R -> v < sum_list sizes ->
       tget fzero t [b; s; v]
       = fsum (map (fun ci =>
                      fmul (tget fzero
                              (conv_weight (nth (fst (locate sizes v)) l d))
                              [snd (locate sizes v); ci; 0; 0])
                           (cast Float16 (tget fzero rows [b; s; ci])))
                   (seq 0 H0)).
Proof.
  intros Hne Hin Hr sizes t.
  pose proof (conv_layout_shape rows Hr) as Hx4.
  destruct l as [|c0 l']; [contradiction|].
  set (l := c0 :: l') in *.
  destruct (@cat2_spec (map (shard_value (conv_layout rows)) l)
              (shard_value (conv_layout rows) c0) B R sizes)
    as (Hshape & Hdt & _ & Hget).
  - discriminate.
  - unfold sizes. now rewrite !length_map.
  - intros p Hp. rewrite length_map in Hp.
    rewrite (nth_map_in _ _ c0) by exact Hp.
    rewrite (shard_value_shape _ _ Hx4). do 3 f_equal.
    unfold sizes. now rewrite (nth_map_in _ _ c0) by exact Hp.
  - split; [exact Hshape|]. split.
    + unfold t. rewrite Hdt. cbn [map nth l].
      now rewrite (shard_value_dtype _ _ Hx4).
    + intros b s v d Hb Hs Hv. unfold t. rewrite (Hget b s v Hb Hs Hv).
      pose proof (@locate_spec sizes v Hv) as Hl.
      destruct (locate sizes v) as [p o]. cbn [fst snd] in *.
      destruct Hl as (Hp & Ho & _).
      unfold sizes in Hp. rewrite length_map in Hp.
      rewrite (nth_map_in _ _ c0) by exact Hp.
      unfold sizes in Ho. rewrite (nth_map_in _ _ c0) in Ho by exact Hp.
      rewrite (nth_indep l d c0) by exact Hp.
      assert (Hc : in_channels (nth p l c0) = H0).
      { apply (proj1 (Forall_forall _ _) Hin). now apply nth_In. }
      rewrite (shard_value_get _ _ Hx4 Hb Hs Ho), Hc.
      f_equal. apply map_ext_in. intros ci Hci. apply in_seq in Hci.
      f_equal. apply conv_layout_get with B R H0; auto; lia.
Qed.

(** *** A split head against the whole matrix *)

(** The shards of an [N]-way head after loading the reshaped weight. *)
Lemma loaded_shard_nth N init C V (W4 : tensor F) V' p d :
  shape W4 = [V'; C; 1; 1] -> p < N ->
  nth p (map (fun q => loaded_conv (fst q) (snd q))
             (combine (map (fun i => Conv2d_init init C (split_size N V i)) (seq 0 N))
                      (split_from fzero 0 (map (split_size N V) (seq 0 N)) W4))) d
  = loaded_conv (Conv2d_init init C (split_size N V p))
      (narrow fzero 0 (block_offset (partition_sizes N V) p) (split_size N V p) W4).
Proof.
  intros HW Hp.
  set (fresh := map (fun i => Conv2d_init init C (split_size N V i)) (seq 0 N)).
  set (splits := split_from fzero 0 (map (split_size N V) (seq 0 N)) W4).
  assert (Lf : length fresh = N) by (unfold fresh; now rewrite length_map, length_seq).
  assert (Ls : length splits = N)
    by (unfold splits; now rewrite split_from_length, length_map, length_seq).
  rewrite (nth_map_in _ _ (Conv2d_init init C 0, W4))
    by (rewrite length_combine, Lf, Ls; lia).
  rewrite combine_nth by congruence. cbn [fst snd].
  unfold fresh, splits.
  rewrite nth_map_seq by exact Hp.
  rewrite split_from_nth by (now rewrite length_map, length_seq).
  rewrite (nth_map_seq _ _ Hp), partition_sizes_split_size. reflexivity.
Qed.

Lemma split_projection_equals_whole N init init' C V (W4 hs4 : tensor F) B C' S :
  0 < N ->
  shape W4 = [V; C; 1; 1] ->
  shape hs4 = [B; C'; 1; S] ->
  cat fzero 2
    (map (shard_value hs4)
       (map (fun q => loaded_conv (fst q) (snd q))
          (combine (map (fun i => Conv2d_init init C (split_size N V i)) (seq 0 N))
                   (split_from fzero 0 (map (split_size N V) (seq 0 N)) W4))))
  = shard_value hs4 (loaded_conv (Conv2d_init init' C V) W4).
Proof.
  intros HN HW Hx.
  set (shards := map (fun q => loaded_conv (fst q) (snd q)) _).
  set (sizes := partition_sizes N V).
  set (dc := Conv2d_init init C 0).
  assert (Lsh : length shards = N).
  { unfold shards. rewrite length_map, length_combine, split_from_length,
      !length_map, length_seq. lia. }
  assert (Hnth : forall p, p < N ->
            nth p shards dc
            = loaded_conv (Conv2d_init init C (split_size N V p))
                (narrow fzero 0 (block_offset sizes p) (split_size N V p) W4)).
  { intros p Hp. unfold shards. now apply loaded_shard_nth with V. }
  assert (Hsz : forall p, p < N -> nth p sizes 0 = split_size N V p).
  { intros p Hp. unfold sizes. now rewrite partition_sizes_nth. }
  destruct (@cat2_spec (map (shard_value hs4) shards) (shard_value hs4 dc)
              B S sizes) as (Hshape & Hdt & Hwf & Hget).
  { intros E. apply (f_equal (@length _)) in E.
    rewrite length_map, Lsh in E. simpl in E. lia. }
  { unfold sizes. now rewrite partition_sizes_length, length_map. }
  { intros p Hp. rewrite length_map, Lsh in Hp.
    rewrite (nth_map_in _ _ dc) by lia.
    rewrite (shard_value_shape _ hs4 Hx), (Hnth p Hp), (Hsz p Hp). reflexivity. }
  assert (Hsum : sum_list sizes = V) by (now apply partition_sizes_sum).
  apply (tensor_ext fzero).
  - exact Hwf.
  - apply tabulate_wf.
  - rewrite Hshape, Hsum, (shard_value_shape _ hs4 Hx). reflexivity.
  - rewrite Hdt. rewrite (nth_map_in _ _ dc) by lia.
    now rewrite !(shard_value_dtype _ hs4 Hx).
  - intros idx Hb. rewrite Hshape, Hsum in Hb.
    apply in_bounds3_inv in Hb as (b & s & v & -> & Hb & Hs & Hv).
    rewrite Hget by lia.
    pose proof (@locate_spec sizes v ltac:(lia)) as Hl.
    destruct (locate sizes v) as [p o]. cbn [fst snd].
    destruct Hl as (Hp & Ho & Hv').
    unfold sizes in Hp. rewrite partition_sizes_length in Hp.
    rewrite (Hsz p Hp) in Ho.
    rewrite (nth_map_in _ _ dc) by lia. rewrite (Hnth p Hp).
    rewrite (shard_value_get _ hs4 Hx) by (cbn [loaded_conv out_channels Conv2d_init]; lia).
    rewrite (shard_value_get _ hs4 Hx) by (cbn [loaded_conv out_channels Conv2d_init]; lia).
    cbn [loaded_conv in_channels Conv2d_init].
    f_equal. apply map_ext_in. intros ci Hci. apply in_seq in Hci.
    f_equal.
    pose proof (@block_offset_le sizes p ltac:(unfold sizes; rewrite partition_sizes_length; lia)) as Hle.
    rewrite (Hsz p Hp), Hsum in Hle.
    rewrite loaded_fresh_get;
      [| apply narrow0_shape with V; exact HW | exact Ho | lia].
    rewrite loaded_fresh_get; [| exact HW | lia | lia].
    f_equal. rewrite (narrow0_get _ _ HW) by lia.
    now rewrite Hv'.
Qed.

Lemma view_as_conv_matrix (W : tensor F) V C :
  shape W = [V; C] -> view_as_conv W = Ok (view [V; C; 1; 1] W).
Proof.
  intros HW. unfold view_as_conv. rewrite HW.
  replace (numel [V; C] =? numel [V; C; 1; 1]) with true; [reflexivity|].
  symmetry. apply Nat.eqb_eq. cbn [numel]. lia.
Qed.

Lemma view_matrix_get (W : tensor F) V C v c :
  shape W = [V; C] ->
  tget fzero (view [V; C; 1; 1] W) [v; c; 0; 0] = tget fzero W [v; c].
Proof. intros HW. apply tget_view. rewrite HW. cbn [ravel numel]. lia. Qed.

(** The module's loader on a model whose sixteen shards have their built
    shapes: the shards receive the blocks of the weight matrix. *)
Lemma load_head16_ok (self : QwenForCausalLM F) (cfg : QwenConfig F)
    (l : list (Conv2d F)) (W : tensor F) :
  heads self = Heads16 l ->
  map (fun c => shape (conv_weight c)) l
  = map (fun i => [split_size 16 (vocab_size cfg) i; hidden_size cfg; 1; 1])
        (seq 0 16) ->
  vocab_size (config self) = vocab_size cfg ->
  shape W = [vocab_size cfg; hidden_size cfg] ->
  snd (load_head_under module_flags self W)
  = Ok (with_heads self
          (Heads16
             (map (fun q => loaded_conv (fst q) (snd q))
                (combine l
                   (split_from fzero 0
                      (map (split_size 16 (vocab_size cfg)) (seq 0 16))
                      (view [vocab_size cfg; hidden_size cfg; 1; 1] W)))))).
Proof.
  intros Hh Hl Hv HW.
  change (load_head_under module_flags self W)
    with (io_bind (io_lift (view_as_conv W)) (load_head16 self)).
  rewrite (view_as_conv_matrix W HW). cbn [io_lift io_bind].
  unfold load_head16. rewrite Hv, Hh.
  rewrite torch_split_ok
    by (rewrite partition_sizes_split_size, partition_sizes_sum by lia; reflexivity).
  cbn [io_lift io_bind].
  pose proof (@copy_shards_ok "lm_head16_" _ _ 0
                (@built_shards_fit (hidden_size cfg)
                   (view [vocab_size cfg; hidden_size cfg; 1; 1] W)
                   (vocab_size cfg)
                   (split_size 16 (vocab_size cfg)) 16 eq_refl 0 0 l Hl)) as Hc.
  destruct (copy_shards _ _ _ _) as [out r]. cbn [snd] in Hc. subst r.
  reflexivity.
Qed.

Lemma load_head16_fresh init cfg (W : tensor F) :
  shape W = [vocab_size cfg; hidden_size cfg] ->
  snd (load_head_under module_flags (QwenForCausalLM_init init cfg false) W)
  = Ok (with_heads (QwenForCausalLM_init init cfg false)
          (Heads16
             (map (fun q => loaded_conv (fst q) (snd q))
                (combine
                   (map (fun i => Conv2d_init init (hidden_size cfg)
                                    (split_size 16 (vocab_size cfg) i))
                        (seq 0 16))
                   (split_from fzero 0
                      (map (split_size 16 (vocab_size cfg)) (seq 0 16))
                      (view [vocab_size cfg; hidden_size cfg; 1; 1] W)))))).
Proof.
  intros HW. apply load_head16_ok; auto.
Qed.

Lemma load_head1_fresh init cfg (W : tensor F) :
  shape W = [vocab_size cfg; hidden_size cfg] ->
  snd (load_head_under single_head_flags
         (QwenForCausalLM_init_under single_head_flags init cfg false) W)
  = Ok (with_heads (QwenForCausalLM_init_under single_head_flags init cfg false)
          (Head1 (loaded_conv
                    (Conv2d_init init (hidden_size cfg) (vocab_size cfg))
                    (view [vocab_size cfg; hidden_size cfg; 1; 1] W)))).
Proof.
  intros HW.
  change (load_head_under single_head_flags
            (QwenForCausalLM_init_under single_head_flags init cfg false) W)
    with (io_bind (io_lift (view_as_conv W))
            (load_head1 (QwenForCausalLM_init_under single_head_flags init cfg false))).
  rewrite (view_as_conv_matrix W HW). cbn [io_lift io_bind].
  unfold load_head1.
  change (heads (QwenForCausalLM_init_under single_head_flags init cfg false))
    with (Head1 (Conv2d_init init (hidden_size cfg) (vocab_size cfg))).
  cbv beta iota.
  rewrite copy_conv_same_shape by reflexivity.
  reflexivity.
Qed.

(** The unsplit head after loading: row [v] of its output is row [v] of
    the matrix applied to the float16 copy of the hidden vector. *)
Lemma whole_head_value init (cfg : QwenConfig F) (W hs : tensor F) B S :
  shape W = [vocab_size cfg; hidden_size cfg] ->
  shape hs = [B; S; hidden_size cfg] ->
  let logits :=
    shard_value (conv_layout hs)
      (loaded_conv (Conv2d_init init (hidden_size cfg) (vocab_size cfg))
         (view [vocab_size cfg; hidden_size cfg; 1; 1] W)) in
  shape logits = [B; S; vocab_size cfg]
  /\ dtype_of logits = Float16
  /\ forall b s v, b < B -> s < S -> v < vocab_size cfg ->
       tget fzero logits [b; s; v]
       = fsum (map (fun c => fmul (cast Float16 (tget fzero W [v; c]))
                                  (cast Float16 (tget fzero hs [b; s; c])))
                   (seq 0 (hidden_size cfg))).
Proof.
  intros HW Hs logits.
  pose proof (conv_layout_shape hs Hs) as Hx4.
  split; [|split].
  - unfold logits. now rewrite (shard_value_shape _ _ Hx4).
  - unfold logits. now rewrite (shard_value_dtype _ _ Hx4).
  - intros b s v Hb Hs' Hv. unfold logits.
    rewrite (shard_value_get _ _ Hx4) by (cbn [loaded_conv out_channels Conv2d_init]; lia).
    cbn [loaded_conv in_channels Conv2d_init].
    f_equal. apply map_ext_in. intros c Hc. apply in_seq in Hc.
    rewrite loaded_fresh_get; [| reflexivity | exact Hv | lia].
    rewrite (view_matrix_get W v c HW) by lia.
    f_equal. apply conv_layout_get with B S (hidden_size cfg); auto; lia.
Qed.

(** With sixteen tokens or more every shard of a loaded head has rows. *)
Lemma loaded_shards_accept N init C V (W4 : tensor F) V' :
  shape W4 = [V'; C; 1; 1] -> 0 < N -> N <= V ->
  Forall (fun c : Conv2d F => in_channels c = C /\ 0 < out_channels c)
    (map (fun q => loaded_conv (fst q) (snd q))
       (combine (map (fun i => Conv2d_init init C (split_size N V i)) (seq 0 N))
                (split_from fzero 0 (map (split_size N V) (seq 0 N)) W4))).
Proof.
  intros HW HN HV. apply Forall_forall. intros c Hc.
  apply in_map_iff in Hc as ([c0 sp] & <- & Hin).
  apply in_combine_l in Hin. apply in_map_iff in Hin as (i & <- & _).
  cbn [fst snd loaded_conv in_channels out_channels Conv2d_init].
  split; [reflexivity | now apply split_size_pos].
Qed.

(** C1.  Load a [V, H] vocabulary-head matrix into a freshly built model
    with at least sixteen tokens and project hidden states [B, S, H]: the
    sixteen shards hold the contiguous row blocks of the matrix, block [p]
    having [V // 16] rows plus one if [p < V mod 16]; the concatenation of
    the sixteen partial outputs on the vocabulary axis, in shard order, is
    the very tensor the unsplit head (one projection by the whole matrix)
    returns; and that tensor is [B, S, V], its column [v] being row [v] of
    the matrix applied to the float16 hidden vector. *)
Theorem partitioned_head_equals_unsplit_projection
    (init init' : list nat -> F) (cfg : QwenConfig F)
    (W hs : tensor F) (B S : nat) :
  shape W = [vocab_size cfg; hidden_size cfg] ->
  shape hs = [B; S; hidden_size cfg] ->
  16 <= vocab_size cfg ->
  0 < hidden_size cfg -> 0 < B -> 0 < S ->
  let sizes := partition_sizes 16 (vocab_size cfg) in
  exists (m16 m1 : QwenForCausalLM F) (shards : list (Conv2d F))
         (logits : tensor F),
    snd (load_head_under module_flags
           (QwenForCausalLM_init init cfg false) W) = Ok m16
    /\ snd (load_head_under single_head_flags
              (QwenForCausalLM_init_under single_head_flags init' cfg false) W)
       = Ok m1
    /\ heads m16 = Heads16 shards
    /\ length shards = 16
    /\ (forall p o c,
          p < 16 -> o < nth p sizes 0 -> c < hidden_size cfg ->
          out_channels (nth p shards (Conv2d_init init (hidden_size cfg) 0))
          = nth p sizes 0
          /\ tget fzero
               (conv_weight (nth p shards (Conv2d_init init (hidden_size cfg) 0)))
               [o; c; 0; 0]
             = cast Float16 (tget fzero W [block_offset sizes p + o; c]))
    /\ project_under module_flags m16 hs = Ok (Logits logits)
    /\ project_under single_head_flags m1 hs = Ok (Logits logits)
    /\ shape logits = [B; S; vocab_size cfg]
    /\ dtype_of logits = Float16
    /\ (forall b s v, b < B -> s < S -> v < vocab_size cfg ->
          tget fzero logits [b; s; v]
          = fsum (map (fun c => fmul (cast Float16 (tget fzero W [v; c]))
                                     (cast Float16 (tget fzero hs [b; s; c])))
                      (seq 0 (hidden_size cfg)))).
Proof.
  intros HW Hs HV HH HB HS sizes.
  set (W4 := view [vocab_size cfg; hidden_size cfg; 1; 1] W).
  assert (HW4 : shape W4 = [vocab_size cfg; hidden_size cfg; 1; 1]) by reflexivity.
  set (shards :=
         map (fun q => loaded_conv (fst q) (snd q))
           (combine
              (map (fun i => Conv2d_init init (hidden_size cfg)
                               (split_size 16 (vocab_size cfg) i)) (seq 0 16))
              (split_from fzero 0
                 (map (split_size 16 (vocab_size cfg)) (seq 0 16)) W4))).
  assert (Lsh : length shards = 16).
  { unfold shards. rewrite length_map, length_combine, split_from_length,
      !length_map, length_seq. reflexivity. }
  pose proof (conv_layout_shape hs Hs) as Hx4.
  destruct (@whole_head_value init' cfg W hs B S HW Hs) as (Hshape & Hdt & Hget).
  exists (with_heads (QwenForCausalLM_init init cfg false) (Heads16 shards)),
         (with_heads (QwenForCausalLM_init_under single_head_flags init' cfg false)
            (Head1 (loaded_conv
                      (Conv2d_init init' (hidden_size cfg) (vocab_size cfg)) W4))),
         shards,
         (shard_value (conv_layout hs)
            (loaded_conv (Conv2d_init init' (hidden_size cfg) (vocab_size cfg)) W4)).
  split; [now apply load_head16_fresh|].
  split; [now apply load_head1_fresh|].
  split; [reflexivity|].
  split; [exact Lsh|].
  split; [| split; [| split; [| split; [exact Hshape | split; [exact Hdt | exact Hget]]]]].
  - intros p o c Hp Ho Hc.
    assert (Hsz : nth p sizes 0 = split_size 16 (vocab_size cfg) p)
      by (unfold sizes; now rewrite partition_sizes_nth).
    unfold shards.
    rewrite (@loaded_shard_nth 16 init (hidden_size cfg) (vocab_size cfg) W4
               (vocab_size cfg) p _ HW4 Hp).
    split; [now rewrite Hsz|].
    rewrite Hsz in Ho.
    rewrite loaded_fresh_get;
      [| apply narrow0_shape with (vocab_size cfg); exact HW4 | exact Ho | exact Hc].
    f_equal. rewrite (narrow0_get _ _ HW4) by lia.
    unfold W4. now apply view_matrix_get.
  - change (project_under module_flags
              (with_heads (QwenForCausalLM_init init cfg false) (Heads16 shards)) hs)
      with (project_shards module_flags
              (with_heads (QwenForCausalLM_init init cfg false) (Heads16 shards))
              16 shards (conv_layout hs)).
    unfold project_shards, get_shards. rewrite Lsh. cbn [Nat.eqb bind].
    rewrite (@shards_logits_ok shards (conv_layout hs) B (hidden_size cfg) S Hx4 HS)
      by (apply loaded_shards_accept with (vocab_size cfg); [exact HW4 | lia | exact HV]).
    cbn [bind].
    change (enable_coreml
              (with_heads (QwenForCausalLM_init init cfg false) (Heads16 shards))
            && ENABLE_LOGITS2 module_flags) with false.
    cbv iota. do 2 f_equal.
    apply split_projection_equals_whole
      with (B := B) (C' := hidden_size cfg) (S := S); [lia | exact HW4 | exact Hx4].
  - change (project_under single_head_flags
              (with_heads (QwenForCausalLM_init_under single_head_flags init' cfg false)
                 (Head1 (loaded_conv
                           (Conv2d_init init' (hidden_size cfg) (vocab_size cfg)) W4)))
              hs)
      with (logits <- shard_logits (conv_layout hs)
                        (loaded_conv
                           (Conv2d_init init' (hidden_size cfg) (vocab_size cfg)) W4) ;;
            Ok (Logits logits)).
    rewrite (@shard_logits_ok _ (conv_layout hs) B S)
      by (cbn [loaded_conv in_channels out_channels Conv2d_init];
          first [exact Hx4 | lia | exact HS]).
    reflexivity.
Qed.

End Head.

(* ------------------------------------------------------------------------- *)
(** ** Decoder stack modes and the prefill entry point *)
(* ------------------------------------------------------------------------- *)

Section Prefill.
Context {F : Type} `{Scalar F}.


Lemma set_grad_restore (w : torch_state) :
  set_grad_enabled (grad_enabled w) (set_grad_enabled false w) = w.
Proof. destruct w; reflexivity. Qed.

Lemma stack_call_no_grad (m : QwenModel F) ids mask pos cp pf (w : torch_state) :
  QwenModel_call m ids mask pos cp pf (set_grad_enabled false w)
  = (QwenModel_forward m ids mask pos cp pf, set_grad_enabled false w).
Proof. reflexivity. Qed.


(** Outside [no_grad] the same stack call is recorded. *)
Lemma stack_call_recorded (m : QwenModel F) ids mask pos cp pf n :
  snd (QwenModel_call m ids mask pos cp pf (mkTorch true n)) = mkTorch true (S n).
Proof. reflexivity. Qed.

End Prefill.

(* ------------------------------------------------------------------------- *)
(** ** The active head configuration *)
(* ------------------------------------------------------------------------- *)

Section ActiveHead.
Context {F : Type} `{Scalar F}.

Lemma make_heads16_sizes (init : list nat -> F) (cfg : QwenConfig F) :
  exists shards,
    make_heads16 init cfg = Heads16 shards
    /\ length shards = 16
    /\ map (@out_channels F) shards = partition_sizes 16 (vocab_size cfg)
    /\ sum_list (map (@out_channels F) shards) = vocab_size cfg
    /\ Forall (fun c => shape (conv_weight c)
                       = [out_channels c; hidden_size cfg; 1; 1]) shards
    /\ Forall (fun c => in_channels c = hidden_size cfg) shards
    /\ (16 <= vocab_size cfg <-> Forall (fun c => 0 < out_channels c) shards).
Proof.
  eexists. split; [reflexivity|].
  split; [now rewrite length_map, length_seq|].
  assert (E : map (@out_channels F)
                (map (fun i => Conv2d_init init (hidden_size cfg)
                                 (split_size 16 (vocab_size cfg) i)) (seq 0 16))
              = partition_sizes 16 (vocab_size cfg))
    by (rewrite map_map; reflexivity).
  split; [exact E|].
  split; [rewrite E; apply partition_sizes_sum; lia|].
  split; [|split; [|split]].
  - apply Forall_forall. intros c Hc. apply in_map_iff in Hc as (i & <- & _).
    reflexivity.
  - apply Forall_forall. intros c Hc. apply in_map_iff in Hc as (i & <- & _).
    reflexivity.
  - intros HV. apply Forall_forall. intros c Hc.
    apply in_map_iff in Hc as (i & <- & _).
    cbn [out_channels Conv2d_init]. apply split_size_pos; lia.
  - intros Hall.
    assert (Hlast : 0 < split_size 16 (vocab_size cfg) 15).
    { apply (proj1 (Forall_forall _ _) Hall
               (Conv2d_init init (hidden_size cfg)
                  (split_size 16 (vocab_size cfg) 15))).
      apply in_map_iff. exists 15. split; [reflexivity|].
      apply in_seq. lia. }
    unfold split_size in Hlast.
    destruct (Nat.le_gt_cases 16 (vocab_size cfg)) as [|Hlt]; [assumption|].
    rewrite (Nat.div_small _ 16 Hlt), (Nat.mod_small _ 16 Hlt) in Hlast.
    destruct (Nat.ltb_spec 15 (vocab_size cfg)); lia.
Qed.

(** C10.  With the constants the module assigns, construction, projection
    and head loading all take their sixteen-way arm: sixteen shard
    projections are created, shard [i] with [vocab_size // 16] output rows
    plus one if [i < vocab_size % 16], so that every shard has rows exactly
    when the vocabulary has sixteen tokens or more; the other arms are never
    entered; and a model whose [enable_coreml] is [False] never gets the
    tuple of shard outputs out of [forward].  Once the stack and the
    position selection have returned hidden states [B, R, H], [forward]
    returns exactly when every shard accepts them (it has rows, and [H]
    input channels): one float16 tensor [B, R, total rows] whose column [v]
    is row [o] of shard [p], for the block [p] that holds [v] at place [o];
    otherwise it raises [RuntimeError]. *)
Theorem module_constants_select_16way
    (init : list nat -> F) (cfg : QwenConfig F) (coreml : bool)
    (self : QwenForCausalLM F) (l : list (Conv2d F))
    (input_ids : tensor Z) (update_mask : option (tensor F))
    (position_ids : tensor Z) (causal_mask : option (tensor F))
    (cp : pos_arg) (pf : bool) :
  enable_coreml self = false ->
  heads self = Heads16 l ->
  length l = 16 ->
  let forward :=
    QwenForCausalLM_forward self input_ids update_mask position_ids
      causal_mask cp pf in
  let sizes := map (@out_channels F) l in
  (ENABLE_CONV2D module_flags = true /\ ENABLE_VACAB_SPLIT16 module_flags = true)
  /\ heads (QwenForCausalLM_init init cfg coreml) = make_heads16 init cfg
  /\ (exists shards,
        make_heads16 init cfg = Heads16 shards
        /\ length shards = 16
        /\ map (@out_channels F) shards = partition_sizes 16 (vocab_size cfg)
        /\ sum_list (map (@out_channels F) shards) = vocab_size cfg
        /\ Forall (fun c => shape (conv_weight c)
                           = [out_channels c; hidden_size cfg; 1; 1]) shards
        /\ Forall (fun c => in_channels c = hidden_size cfg) shards
        /\ (16 <= vocab_size cfg <-> Forall (fun c => 0 < out_channels c) shards))
  /\ (forall m hs,
        project_under module_flags m hs
        = project16 module_flags m (conv_layout hs))
  /\ (forall m W,
        load_head_under module_flags m W
        = io_bind (io_lift (view_as_conv W)) (load_head16 m))
  /\ forward
     = (forward_checks input_ids position_ids pf ;;;
        hs <- QwenModel_forward (model self) input_ids causal_mask
                (Some position_ids) cp pf ;;
        hs <- extract_position hs cp pf ;;
        ts <- mapM (shard_logits (conv_layout hs)) l ;;
        Ok (Logits (cat fzero 2 ts)))
  /\ (forall ts, forward <> Ok (LogitsTuple ts))
  /\ (forall hs0 hs B R H0,
        forward_checks input_ids position_ids pf = Ok tt ->
        QwenModel_forward (model self) input_ids causal_mask
          (Some position_ids) cp pf = Ok hs0 ->
        extract_position hs0 cp pf = Ok hs ->
        shape hs = [B; R; H0] ->
        let accepted :=
          0 < R /\ Forall (fun c => in_channels c = H0 /\ 0 < out_channels c) l in
        (accepted ->
         exists t,
           forward = Ok (Logits t)
           /\ shape t = [B; R; sum_list sizes]
           /\ dtype_of t = Float16
           /\ forall b s v d, b < B -> s < R -> v < sum_list sizes ->
                tget fzero t [b; s; v]
                = fsum (map (fun ci =>
                               fmul (tget fzero
                                       (conv_weight (nth (fst (locate sizes v)) l d))
                                       [snd (locate sizes v); ci; 0; 0])
                                    (cast Float16 (tget fzero hs [b; s; ci])))
                            (seq 0 H0)))
        /\ (~ accepted -> forward = Raise RuntimeError)).
Proof.
  intros Hcoreml Hheads Hlen forward sizes.
  assert (Hfwd :
    forward
    = (forward_checks input_ids position_ids pf ;;;
       hs <- QwenModel_forward (model self) input_ids causal_mask
               (Some position_ids) cp pf ;;
       hs <- extract_position hs cp pf ;;
       ts <- mapM (shard_logits (conv_layout hs)) l ;;
       Ok (Logits (cat fzero 2 ts)))).
  { unfold forward, QwenForCausalLM_forward, QwenForCausalLM_forward_under.
    destruct (forward_checks input_ids position_ids pf); cbn [bind]; [|reflexivity].
    destruct (QwenModel_forward (model self) input_ids causal_mask
                (Some position_ids) cp pf) as [hs|e]; cbn [bind]; [|reflexivity].
    destruct (extract_position hs cp pf) as [hs'|e]; cbn [bind]; [|reflexivity].
    change (project_under module_flags self hs')
      with (project16 module_flags self (conv_layout hs')).
    unfold project16, project_shards, get_shards.
    rewrite Hheads, Hlen, Hcoreml. reflexivity. }
  assert (Hne : l <> []) by (intros ->; discriminate).
  split; [split; reflexivity|].
  split; [reflexivity|].
  split; [apply make_heads16_sizes|].
  split; [reflexivity|].
  split; [reflexivity|].
  split; [exact Hfwd|].
  split.
  - intros ts. rewrite Hfwd.
    destruct (forward_checks input_ids position_ids pf); cbn [bind]; [|discriminate].
    destruct (QwenModel_forward (model self) input_ids causal_mask
                (Some position_ids) cp pf) as [hs|e]; cbn [bind]; [|discriminate].
    destruct (extract_position hs cp pf) as [hs'|e]; cbn [bind]; [|discriminate].
    destruct (mapM (shard_logits (conv_layout hs')) l); cbn [bind]; discriminate.
  - intros hs0 hs B R H0 Hck Hst Hex Hs accepted.
    pose proof (conv_layout_shape hs Hs) as Hx4.
    rewrite Hfwd, Hck, Hst. cbn [bind]. rewrite Hex. cbn [bind].
    split.
    + intros (HR & Hall).
      rewrite (@shards_logits_ok _ _ l (conv_layout hs) B H0 R Hx4 HR Hall). cbn [bind].
      destruct (@shards_cat_value _ _ l hs B R H0 Hne) as (Hshape & Hdt & Hget).
      * apply Forall_forall. intros c Hc.
        now apply (proj1 (Forall_forall _ _) Hall c Hc).
      * exact Hs.
      * eexists. split; [reflexivity|]. split; [exact Hshape|].
        split; [exact Hdt | exact Hget].
    + intros Hno.
      destruct (shards_logits_cases l (conv_layout hs)) as [E | ->];
        [|reflexivity].
      exfalso. apply Hno.
      apply shards_logits_inv in E as (_ & Hall & HR).
      rewrite Hx4 in Hall, HR. cbn [nth] in Hall, HR.
      split; [now apply HR|].
      apply Forall_forall. intros c Hc.
      destruct (proj1 (Forall_forall _ _) Hall c Hc) as [Hc1 Hc2]. now split.
Qed.

End ActiveHead.

(* ------------------------------------------------------------------------- *)
(** ** Rotary tables *)
(* ------------------------------------------------------------------------- *)

Lemma arange_step2_len_even k : arange_step2_len (2 * k) = k.
Proof.
  unfold arange_step2_len. symmetry.
  apply (Nat.div_unique (2 * k + 1) 2 k 1); lia.
Qed.

Lemma wrap_index_in_range n p :
  (0 <= p < Z.of_nat n)%Z -> wrap_index n p = Ok (Z.to_nat p).
Proof.
  intros [H0 H1]. unfold wrap_index.
  destruct (Z.leb_spec 0 p); [|lia]. destruct (Z.ltb_spec p (Z.of_nat n)); [|lia].
  reflexivity.
Qed.

Lemma mapM_wrap_in_range n (ids : list Z) :
  Forall (fun p => (0 <= p < Z.of_nat n)%Z) ids ->
  mapM (wrap_index n) ids = Ok (map Z.to_nat ids).
Proof.
  induction 1 as [|p ids Hp _ IH]; cbn [mapM map]; [reflexivity|].
  now rewrite (wrap_index_in_range _ Hp), IH.
Qed.

Section Rotary.
Context {F : Type} `{Scalar F}.

Lemma map_t_get (f : F -> F) (t : tensor F) idx :
  wf t -> in_bounds (shape t) idx ->
  tget fzero (map_t f t) idx = f (tget fzero t idx).
Proof.
  intros Hwf Hb. unfold tget, map_t; simpl.
  pose proof (ravel_lt Hb) as Hlt. rewrite <- Hwf in Hlt.
  rewrite (nth_indep _ fzero (f fzero)) by now rewrite length_map.
  apply map_nth.
Qed.

Lemma unsqueeze0_get (t : tensor F) idx :
  tget fzero (unsqueeze 0 t) (0 :: idx) = tget fzero t idx.
Proof. apply tget_view. reflexivity. Qed.

(** The table [emb] of rotary angles, before [cos] and [sin]. *)
Lemma rotary_tables_shape (cfg : QwenConfig F) k :
  head_dim cfg = 2 * k ->
  shape (cos_cached (QwenRotaryEmbedding_init cfg))
  = [1; max_position_embeddings cfg; head_dim cfg]
  /\ shape (sin_cached (QwenRotaryEmbedding_init cfg))
     = [1; max_position_embeddings cfg; head_dim cfg].
Proof.
  intros HD. unfold QwenRotaryEmbedding_init.
  cbn [cos_cached sin_cached unsqueeze map_t cat tabulate shape view firstn skipn
       app map nth sum_list fold_right set_nth].
  rewrite HD, arange_step2_len_even.
  replace (k + (k + 0)) with (2 * k) by lia. split; reflexivity.
Qed.

Lemma rotary_tables_get (cfg : QwenConfig F) k p d :
  head_dim cfg = 2 * k ->
  p < max_position_embeddings cfg -> d < k ->
  tget fzero (cos_cached (QwenRotaryEmbedding_init cfg)) [0; p; d]
  = fcos (rope_angle cfg p d)
  /\ tget fzero (cos_cached (QwenRotaryEmbedding_init cfg)) [0; p; d + k]
     = fcos (rope_angle cfg p d)
  /\ tget fzero (sin_cached (QwenRotaryEmbedding_init cfg)) [0; p; d]
     = fsin (rope_angle cfg p d)
  /\ tget fzero (sin_cached (QwenRotaryEmbedding_init cfg)) [0; p; d + k]
     = fsin (rope_angle cfg p d).
Proof.
  intros HD Hp Hd. unfold QwenRotaryEmbedding_init.
  cbn [cos_cached sin_cached]. rewrite !unsqueeze0_get.
  set (M := max_position_embeddings cfg) in *.
  set (h := arange_step2_len (head_dim cfg)).
  assert (Hh : h = k) by (unfold h; rewrite HD; apply arange_step2_len_even).
  set (inv := tabulate Float32 [h] _).
  set (t := tabulate Float32 [M] _).
  set (freqs := tabulate Float32 [M; h] _).
  assert (Hfreq : forall j, j < h ->
            tget fzero freqs [p; j] = rope_angle cfg p j).
  { intros j Hj. unfold freqs. rewrite tget_tabulate by bounds. cbn [nth].
    unfold t, inv. rewrite !tget_tabulate by bounds. reflexivity. }
  assert (Hemb : forall e, e < h + (h + 0) ->
            tget fzero (cat fzero 1 [freqs; freqs]) [p; e]
            = tget fzero freqs [p; if e <? h then e else e - h]).
  { intros e He. unfold cat. cbn [map].
    change (shape freqs) with [M; h]. cbn [nth sum_list fold_right].
    unfold set_nth at 1. cbn [firstn skipn app].
    rewrite tget_tabulate by bounds. cbn [nth locate].
    destruct (Nat.ltb_spec e h) as [Hlt|Hge].
    - reflexivity.
    - destruct (Nat.ltb_spec (e - h) h) as [Hlt2|Hge2]; [|lia]. reflexivity. }
  assert (Hwf : wf (cat fzero 1 [freqs; freqs])) by apply tabulate_wf.
  assert (Hsh : shape (cat fzero 1 [freqs; freqs]) = [M; h + (h + 0)]) by reflexivity.
  rewrite !map_t_get by (try exact Hwf; rewrite Hsh; bounds).
  rewrite !Hemb by lia.
  destruct (Nat.ltb_spec d h) as [_|?]; [|lia].
  destruct (Nat.ltb_spec (d + k) h) as [?|_]; [lia|].
  replace (d + k - h) with d by lia.
  rewrite Hfreq by lia. repeat split; reflexivity.
Qed.

(** Gathering rows of a [1, M, D] table at a vector of positions. *)
Lemma gather_rows (t : tensor F) (ids : tensor Z) S M D :
  shape t = [1; M; D] ->
  shape ids = [S] -> length (data ids) = S ->
  Forall (fun p => (0 <= p < Z.of_nat M)%Z) (data ids) ->
  exists g,
    gather_axis1 fzero t ids = Ok g
    /\ shape g = [1; S; D] /\ dtype_of g = dtype_of t /\ wf g
    /\ forall j d, j < S -> d < D ->
         tget fzero g [0; j; d]
         = tget fzero t [0; Z.to_nat (nth j (data ids) 0%Z); d].
Proof.
  intros Ht Hi Hlen Hall. unfold gather_axis1.
  rewrite Ht. cbn [nth]. rewrite (@mapM_wrap_in_range M (data ids) Hall). cbn [bind].
  eexists. split; [reflexivity|].
  unfold ndim. rewrite Hi. cbn [firstn skipn app length].
  split; [reflexivity|]. split; [reflexivity|]. split; [apply tabulate_wf|].
  intros j d Hj Hd. rewrite tget_tabulate by bounds.
  cbn [firstn skipn app ravel numel].
  rewrite Nat.mul_1_r, Nat.add_0_r.
  rewrite (nth_map_in _ _ 0%Z) by lia. reflexivity.
Qed.

Lemma first_rows (t : tensor F) n M D :
  shape t = [1; M; D] ->
  shape (slice fzero 1 0 n t) = [1; Nat.min n M; D]
  /\ wf (slice fzero 1 0 n t)
  /\ forall j d, j < Nat.min n M -> d < D ->
       tget fzero (slice fzero 1 0 n t) [0; j; d] = tget fzero t [0; j; d].
Proof.
  intros Ht. unfold slice, narrow. rewrite Ht. cbn [nth].
  rewrite Nat.min_0_l, Nat.sub_0_r. unfold set_nth. cbn [firstn skipn app].
  split; [reflexivity|]. split; [apply tabulate_wf|].
  intros j d Hj Hd. rewrite tget_tabulate by bounds. reflexivity.
Qed.

Lemma lookup_positions (ids : tensor Z) S :
  shape ids = [S] \/ shape ids = [1; S] ->
  let pos_ids := if ndim ids =? 1 then ids else squeeze 0 ids in
  shape pos_ids = [S] /\ data pos_ids = data ids.
Proof.
  intros [Hs|Hs]; unfold ndim, squeeze; rewrite Hs; cbn; split; auto.
Qed.

(** Without position ids the lookup reads [x.shape[1]]: a tensor with at
    least two axes gets the leading rows of the tables. *)
Lemma rotary_fallback (rot : QwenRotaryEmbedding F) (x : tensor F) :
  2 <= ndim x ->
  QwenRotaryEmbedding_forward rot x None
  = Ok (to (dtype_of x) (slice fzero 1 0 (nth 1 (shape x) 0) (cos_cached rot)),
        to (dtype_of x) (slice fzero 1 0 (nth 1 (shape x) 0) (sin_cached rot))).
Proof.
  intros Hx. unfold QwenRotaryEmbedding_forward.
  destruct (Nat.ltb_spec (ndim x) 2); [lia | reflexivity].
Qed.

Lemma rotary_fallback_short (rot : QwenRotaryEmbedding F) (x : tensor F) :
  ndim x < 2 -> QwenRotaryEmbedding_forward rot x None = Raise IndexError.
Proof.
  intros Hx. unfold QwenRotaryEmbedding_forward.
  destruct (Nat.ltb_spec (ndim x) 2); [reflexivity | lia].
Qed.

(** C9.  For an even head dimension [D] the two tables built at
    construction hold, for every position below the configured maximum,
    the cosine and sine of the position times each of the [D/2] inverse
    frequencies, the block repeated: columns [d] and [d + D/2] agree.  A
    lookup with position ids returns the cached rows at those positions as
    two [1, S, D] tensors (in the dtype of the caller's tensor); a lookup
    without position ids returns the first [S] cached rows, [S] being the
    second axis of the caller's tensor (a tensor without a second axis has
    no [shape[1]], an [IndexError]). *)
Theorem rotary_tables_and_lookup
    (cfg : QwenConfig F) (k : nat) (x : tensor F) (ids : tensor Z) (S : nat) :
  head_dim cfg = 2 * k ->
  (shape ids = [S] \/ shape ids = [1; S]) ->
  length (data ids) = S ->
  Forall (fun p => (0 <= p < Z.of_nat (max_position_embeddings cfg))%Z)
         (data ids) ->
  let rot := QwenRotaryEmbedding_init cfg in
  let D := head_dim cfg in
  let M := max_position_embeddings cfg in
  let S0 := Nat.min (nth 1 (shape x) 0) M in
  (shape (cos_cached rot) = [1; M; D] /\ shape (sin_cached rot) = [1; M; D])
  /\ (forall p d, p < M -> d < k ->
        tget fzero (cos_cached rot) [0; p; d] = fcos (rope_angle cfg p d)
        /\ tget fzero (cos_cached rot) [0; p; d + k] = fcos (rope_angle cfg p d)
        /\ tget fzero (sin_cached rot) [0; p; d] = fsin (rope_angle cfg p d)
        /\ tget fzero (sin_cached rot) [0; p; d + k] = fsin (rope_angle cfg p d))
  /\ (exists cos sin,
        QwenRotaryEmbedding_forward rot x (Some ids) = Ok (cos, sin)
        /\ shape cos = [1; S; D] /\ shape sin = [1; S; D]
        /\ forall j d, j < S -> d < D ->
             let p := Z.to_nat (nth j (data ids) 0%Z) in
             tget fzero cos [0; j; d]
             = cast (dtype_of x) (tget fzero (cos_cached rot) [0; p; d])
             /\ tget fzero sin [0; j; d]
                = cast (dtype_of x) (tget fzero (sin_cached rot) [0; p; d]))
  /\ (2 <= ndim x ->
      exists cos sin,
        QwenRotaryEmbedding_forward rot x None = Ok (cos, sin)
        /\ shape cos = [1; S0; D] /\ shape sin = [1; S0; D]
        /\ forall j d, j < S0 -> d < D ->
             tget fzero cos [0; j; d]
             = cast (dtype_of x) (tget fzero (cos_cached rot) [0; j; d])
             /\ tget fzero sin [0; j; d]
                = cast (dtype_of x) (tget fzero (sin_cached rot) [0; j; d]))
  /\ (ndim x < 2 -> QwenRotaryEmbedding_forward rot x None = Raise IndexError).
Proof.
  intros HD Hids Hlen Hall rot D M S0.
  destruct (@rotary_tables_shape cfg k HD) as [Hc Hs].
  fold rot D M in Hc, Hs.
  split; [now split|].
  split; [intros p d Hp Hd; now apply rotary_tables_get|].
  split.
  - destruct (@lookup_positions ids S Hids) as [Hps Hpd].
    set (pos_ids := if ndim ids =? 1 then ids else squeeze 0 ids) in *.
    destruct (@gather_rows (cos_cached rot) pos_ids S M D Hc Hps
                ltac:(now rewrite Hpd) ltac:(now rewrite Hpd))
      as (gc & Egc & Sgc & _ & Wgc & Ggc).
    destruct (@gather_rows (sin_cached rot) pos_ids S M D Hs Hps
                ltac:(now rewrite Hpd) ltac:(now rewrite Hpd))
      as (gs & Egs & Sgs & _ & Wgs & Ggs).
    exists (to (dtype_of x) gc), (to (dtype_of x) gs).
    split.
    { unfold QwenRotaryEmbedding_forward. fold pos_ids.
      rewrite Egc, Egs. reflexivity. }
    split; [exact Sgc|]. split; [exact Sgs|].
    intros j d Hj Hd p.
    rewrite !tget_to by (try assumption; rewrite ?Sgc, ?Sgs; bounds).
    rewrite Ggc, Ggs by assumption. rewrite Hpd. split; reflexivity.
  - destruct (@first_rows (cos_cached rot) (nth 1 (shape x) 0) M D Hc) as (S1 & W1 & G1).
    destruct (@first_rows (sin_cached rot) (nth 1 (shape x) 0) M D Hs) as (S2 & W2 & G2).
    fold S0 in S1, S2, G1, G2.
    split; [|apply rotary_fallback_short].
    intros Hx.
    eexists. eexists. split; [now apply rotary_fallback|].
    split; [exact S1|]. split; [exact S2|].
    intros j d Hj Hd.
    rewrite !tget_to by (try assumption; rewrite ?S1, ?S2; bounds).
    rewrite G1, G2 by assumption. split; reflexivity.
Qed.

End Rotary.

(* ------------------------------------------------------------------------- *)
(** ** The attention block *)
(* ------------------------------------------------------------------------- *)

Section AttentionLayout.
Context {F : Type} `{Scalar F}.



(** Step 7, the merge, as the code lays it out. *)
Lemma merge_heads_layout (t : tensor F) B N S D :
  shape t = [B; N; S; D] -> 0 < B -> 0 < S ->
  view [B; S; numel (shape (permute fzero [0; 2; 1; 3] t)) / (B * S)]
       (permute fzero [0; 2; 1; 3] t)
  = merge_heads t.
Proof.
  intros Ht HB HS.
  assert (Hp : shape (permute fzero [0; 2; 1; 3] t) = [B; S; N; D])
    by (unfold permute; cbn [shape tabulate]; now rewrite Ht).
  rewrite Hp.
  assert (Hq : numel [B; S; N; D] / (B * S) = N * D).
  { cbn [numel]. replace (B * (S * (N * (D * 1)))) with (N * D * (B * S)) by lia.
    apply Nat.div_mul. nia. }
  rewrite Hq.
  apply (tensor_ext fzero).
  - unfold wf, permute. cbn [view data shape tabulate].
    rewrite length_map, length_seq, Ht. cbn [map nth numel]. lia.
  - apply tabulate_wf.
  - unfold merge_heads. rewrite Ht. reflexivity.
  - reflexivity.
  - intros idx Hb. cbn [view shape] in Hb.
    apply in_bounds3_inv in Hb as (b & s & j & -> & Hb & Hs & Hj).
    assert (HD : D <> 0) by (intros ->; lia).
    assert (Hn : j / D < N) by (apply Nat.Div0.div_lt_upper_bound; lia).
    pose proof (Nat.mod_upper_bound j D HD) as Hr.
    pose proof (Nat.div_mod_eq j D) as Hdm.
    rewrite (tget_view fzero _ _ _ [b; s; j / D; j mod D]).
    2:{ rewrite Hp. cbn [ravel numel]. nia. }
    unfold permute. rewrite Ht. cbn [map nth].
    rewrite tget_tabulate by bounds.
    cbn [length seq map index_of Nat.eqb nth].
    unfold merge_heads. rewrite Ht. cbn [nth].
    rewrite tget_tabulate by bounds. reflexivity.
Qed.


End AttentionLayout.

Section AttentionShapes.
Context {F : Type} `{Scalar F}.

Lemma pick_same (a : nat) : (if a =? 1 then 1 else a) = a.
Proof. destruct (Nat.eqb_spec a 1); congruence. Qed.

Lemma pick_self (a : nat) : (if a =? 1 then a else a) = a.
Proof. now destruct (a =? 1). Qed.

Lemma bshape4_same B N S D : bshape [B; N; S; D] [B; N; S; D] = [B; N; S; D].
Proof. unfold bshape. now rewrite bshape_rev_same, rev_involutive. Qed.

Lemma bshape4_row B N S D : bshape [B; N; S; D] [1; 1; S; D] = [B; N; S; D].
Proof. unfold bshape. cbn. now rewrite !pick_same, !pick_self. Qed.

Lemma bshape4_mask B N S Bm Cm :
  (Bm = B \/ Bm = 1) -> (Cm = N \/ Cm = 1) ->
  bshape [B; N; S; S] [Bm; Cm; S; S] = [B; N; S; S].
Proof.
  intros HB HN. unfold bshape. cbn. rewrite !pick_self.
  destruct HB as [->| ->], HN as [->| ->]; now rewrite ?pick_same, ?pick_self.
Qed.

Lemma rotate_half_shape (q : tensor F) B N S D :
  shape q = [B; N; S; D] -> shape (rotate_half q) = [B; N; S; D].
Proof.
  intros Hq. unfold rotate_half, ndim. rewrite Hq. cbn [length Nat.sub last].
  unfold cat, slice, narrow, map_t. rewrite Hq.
  cbn [map shape tabulate nth set_nth firstn skipn app sum_list fold_right].
  pose proof (Nat.Div0.div_le_upper_bound D 2 D ltac:(lia)) as Hle.
  rewrite Nat.min_id, Nat.min_0_l, !(Nat.min_l (D / 2) D) by exact Hle.
  replace (D - D / 2 + (D / 2 - 0 + 0)) with D by lia. reflexivity.
Qed.

Lemma rotated_shape (q cos sin : tensor F) B N S D :
  shape q = [B; N; S; D] ->
  shape cos = [1; S; D] -> shape sin = [1; S; D] ->
  shape (add_t (mul_t q (unsqueeze 1 cos))
               (mul_t (rotate_half q) (unsqueeze 1 sin))) = [B; N; S; D].
Proof.
  intros Hq Hc Hs. unfold add_t, mul_t, zip_t, unsqueeze.
  cbn [shape tabulate view].
  rewrite (rotate_half_shape q Hq), Hq, Hc, Hs. cbn [firstn skipn app].
  now rewrite bshape4_row, bshape4_same.
Qed.

Lemma scores_shape (q k : tensor F) c B N S D :
  shape q = [B; N; S; D] -> shape k = [B; N; S; D] ->
  shape (scale_t c (matmul q (permute fzero [0; 1; 3; 2] k))) = [B; N; S; S].
Proof.
  intros Hq Hk. unfold scale_t, map_t, matmul, permute.
  cbn [shape tabulate]. now rewrite Hq, Hk.
Qed.

Lemma masked_shape (scores m : tensor F) B N S :
  shape scores = [B; N; S; S] -> mask_fits m B N S ->
  shape (add_t scores
           (to (dtype_of scores) (slice fzero 3 0 S (slice fzero 2 0 S m))))
  = [B; N; S; S].
Proof.
  intros Hsc (Bm & Cm & R & C & Hm & HB & HN & HR & HC).
  unfold add_t, zip_t, to, to_dtype, slice, narrow.
  cbn [shape tabulate]. rewrite Hm, Hsc.
  cbn [nth set_nth firstn skipn app].
  rewrite !Nat.min_0_l, !Nat.sub_0_r, (Nat.min_l S R), (Nat.min_l S C) by lia.
  now apply bshape4_mask.
Qed.

Lemma context_shape (scores v : tensor F) B N S D :
  shape scores = [B; N; S; S] -> shape v = [B; N; S; D] ->
  shape (matmul (softmax_last scores) v) = [B; N; S; D].
Proof.
  intros Hsc Hv. unfold matmul, softmax_last. cbn [shape tabulate].
  now rewrite Hsc, Hv.
Qed.


End AttentionShapes.

Section AttentionOrder.
Context {F : Type} `{Scalar F}.



Lemma head_norm_shape w eps (t : tensor F) B N S D :
  shape t = [B; N; S; D] -> shape (mean_centred_norm w eps t) = [B; N; S; D].
Proof.
  intros Ht. rewrite <- Ht.
  apply (mean_centred_norm_shape w eps t). rewrite Ht. discriminate.
Qed.


(** With a mask the code agrees with the order whose mask step is
    unconditional. *)
Lemma attention_in_order_with_mask (self : QwenAttention F) x m pos :
  attention_in_order self x (Some m) pos = attention_as_claimed self x (Some m) pos.
Proof. reflexivity. Qed.

End AttentionOrder.

(* ------------------------------------------------------------------------- *)
(** ** The loader's verdict *)
(* ------------------------------------------------------------------------- *)

Section LoadOutcome.
Context {F : Type} `{Scalar F}.

Lemma convert_items_ok (items : state_dict F) :
  projections_are_matrices items ->
  forall acc, convert_items items acc = Ok (conv_state_from items acc).
Proof.
  unfold projections_are_matrices.
  induction 1 as [|[k v] items Hkv _ IH]; intros acc; [reflexivity|].
  cbn [convert_items conv_state_from fst snd] in *.
  change (if startswith "model." k then replace "model." "" k else k)
    with (stripped_key k).
  change (contains "lm_head.weight" (stripped_key k))
    with (is_head_key (stripped_key k)).
  change (existsb (fun proj => contains proj (stripped_key k)) projection_names)
    with (is_projection_key (stripped_key k)).
  destruct (is_head_key (stripped_key k)) eqn:Eh; [apply IH|].
  destruct (is_projection_key (stripped_key k)) eqn:Ep; [|apply IH].
  destruct (Hkv eq_refl eq_refl) as (s0 & s1 & Hs).
  rewrite (view_as_conv_matrix v Hs). cbn [bind]. rewrite Hs. cbn [nth].
  apply IH.
Qed.

Lemma is_nil_nonempty {A : Type} (l : list A) : negb (nonempty l) = is_nil l.
Proof. now destruct l. Qed.

(** The decoder-stack part of the load, on a checkpoint that fits. *)
Lemma stack_load_outcome (stack : QwenModel F) (fs : filesystem F)
    (path : string) (dir : directory F) :
  fs path = Some dir ->
  let sd := read_checkpoint dir in
  projections_are_matrices sd ->
  size_mismatch (QwenModel_state_dict stack) (conv_state_from sd []) = false ->
  let missing := missing_keys stack sd in
  let unexpected := unexpected_keys stack sd in
  QwenModel_load_pretrained_weights stack fs path
  = ((if is_nil missing && is_nil unexpected then []
      else [PrintMissing missing; PrintUnexpected unexpected]),
     Ok (is_nil missing && is_nil unexpected,
         assign_model (conv_state_from sd []) stack)).
Proof.
  intros Hfs sd Hproj Hsz missing unexpected.
  unfold QwenModel_load_pretrained_weights. rewrite Hfs.
  fold sd. rewrite (convert_items_ok Hproj []).
  cbn [io_lift io_bind]. unfold load_state_dict. rewrite Hsz.
  cbn [io_lift io_bind].
  fold (missing_keys stack sd). fold (unexpected_keys stack sd).
  fold missing unexpected.
  rewrite !is_nil_nonempty.
  destruct missing, unexpected; reflexivity.
Qed.

(** C8, with its proviso.  The load raises [FileNotFoundError] when the
    path is not a directory.  Otherwise, on a model whose head shards have
    their built shapes and a checkpoint whose tensors have shapes their
    destinations accept, it returns [True] exactly when the stack
    assignment reports no missing key (the rotary buffer aside), no
    unexpected key, and the head weight is found under the key
    ["lm_head.weight"]; every other outcome returns [False] after printing
    the missing and unexpected keys, or the warning that the head weight was
    not found. *)
Theorem load_reports_outcome
    (cfg : QwenConfig F) (self : QwenForCausalLM F)
    (fs : filesystem F) (path : string) :
  head_shards_as_built cfg self ->
  (fs path = None ->
   QwenForCausalLM_load_pretrained_weights self fs path
   = ([], Raise (FileNotFoundError path)))
  /\ (forall dir,
        fs path = Some dir ->
        let sd := read_checkpoint dir in
        checkpoint_fits cfg (model self) sd ->
        let missing := missing_keys (model self) sd in
        let unexpected := unexpected_keys (model self) sd in
        exists out b self',
          QwenForCausalLM_load_pretrained_weights self fs path
          = (out, Ok (b, self'))
          /\ (b = true <->
               missing = [] /\ unexpected = []
               /\ exists W, dict_get "lm_head.weight" sd = Some W)
          /\ (missing <> [] \/ unexpected <> [] ->
               out = [PrintMissing missing; PrintUnexpected unexpected])
          /\ (missing = [] -> unexpected = [] ->
               dict_get "lm_head.weight" sd = None ->
               out = [PrintHeadNotFound])).
Proof.
  intros (Hvoc & l & Hheads & Hshapes). split.
  - intros Hfs.
    unfold QwenForCausalLM_load_pretrained_weights,
      QwenForCausalLM_load_pretrained_weights_under,
      QwenModel_load_pretrained_weights.
    rewrite Hfs. reflexivity.
  - intros dir Hfs sd (Hproj & Hsz & Hhead) missing unexpected.
    unfold QwenForCausalLM_load_pretrained_weights,
      QwenForCausalLM_load_pretrained_weights_under.
    rewrite (@stack_load_outcome (model self) fs path dir Hfs Hproj Hsz).
    fold sd missing unexpected.
    destruct missing as [|m0 ms] eqn:Em, unexpected as [|u0 us] eqn:Eu;
      cbn [is_nil andb io_bind negb io_ret app].
    + rewrite Hfs. fold sd.
      destruct (dict_get "lm_head.weight" sd) as [W|] eqn:Ehead.
      * set (self1 := with_model self (assign_model (conv_state_from sd []) (model self))).
        pose proof (@load_head16_ok _ _ self1 cfg l W Hheads Hshapes Hvoc
                      (Hhead W eq_refl)) as Hload.
        destruct (load_head_under module_flags self1 W) as [out r].
        cbn [snd] in Hload. subst r. cbn [io_bind io_ret].
        eexists _, true, _. split; [reflexivity|].
        split; [|split].
        -- split; [intros _; repeat split; eauto | reflexivity].
        -- intros [C|C]; contradiction.
        -- discriminate.
      * cbn [io_bind io_print io_ret app].
        eexists _, false, _. split; [reflexivity|].
        split; [|split].
        -- split; [discriminate | intros (_ & _ & W & C); discriminate].
        -- intros [C|C]; contradiction.
        -- reflexivity.
    + eexists _, false, _. split; [reflexivity|].
      split; [|split].
      * split; [discriminate | intros (_ & C & _); discriminate].
      * reflexivity.
      * discriminate.
    + eexists _, false, _. split; [reflexivity|].
      split; [|split].
      * split; [discriminate | intros (C & _); discriminate].
      * reflexivity.
      * discriminate.
    + eexists _, false, _. split; [reflexivity|].
      split; [|split].
      * split; [discriminate | intros (C & _); discriminate].
      * reflexivity.
      * discriminate.
Qed.

(** Construction gives the head its built shapes. *)
Lemma fresh_head_as_built init cfg coreml :
  head_shards_as_built cfg (QwenForCausalLM_init init cfg coreml).
Proof.
  split; [reflexivity|]. eexists. split; [reflexivity|]. now rewrite map_map.
Qed.

End LoadOutcome.

(* ------------------------------------------------------------------------- *)
(** ** Worked instances on the tiny model *)
(* ------------------------------------------------------------------------- *)

(** The freshly built head on three hidden vectors: shard 1 has two rows,
    the other fifteen one each, and every shard starts at its own row 0. *)
Example tiny_projection_run :
  project_under module_flags tiny_model tiny_hidden
  = Ok (Logits (mkTensor [1; 3; 17] Float16
       [ 20; 40; 20; 20; 20; 20; 20; 20; 20; 20; 20; 20; 20; 20; 20; 20; 20;
         120; 240; 120; 120; 120; 120; 120; 120; 120; 120; 120; 120; 120; 120;
         120; 120; 120;
         220; 440; 220; 220; 220; 220; 220; 220; 220; 220; 220; 220; 220; 220;
         220; 220; 220 ]%Z)).
Proof. vm_compute. reflexivity. Qed.

(** Loading the tiny checkpoint succeeds and reports the sixteen shards. *)
Example tiny_load_run :
  exists m,
    QwenForCausalLM_load_pretrained_weights tiny_model tiny_fs "ckpt"%string
    = (map (fun i => PrintLoadedShard
                       (String.append "lm_head16_"%string (string_of_nat (i + 1)))
                       [split_size 16 17 i; 4; 1; 1])
           (seq 0 16),
       Ok (true, m)).
Proof. eexists. vm_compute. reflexivity. Qed.

Lemma partitioned_head_equals_unsplit_projection_witness :
  exists m16 m1 logits,
    snd (load_head_under module_flags tiny_model tiny_head_weight) = Ok m16
    /\ snd (load_head_under single_head_flags
              (QwenForCausalLM_init_under single_head_flags tiny_init
                 tiny_config false) tiny_head_weight) = Ok m1
    /\ project_under module_flags m16 tiny_hidden = Ok (Logits logits)
    /\ project_under single_head_flags m1 tiny_hidden = Ok (Logits logits).
Proof.
  destruct (@partitioned_head_equals_unsplit_projection Z ZScalar
              tiny_init tiny_init tiny_config tiny_head_weight tiny_hidden
              1 3 eq_refl eq_refl ltac:(cbn; lia) ltac:(cbn; lia)
              ltac:(lia) ltac:(lia))
    as (m16 & m1 & shards & logits & L16 & L1 & _ & _ & _ & P16 & P1 & _).
  exists m16, m1, logits. repeat split; assumption.
Defined.


Lemma tiny_mask_fits : mask_fits tiny_mask 1 2 3.
Proof. exists 1, 1, 3, 3. repeat split; auto. Defined.



Lemma decode_selects_current_row_witness :
  QwenForCausalLM_forward_under module_flags tiny_model tiny_ids None tiny_pos
    (Some tiny_mask) (PosInt 1) false
  = project_under module_flags tiny_model (slice 0%Z 1 1 2 tiny_stack_out).
Proof.
  refine (proj2 (proj2 (proj2 (proj2
    (@decode_selects_current_row Z ZScalar module_flags tiny_model tiny_ids None
       tiny_pos (Some tiny_mask) (PosInt 1) 1%Z tiny_stack_out 1 3 4
       eq_refl eq_refl _ eq_refl _))))).
  - vm_compute. reflexivity.
  - lia.
Defined.

Lemma norms_are_mean_centred_witness :
  shape (QwenRMSNorm_forward (QwenRMSNorm_init 4 1%Z) tiny_hidden) = [1; 3; 4]
  /\ shape (QwenHeadNorm_forward (QwenHeadNorm_init 4 1%Z) tiny_hidden) = [1; 3; 4].
Proof.
  destruct (@norms_are_mean_centred Z ZScalar (QwenRMSNorm_init 4 1%Z)
              (QwenHeadNorm_init 4 1%Z) tiny_hidden [0; 1; 2]
              ltac:(discriminate) ltac:(bounds))
    as (_ & _ & S1 & S2 & _).
  split; [exact S1 | exact S2].
Defined.

Lemma vector_fs_has_directory : vector_fs "ckpt"%string <> None.
Proof. discriminate. Qed.

(** The directory exists, the stack would report keys, yet the load neither
    returns [True] nor [False]: reshaping the vector raises. *)
Lemma load_raises_on_vector_projection :
  vector_fs "ckpt"%string <> None
  /\ QwenForCausalLM_load_pretrained_weights tiny_model vector_fs "ckpt"%string
     = ([], Raise IndexError)
  /\ forall b m,
       snd (QwenForCausalLM_load_pretrained_weights tiny_model vector_fs "ckpt"%string)
       <> Ok (b, m).
Proof.
  assert (E : QwenForCausalLM_load_pretrained_weights tiny_model vector_fs "ckpt"%string
              = ([], Raise IndexError)) by (vm_compute; reflexivity).
  split; [discriminate|]. split; [exact E|].
  intros b m. rewrite E. discriminate.
Qed.

Lemma tiny_checkpoint_fits :
  checkpoint_fits tiny_config (model tiny_model)
    (read_checkpoint [("config.json"%string, []);
                      ("model.safetensors"%string, tiny_checkpoint)]).
Proof.
  split; [|split].
  - vm_compute.
    repeat (constructor;
            [ intros _ Hp;
              first [ discriminate Hp | do 2 eexists; reflexivity ] | ]).
    constructor.
  - vm_compute. reflexivity.
  - intros W HW. vm_compute in HW. injection HW as <-. reflexivity.
Defined.

Lemma tiny_head_as_built : head_shards_as_built tiny_config tiny_model.
Proof. split; [reflexivity|]. eexists. split; reflexivity. Defined.

Lemma load_reports_outcome_witness :
  exists out m,
    QwenForCausalLM_load_pretrained_weights tiny_model tiny_fs "ckpt"%string
    = (out, Ok (true, m)).
Proof.
  destruct (proj2 (@load_reports_outcome Z ZScalar tiny_config tiny_model
                     tiny_fs "ckpt"%string tiny_head_as_built)
              _ eq_refl tiny_checkpoint_fits)
    as (out & b & m & E & Hb & _).
  assert (Et : b = true).
  { apply Hb. split; [|split].
    - vm_compute. reflexivity.
    - vm_compute. reflexivity.
    - eexists. vm_compute. reflexivity. }
  subst b. exists out, m. exact E.
Defined.

Lemma rotary_tables_and_lookup_witness :
  exists cos sin,
    QwenRotaryEmbedding_forward (QwenRotaryEmbedding_init tiny_config)
      tiny_hidden (Some tiny_pos) = Ok (cos, sin)
    /\ shape cos = [1; 3; 2] /\ shape sin = [1; 3; 2].
Proof.
  destruct (@rotary_tables_and_lookup Z ZScalar tiny_config 1 tiny_hidden
              tiny_pos 3 eq_refl (or_introl eq_refl) eq_refl
              ltac:(repeat constructor; cbn; lia))
    as (_ & _ & (cos & sin & E & Sc & Ss & _) & _).
  exists cos, sin. repeat split; assumption.
Defined.

Lemma tiny_shards_accept :
  Forall (fun c : Conv2d Z => in_channels c = 4 /\ 0 < out_channels c)
    (map (fun i => Conv2d_init tiny_init 4 (split_size 16 17 i)) (seq 0 16)).
Proof. repeat constructor; cbn; lia. Defined.

Lemma module_constants_select_16way_witness :
  exists t,
    QwenForCausalLM_forward tiny_model tiny_ids None tiny_pos (Some tiny_mask)
      (PosInt 1) false = Ok (Logits t)
    /\ shape t = [1; 1; 17]
    /\ dtype_of t = Float16.
Proof.
  destruct (@module_constants_select_16way Z ZScalar tiny_init tiny_config false
              tiny_model
              (map (fun i => Conv2d_init tiny_init 4 (split_size 16 17 i)) (seq 0 16))
              tiny_ids None tiny_pos (Some tiny_mask) (PosInt 1) false
              eq_refl eq_refl eq_refl)
    as (_ & _ & _ & _ & _ & _ & _ & X).
  destruct (X tiny_stack_out tiny_stack_row 1 1 4
              eq_refl ltac:(vm_compute; reflexivity) ltac:(vm_compute; reflexivity)
              eq_refl) as [Y _].
  destruct (Y (conj Nat.lt_0_1 tiny_shards_accept)) as (t & E & St & Dt & _).
  exists t. split; [exact E|]. split; [exact St | exact Dt].
Defined.

(** Built with the default [enable_coreml=False] over five tokens, the
    model accepts the call and its stack returns, yet [forward] returns no
    logits tensor: the shards without rows raise. *)
Lemma forward_raises_on_small_vocabulary :
  enable_coreml small_model = false
  /\ forward_checks tiny_ids tiny_pos false = Ok tt
  /\ (exists hs,
        QwenModel_forward (model small_model) tiny_ids (Some tiny_mask)
          (Some tiny_pos) (PosInt 1) false = Ok hs)
  /\ QwenForCausalLM_forward small_model tiny_ids None tiny_pos (Some tiny_mask)
       (PosInt 1) false = Raise RuntimeError
  /\ forall t,
       QwenForCausalLM_forward small_model tiny_ids None tiny_pos (Some tiny_mask)
         (PosInt 1) false <> Ok (Logits t).
Proof.
  assert (E : QwenForCausalLM_forward small_model tiny_ids None tiny_pos
                (Some tiny_mask) (PosInt 1) false = Raise RuntimeError)
    by (vm_compute; reflexivity).
  split; [reflexivity|]. split; [reflexivity|].
  split; [eexists; vm_compute; reflexivity|].
  split; [exact E|].
  intros t. rewrite E. discriminate.
Qed.

(* ------------------------------------------------------------------------- *)
(** ** Operators on the last axis *)
(* ------------------------------------------------------------------------- *)

Lemma set_nth_last {B : Type} (pre : list B) (v d : B) :
  set_nth (length pre) v (pre ++ [d]) = pre ++ [v].
Proof.
  unfold set_nth. rewrite firstn_app, firstn_all, Nat.sub_diag.
  rewrite skipn_all2 by (rewrite length_app; simpl; lia).
  simpl. now rewrite app_nil_r.
Qed.

Lemma nth_last_axis (pre : list nat) (d : nat) : nth (length pre) (pre ++ [d]) 0 = d.
Proof. now rewrite nth_middle. Qed.

Section LastAxis.
Context {A : Type}.
Variable pad : A.

Lemma narrow_last_shape (t : tensor A) pre D a n :
  shape t = pre ++ [D] ->
  shape (narrow pad (length pre) a n t) = pre ++ [n].
Proof. intros Ht. unfold narrow. cbn [shape tabulate]. now rewrite Ht, set_nth_last. Qed.

Lemma narrow_last_get (t : tensor A) pre D a n ip j :
  shape t = pre ++ [D] -> in_bounds pre ip -> j < n ->
  tget pad (narrow pad (length pre) a n t) (ip ++ [j]) = tget pad t (ip ++ [a + j]).
Proof.
  intros Ht Hb Hj. unfold narrow.
  rewrite tget_tabulate
    by (rewrite Ht, set_nth_last; now apply in_bounds_snoc).
  rewrite <- (in_bounds_length Hb).
  now rewrite nth_last_axis, set_nth_last.
Qed.

Lemma slice_last (t : tensor A) pre D a b :
  shape t = pre ++ [D] -> a <= b -> b <= D ->
  slice pad (length pre) a b t = narrow pad (length pre) a (b - a) t.
Proof.
  intros Ht Hab HbD. unfold slice. rewrite Ht, nth_last_axis.
  now rewrite (Nat.min_l a D), (Nat.min_l b D) by lia.
Qed.

Lemma cat_last2_shape (a b : tensor A) pre n1 n2 :
  shape a = pre ++ [n1] -> shape b = pre ++ [n2] ->
  shape (cat pad (length pre) [a; b]) = pre ++ [n1 + n2].
Proof.
  intros Ha Hb. unfold cat. cbn [map shape tabulate].
  rewrite Ha, Hb, !nth_last_axis, set_nth_last.
  cbn [sum_list fold_right]. now rewrite Nat.add_0_r.
Qed.

Lemma cat_last2_get (a b : tensor A) pre n1 n2 ip j :
  shape a = pre ++ [n1] -> shape b = pre ++ [n2] ->
  in_bounds pre ip -> j < n1 + n2 ->
  tget pad (cat pad (length pre) [a; b]) (ip ++ [j])
  = if j <? n1 then tget pad a (ip ++ [j]) else tget pad b (ip ++ [j - n1]).
Proof.
  intros Ha Hb Hin Hj. unfold cat. cbn [map].
  rewrite Ha, Hb, !nth_last_axis, set_nth_last.
  cbn [sum_list fold_right].
  rewrite tget_tabulate by (apply in_bounds_snoc; [exact Hin | lia]).
  rewrite <- (in_bounds_length Hin), nth_last_axis.
  cbn [locate].
  destruct (Nat.ltb_spec j n1) as [Hlt|Hge].
  - cbn [nth]. now rewrite set_nth_last.
  - destruct (Nat.ltb_spec (j - n1) n2) as [_|?]; [|lia].
    cbn [nth]. now rewrite set_nth_last.
Qed.

End LastAxis.

(* ------------------------------------------------------------------------- *)
(** ** [rotate_half] *)
(* ------------------------------------------------------------------------- *)

Section RotateHalf.
Context {F : Type} `{Scalar F}.

Lemma rotate_half_parts (x : tensor F) pre D :
  shape x = pre ++ [D] ->
  rotate_half x
  = cat fzero (length pre)
      [map_t fneg (narrow fzero (length pre) (D / 2) (D - D / 2) x);
       narrow fzero (length pre) 0 (D / 2) x].
Proof.
  intros Hx. unfold rotate_half, ndim.
  rewrite Hx, length_app, last_last. cbn [length].
  replace (length pre + 1 - 1) with (length pre) by lia.
  pose proof (Nat.Div0.div_le_upper_bound D 2 D ltac:(lia)) as Hle.
  rewrite (@slice_last _ fzero x pre D 0 (D / 2) Hx) by lia.
  rewrite (@slice_last _ fzero x pre D (D / 2) D Hx) by lia.
  now rewrite Nat.sub_0_r.
Qed.

Lemma rotate_half_shape_last (x : tensor F) pre D :
  shape x = pre ++ [D] -> shape (rotate_half x) = pre ++ [D].
Proof.
  intros Hx. rewrite (@rotate_half_parts x pre D Hx).
  pose proof (Nat.Div0.div_le_upper_bound D 2 D ltac:(lia)) as Hle.
  rewrite (@cat_last2_shape _ fzero _ _ pre (D - D / 2) (D / 2)).
  - f_equal. f_equal. lia.
  - cbn [map_t shape]. now apply narrow_last_shape with D.
  - now apply narrow_last_shape with D.
Qed.

Lemma rotate_half_dtype (x : tensor F) pre D :
  shape x = pre ++ [D] -> dtype_of (rotate_half x) = dtype_of x.
Proof. intros Hx. now rewrite (@rotate_half_parts x pre D Hx). Qed.

Lemma rotate_half_get (x : tensor F) pre D ip d :
  shape x = pre ++ [D] -> in_bounds pre ip -> d < D ->
  tget fzero (rotate_half x) (ip ++ [d])
  = if d <? D - D / 2
    then fneg (tget fzero x (ip ++ [D / 2 + d]))
    else tget fzero x (ip ++ [d - (D - D / 2)]).
Proof.
  intros Hx Hin Hd. rewrite (@rotate_half_parts x pre D Hx).
  pose proof (Nat.Div0.div_le_upper_bound D 2 D ltac:(lia)) as Hle.
  rewrite (@cat_last2_get _ fzero _ _ pre (D - D / 2) (D / 2));
    [ | cbn [map_t shape]; now apply narrow_last_shape with D
      | now apply narrow_last_shape with D | exact Hin | lia ].
  destruct (Nat.ltb_spec d (D - D / 2)) as [Hlt|Hge].
  - rewrite map_t_get.
    + now rewrite (@narrow_last_get _ fzero x pre D (D / 2) (D - D / 2) ip d Hx Hin Hlt).
    + apply tabulate_wf.
    + rewrite (@narrow_last_shape _ fzero x pre D (D / 2) (D - D / 2) Hx).
      now apply in_bounds_snoc.
  - rewrite (@narrow_last_get _ fzero x pre D 0 (D / 2) ip (d - (D - D / 2)) Hx Hin) by lia.
    reflexivity.
Qed.

(** X1.  [rotate_half] on any tensor with a last axis of [D] entries: the shape
    and dtype are kept; the first [D - D//2] entries of every vector are the
    negated entries from [D//2] on, the remaining ones are the entries from
    the start. *)
Theorem rotate_half_swaps_halves
    (x : tensor F) (pre ip : list nat) (D d : nat) :
  shape x = pre ++ [D] ->
  in_bounds pre ip ->
  d < D ->
  shape (rotate_half x) = pre ++ [D]
  /\ dtype_of (rotate_half x) = dtype_of x
  /\ tget fzero (rotate_half x) (ip ++ [d])
     = if d <? D - D / 2
       then fneg (tget fzero x (ip ++ [D / 2 + d]))
       else tget fzero x (ip ++ [d - (D - D / 2)]).
Proof.
  intros Hx Hin Hd. split; [|split].
  - now apply rotate_half_shape_last.
  - now apply rotate_half_dtype with pre D.
  - exact (@rotate_half_get x pre D ip d Hx Hin Hd).
Qed.

(** X2.  On an even last axis rotating twice negates every entry: no other
    arithmetic is involved. *)
Theorem rotate_half_twice_negates (x : tensor F) (pre : list nat) (h : nat) :
  shape x = pre ++ [2 * h] ->
  wf x ->
  rotate_half (rotate_half x) = map_t fneg x.
Proof.
  intros Hx Hwf.
  pose proof (@rotate_half_shape_last x pre _ Hx) as Hr.
  assert (Hh : (2 * h) / 2 = h) by (rewrite Nat.mul_comm; apply Nat.div_mul; lia).
  apply (tensor_ext fzero).
  - rewrite (@rotate_half_parts _ pre _ Hr). apply tabulate_wf.
  - unfold wf, map_t. cbn [data shape]. now rewrite length_map.
  - now rewrite (@rotate_half_shape_last _ pre _ Hr).
  - now rewrite (@rotate_half_dtype _ pre _ Hr), (@rotate_half_dtype _ pre _ Hx).
  - intros idx Hb. rewrite (@rotate_half_shape_last _ pre _ Hr) in Hb.
    pose proof Hb as Hb0.
    apply in_bounds_snoc_inv in Hb as (ip & d & -> & Hin & Hd).
    rewrite (@rotate_half_get _ pre _ ip d Hr Hin Hd).
    rewrite map_t_get by (try exact Hwf; now rewrite Hx).
    rewrite Hh. replace (2 * h - h) with h by lia.
    destruct (Nat.ltb_spec d h) as [Hlt|Hge].
    + rewrite (@rotate_half_get _ pre _ ip _ Hx Hin) by lia.
      rewrite Hh. replace (2 * h - h) with h by lia.
      destruct (Nat.ltb_spec (h + d) h) as [?|_]; [lia|].
      now replace (h + d - h) with d by lia.
    + rewrite (@rotate_half_get _ pre _ ip _ Hx Hin) by lia.
      rewrite Hh. replace (2 * h - h) with h by lia.
      destruct (Nat.ltb_spec (d - h) h) as [_|?]; [|lia].
      now replace (h + (d - h)) with d by lia.
Qed.

End RotateHalf.

(* ------------------------------------------------------------------------- *)
(** ** [apply_rotary_pos_emb] *)
(* ------------------------------------------------------------------------- *)

Lemma pick_index (n i : nat) : i < n -> (if n =? 1 then 0 else i) = i.
Proof. intros Hi. destruct (Nat.eqb_spec n 1); lia. Qed.

Section RotaryRotation.
Context {F : Type} `{Scalar F}.

Lemma zip_same_get (op : F -> F -> F) (a b : tensor F) s idx :
  shape a = s -> shape b = s -> in_bounds s idx ->
  tget fzero (zip_t op a b) idx = op (tget fzero a idx) (tget fzero b idx).
Proof.
  intros Ha Hb Hin. unfold zip_t. rewrite Ha, Hb.
  assert (Hs : bshape s s = s)
    by (unfold bshape; now rewrite bshape_rev_same, rev_involutive).
  rewrite Hs, tget_tabulate by exact Hin.
  now rewrite (bcast_index_same Hin).
Qed.

Lemma zip_same_shape (op : F -> F -> F) (a b : tensor F) s :
  shape a = s -> shape b = s -> shape (zip_t op a b) = s.
Proof.
  intros Ha Hb. unfold zip_t. cbn [shape tabulate]. rewrite Ha, Hb.
  unfold bshape. now rewrite bshape_rev_same, rev_involutive.
Qed.

(** A [B, N, S, D] tensor times a [1, S, D] table put on a head axis. *)
Lemma mul_table_get (x c : tensor F) B N S D b n s d :
  shape x = [B; N; S; D] -> shape c = [1; S; D] ->
  b < B -> n < N -> s < S -> d < D ->
  tget fzero (mul_t x (unsqueeze 1 c)) [b; n; s; d]
  = fmul (tget fzero x [b; n; s; d]) (tget fzero c [0; s; d]).
Proof.
  intros Hx Hc Hb Hn Hs Hd. unfold mul_t, zip_t, unsqueeze.
  cbn [shape view]. rewrite Hx, Hc. cbn [firstn skipn app].
  rewrite bshape4_row, tget_tabulate by bounds.
  rewrite bcast_index_same by bounds.
  unfold bcast_index. cbn [length Nat.sub skipn combine map fst snd Nat.eqb].
  rewrite (pick_index Hs), (pick_index Hd).
  f_equal. apply tget_view. rewrite Hc. cbn [ravel numel]. lia.
Qed.

Lemma mul_table_shape (x c : tensor F) B N S D :
  shape x = [B; N; S; D] -> shape c = [1; S; D] ->
  shape (mul_t x (unsqueeze 1 c)) = [B; N; S; D].
Proof.
  intros Hx Hc. unfold mul_t, zip_t, unsqueeze. cbn [shape tabulate view].
  rewrite Hx, Hc. cbn [firstn skipn app]. apply bshape4_row.
Qed.

Lemma rotate_half_get4 (x : tensor F) B N S h b n s d :
  shape x = [B; N; S; 2 * h] -> b < B -> n < N -> s < S -> d < 2 * h ->
  tget fzero (rotate_half x) [b; n; s; d]
  = if d <? h then fneg (tget fzero x [b; n; s; h + d])
    else tget fzero x [b; n; s; d - h].
Proof.
  intros Hx Hb Hn Hs Hd.
  assert (Hh : (2 * h) / 2 = h) by (rewrite Nat.mul_comm; apply Nat.div_mul; lia).
  pose proof (@rotate_half_get _ _ x [B; N; S] (2 * h) [b; n; s] d Hx
                ltac:(bounds) Hd) as E.
  cbn [app] in E. rewrite E, Hh.
  now replace (2 * h - h) with h by lia.
Qed.

Lemma rotated_get (x cos sin : tensor F) B N S h b n s d :
  shape x = [B; N; S; 2 * h] ->
  shape cos = [1; S; 2 * h] -> shape sin = [1; S; 2 * h] ->
  b < B -> n < N -> s < S -> d < 2 * h ->
  tget fzero (add_t (mul_t x (unsqueeze 1 cos))
                    (mul_t (rotate_half x) (unsqueeze 1 sin))) [b; n; s; d]
  = rope_rotate x cos sin h b n s d.
Proof.
  intros Hx Hc Hs Hb Hn Hsq Hd.
  pose proof (@rotate_half_shape _ _ x B N S (2 * h) Hx) as Hr.
  unfold add_t.
  rewrite (@zip_same_get fadd _ _ [B; N; S; 2 * h] [b; n; s; d]);
    [ | now apply mul_table_shape | now apply mul_table_shape | bounds ].
  rewrite (@mul_table_get x cos B N S (2 * h) b n s d Hx Hc) by assumption.
  rewrite (@mul_table_get (rotate_half x) sin B N S (2 * h) b n s d Hr Hs) by assumption.
  rewrite (@rotate_half_get4 x B N S h b n s d Hx) by assumption.
  unfold rope_rotate. now destruct (d <? h).
Qed.

(** X3.  [apply_rotary_pos_emb] on queries and keys [B, N, S, 2h] with tables
    [1, S, 2h]: shapes are kept, and every entry is rotated with its
    partner half a vector away, by the table row of its own position, the
    same for every batch entry and head; the key result does not depend on
    the query and conversely. *)
Theorem rotary_rotation_pairs_halves
    (q k cos sin : tensor F) (B N S h b n s d : nat) :
  shape q = [B; N; S; 2 * h] ->
  shape k = [B; N; S; 2 * h] ->
  shape cos = [1; S; 2 * h] ->
  shape sin = [1; S; 2 * h] ->
  b < B -> n < N -> s < S -> d < 2 * h ->
  let qk := apply_rotary_pos_emb q k cos sin in
  shape (fst qk) = [B; N; S; 2 * h]
  /\ shape (snd qk) = [B; N; S; 2 * h]
  /\ tget fzero (fst qk) [b; n; s; d] = rope_rotate q cos sin h b n s d
  /\ tget fzero (snd qk) [b; n; s; d] = rope_rotate k cos sin h b n s d.
Proof.
  intros Hq Hk Hc Hs Hb Hn Hsq Hd qk. unfold qk, apply_rotary_pos_emb.
  cbn [fst snd].
  split; [now apply rotated_shape|].
  split; [now apply rotated_shape|].
  split; now apply rotated_get with B N S.
Qed.

End RotaryRotation.

(* ------------------------------------------------------------------------- *)
(** ** Indices out of range *)
(* ------------------------------------------------------------------------- *)

Lemma strict_index_cases n i :
  ((0 <= i < Z.of_nat n)%Z /\ strict_index n i = Ok (Z.to_nat i))
  \/ (~ (0 <= i < Z.of_nat n)%Z /\ strict_index n i = Raise IndexError).
Proof.
  unfold strict_index.
  destruct (Z.leb_spec 0 i), (Z.ltb_spec i (Z.of_nat n)); cbn [andb];
    [left | right | right | right]; split; auto; lia.
Qed.

Lemma mapM_strict_outside n (ids : list Z) :
  Exists (fun i => ~ (0 <= i < Z.of_nat n)%Z) ids ->
  mapM (strict_index n) ids = Raise IndexError.
Proof.
  induction 1 as [i ids Hi | i ids _ IH]; cbn [mapM].
  - destruct (strict_index_cases n i) as [[Hin _]|[_ ->]]; [contradiction|].
    reflexivity.
  - destruct (strict_index_cases n i) as [[_ ->]|[_ ->]]; cbn [bind];
      [now rewrite IH | reflexivity].
Qed.

Lemma mapM_strict_inside n (ids : list Z) :
  Forall (fun i => (0 <= i < Z.of_nat n)%Z) ids ->
  mapM (strict_index n) ids = Ok (map Z.to_nat ids).
Proof.
  induction 1 as [|i ids Hi _ IH]; cbn [mapM map]; [reflexivity|].
  now rewrite (strict_index_in_range _ Hi), IH.
Qed.

Lemma select_index_cases n i :
  ((0 <= i < Z.of_nat n)%Z /\ select_index n i = Ok (Z.to_nat i))
  \/ (~ (0 <= i < Z.of_nat n)%Z /\ select_index n i = Raise RuntimeError).
Proof.
  unfold select_index.
  destruct (Z.leb_spec 0 i), (Z.ltb_spec i (Z.of_nat n)); cbn [andb];
    [left | right | right | right]; split; auto; lia.
Qed.

Lemma mapM_select_outside n (ids : list Z) :
  Exists (fun i => ~ (0 <= i < Z.of_nat n)%Z) ids ->
  mapM (select_index n) ids = Raise RuntimeError.
Proof.
  induction 1 as [i ids Hi | i ids _ IH]; cbn [mapM].
  - destruct (select_index_cases n i) as [[Hin _]|[_ ->]]; [contradiction|].
    reflexivity.
  - destruct (select_index_cases n i) as [[_ ->]|[_ ->]]; cbn [bind];
      [now rewrite IH | reflexivity].
Qed.

Section OutOfRange.
Context {F : Type} `{Scalar F}.

Lemma embedding_outside (table : tensor F) (ids : tensor Z) V H0 :
  shape table = [V; H0] ->
  Exists (fun t => ~ (0 <= t < Z.of_nat V)%Z) (data ids) ->
  Embedding_forward table ids = Raise IndexError.
Proof.
  intros Ht Hex. unfold Embedding_forward. rewrite Ht. cbn [nth].
  now rewrite (@mapM_strict_outside _ _ Hex).
Qed.

(** X4.  A token id outside [0, vocab_size), negative ids included, makes the
    decoder stack raise [IndexError] at the embedding, before any layer
    runs; [forward] passes the error on once its own checks have passed. *)
Theorem token_outside_vocabulary_raises
    (fl : flags) (self : QwenForCausalLM F) (input_ids : tensor Z)
    (update_mask : option (tensor F)) (position_ids : tensor Z)
    (causal_mask : option (tensor F)) (cp : pos_arg) (pf : bool) (V H0 : nat) :
  shape (embed_tokens (model self)) = [V; H0] ->
  Exists (fun t => ~ (0 <= t < Z.of_nat V)%Z) (data input_ids) ->
  (forall pos, QwenModel_forward (model self) input_ids causal_mask pos cp pf
               = Raise IndexError)
  /\ (forward_checks input_ids position_ids pf = Ok tt ->
      QwenForCausalLM_forward_under fl self input_ids update_mask position_ids
        causal_mask cp pf = Raise IndexError).
Proof.
  intros Ht Hex.
  assert (E : forall pos, QwenModel_forward (model self) input_ids causal_mask
                            pos cp pf = Raise IndexError).
  { intros pos. unfold QwenModel_forward.
    now rewrite (@embedding_outside _ input_ids V H0 Ht Hex). }
  split; [exact E|].
  intros Hchk. unfold QwenForCausalLM_forward_under. now rewrite Hchk, E.
Qed.

Lemma index_select_outside (hs : tensor F) (ix : tensor Z) B S H0 :
  shape hs = [B; S; H0] -> ndim ix <= 1 ->
  Exists (fun p => ~ (0 <= p < Z.of_nat S)%Z) (data ix) ->
  index_select fzero 1 hs ix = Raise RuntimeError.
Proof.
  intros Hs Hnd Hex. unfold index_select.
  destruct (Nat.ltb_spec 1 (ndim ix)) as [?|_]; [lia|].
  rewrite Hs. cbn [nth]. now rewrite (@mapM_select_outside _ _ Hex).
Qed.

Lemma extract_position_outside (hs : tensor F) cp p B S H0 :
  pos_index cp = Some p -> shape hs = [B; S; H0] ->
  ~ (0 <= p < Z.of_nat S)%Z ->
  extract_position hs cp false = Raise RuntimeError.
Proof.
  intros Hcp Hs Hp. destruct cp as [|q|t]; simpl in Hcp; try discriminate.
  - injection Hcp as ->. cbn [extract_position negb].
    apply index_select_outside with B S H0; auto. now constructor.
  - cbn [extract_position negb].
    destruct t as [st dt xs]. simpl in Hcp.
    destruct st as [|[|[|n]] [|? ?]]; try discriminate;
      destruct xs as [|x [|? ?]]; try discriminate;
      injection Hcp as ->; cbn [ndim shape length Nat.ltb Nat.leb];
      apply index_select_outside with B S H0; auto; now constructor.
Qed.

(** X5.  Outside prefill, a current position that is not an index of the
    sequence, a negative one included (nothing wraps around), makes
    [forward] raise the [RuntimeError] of [torch.index_select] after the
    stack has run: no logits are produced. *)
Theorem decode_position_outside_sequence_raises
    (fl : flags) (self : QwenForCausalLM F) (input_ids : tensor Z)
    (update_mask : option (tensor F)) (position_ids : tensor Z)
    (causal_mask : option (tensor F)) (cp : pos_arg)
    (p : Z) (hs : tensor F) (B S H0 : nat) :
  pos_index cp = Some p ->
  forward_checks input_ids position_ids false = Ok tt ->
  QwenModel_forward (model self) input_ids causal_mask (Some position_ids)
                    cp false = Ok hs ->
  shape hs = [B; S; H0] ->
  ~ (0 <= p < Z.of_nat S)%Z ->
  extract_position hs cp false = Raise RuntimeError
  /\ QwenForCausalLM_forward_under fl self input_ids update_mask position_ids
       causal_mask cp false = Raise RuntimeError.
Proof.
  intros Hcp Hchk Hstack Hs Hp.
  assert (E : extract_position hs cp false = Raise RuntimeError)
    by (now apply extract_position_outside with p B S H0).
  split; [exact E|].
  unfold QwenForCausalLM_forward_under. rewrite Hchk, Hstack. cbn [bind].
  now rewrite E.
Qed.

End OutOfRange.

(* ------------------------------------------------------------------------- *)
(** ** The feed-forward block *)
(* ------------------------------------------------------------------------- *)

Section FeedForward.
Context {F : Type} `{Scalar F}.

Lemma to_wf dt (t : tensor F) : wf t -> wf (to dt t).
Proof. unfold wf, to, to_dtype. cbn [data shape]. now rewrite length_map. Qed.

Lemma map_t_wf (f : F -> F) (t : tensor F) : wf t -> wf (map_t f t).
Proof. unfold wf, map_t. cbn [data shape]. now rewrite length_map. Qed.

(** The block is its down projection applied to the gated units. *)
Lemma mlp_as_projection (self : QwenMLP F) (x : tensor F) :
  mlp_value self x
  = shard_value
      (let x4 := unsqueeze 2 (permute fzero [0; 2; 1] (to MODEL_DTYPE x)) in
       mul_t (map_t fsilu (pointwise_conv (gate_proj self) x4))
             (pointwise_conv (up_proj self) x4))
      (down_proj self).
Proof. reflexivity. Qed.

Lemma mlp_units_shape (self : QwenMLP F) (x : tensor F) B S H0 :
  mlp_dims_ok self H0 -> shape x = [B; S; H0] ->
  let x4 := unsqueeze 2 (permute fzero [0; 2; 1] (to MODEL_DTYPE x)) in
  shape (mul_t (map_t fsilu (pointwise_conv (gate_proj self) x4))
               (pointwise_conv (up_proj self) x4))
  = [B; out_channels (gate_proj self); 1; S].
Proof.
  intros (_ & _ & Huo & _ & _) Hx x4.
  assert (Hx4 : shape x4 = [B; H0; 1; S])
    by (apply conv_input_shape with (x := to MODEL_DTYPE x); exact Hx).
  apply zip_same_shape.
  - cbn [map_t shape]. now rewrite (conv_forward_shape (gate_proj self) x4 Hx4).
  - now rewrite (conv_forward_shape (up_proj self) x4 Hx4), Huo.
Qed.

Lemma mlp_units_get (self : QwenMLP F) (x : tensor F) B S H0 b s i :
  mlp_dims_ok self H0 -> shape x = [B; S; H0] -> wf x ->
  b < B -> s < S -> i < out_channels (gate_proj self) ->
  let x4 := unsqueeze 2 (permute fzero [0; 2; 1] (to MODEL_DTYPE x)) in
  tget fzero (mul_t (map_t fsilu (pointwise_conv (gate_proj self) x4))
                    (pointwise_conv (up_proj self) x4)) [b; i; 0; s]
  = gated_unit self x b s i.
Proof.
  intros (Hgi & Hui & Huo & _ & _) Hx Hwf Hb Hs Hi x4.
  assert (Hx4 : shape x4 = [B; H0; 1; S])
    by (apply conv_input_shape with (x := to MODEL_DTYPE x); exact Hx).
  assert (Hrow : forall c, c < H0 ->
            tget fzero x4 [b; c; 0; s] = cast MODEL_DTYPE (tget fzero x [b; s; c])).
  { intros c Hc. unfold x4.
    rewrite (@conv_input_get _ _ (to MODEL_DTYPE x) B S H0 b c s Hx Hb Hc Hs).
    apply tget_to; [exact Hwf | rewrite Hx; bounds]. }
  unfold mul_t.
  rewrite (@zip_same_get _ _ fmul _ _ [B; out_channels (gate_proj self); 1; S]
             [b; i; 0; s]);
    [ | cbn [map_t shape]; now rewrite (conv_forward_shape (gate_proj self) x4 Hx4)
      | now rewrite (conv_forward_shape (up_proj self) x4 Hx4), Huo
      | bounds ].
  rewrite map_t_get;
    [ | apply tabulate_wf
      | rewrite (conv_forward_shape (gate_proj self) x4 Hx4); bounds ].
  rewrite (@conv_forward_get _ _ (gate_proj self) x4 B H0 S b i s Hx4 Hb Hi Hs).
  rewrite (@conv_forward_get _ _ (up_proj self) x4 B H0 S b i s Hx4 Hb
             ltac:(rewrite Huo; exact Hi) Hs).
  unfold gated_unit. rewrite Hgi, Hui. cbv zeta.
  f_equal; [f_equal|]; f_equal; apply map_ext_in; intros c Hc;
    apply in_seq in Hc; f_equal; apply Hrow; lia.
Qed.

(** The three projections accept their inputs when the gate and the down
    projection have output channels. *)
Lemma mlp_returns (self : QwenMLP F) (x : tensor F) B S H0 :
  mlp_dims_ok self H0 ->
  0 < out_channels (gate_proj self) -> 0 < H0 -> 0 < S ->
  shape x = [B; S; H0] ->
  QwenMLP_forward self x = Ok (mlp_value self x).
Proof.
  intros Hd Hg HH HS Hx.
  pose proof (@mlp_units_shape self x B S H0 Hd Hx) as Hu.
  destruct Hd as (Hgi & Hui & Huo & Hdi & Hdo).
  assert (Hx4 : shape (unsqueeze 2 (permute fzero [0; 2; 1] (to MODEL_DTYPE x)))
                = [B; H0; 1; S])
    by (apply conv_input_shape with (x := to MODEL_DTYPE x); exact Hx).
  unfold QwenMLP_forward. cbv zeta in *.
  rewrite (@conv_forward_ok _ _ (gate_proj self) _ B S)
    by (rewrite ?Hgi; first [exact Hx4 | exact HS | exact Hg]).
  cbn [bind].
  rewrite (@conv_forward_ok _ _ (up_proj self) _ B S)
    by (rewrite ?Hui, ?Huo; first [exact Hx4 | exact HS | exact Hg]).
  cbn [bind].
  rewrite (@conv_forward_ok _ _ (down_proj self) _ B S)
    by (rewrite ?Hdi, ?Hdo; first [exact Hu | exact HS | exact HH]).
  reflexivity.
Qed.

Lemma mlp_shape (self : QwenMLP F) (x : tensor F) B S H0 :
  mlp_dims_ok self H0 -> shape x = [B; S; H0] ->
  shape (mlp_value self x) = [B; S; H0]
  /\ dtype_of (mlp_value self x) = Float16
  /\ wf (mlp_value self x).
Proof.
  intros Hd Hx. pose proof (@mlp_units_shape self x B S H0 Hd Hx) as Hu.
  destruct Hd as (_ & _ & _ & _ & Hdo).
  rewrite mlp_as_projection. cbv zeta in *.
  split; [|split].
  - now rewrite (shard_value_shape (down_proj self) _ Hu), Hdo.
  - now rewrite (shard_value_dtype (down_proj self) _ Hu).
  - apply tabulate_wf.
Qed.

Lemma mlp_get (self : QwenMLP F) (x : tensor F) B S H0 b s o :
  mlp_dims_ok self H0 -> shape x = [B; S; H0] -> wf x ->
  b < B -> s < S -> o < H0 ->
  tget fzero (mlp_value self x) [b; s; o] = mlp_at self x b s o.
Proof.
  intros Hd Hx Hwf Hb Hs Ho. pose proof (@mlp_units_shape self x B S H0 Hd Hx) as Hu.
  pose proof Hd as (_ & _ & _ & Hdi & Hdo).
  rewrite mlp_as_projection. cbv zeta in *.
  rewrite (@shard_value_get _ _ (down_proj self) _ B _ S b s o Hu Hb Hs
             ltac:(rewrite Hdo; exact Ho)).
  unfold mlp_at. apply f_equal. apply map_ext_in. intros i Hi.
  apply in_seq in Hi. f_equal.
  apply (@mlp_units_get self x B S H0 b s i Hd Hx Hwf Hb Hs). lia.
Qed.

(** X6.  The feed-forward block on hidden states [B, S, H], its gate
    projection having output channels: it returns a tensor of the same
    shape, in float16, and entry [(b, s, o)] is the down projection of the
    gated units [silu(gate . row) * (up . row)] computed from the float16
    copy of row [(b, s)] of the input. *)
Theorem mlp_is_gated_projection
    (self : QwenMLP F) (x : tensor F) (B S H0 b s o : nat) :
  mlp_dims_ok self H0 ->
  0 < out_channels (gate_proj self) ->
  shape x = [B; S; H0] ->
  wf x ->
  b < B -> s < S -> o < H0 ->
  exists y,
    QwenMLP_forward self x = Ok y
    /\ shape y = [B; S; H0]
    /\ dtype_of y = Float16
    /\ tget fzero y [b; s; o] = mlp_at self x b s o.
Proof.
  intros Hd Hg Hx Hwf Hb Hs Ho.
  destruct (@mlp_shape self x B S H0 Hd Hx) as (S1 & D1 & _).
  exists (mlp_value self x).
  split; [apply mlp_returns with B S H0; auto; lia|].
  split; [exact S1|]. split; [exact D1|].
  now apply mlp_get with B S H0.
Qed.

(** X7.  The feed-forward block mixes no tokens: two inputs that agree on the
    row of one token give the same output row for that token, whatever the
    other rows hold. *)
Theorem mlp_mixes_no_tokens
    (self : QwenMLP F) (x x' : tensor F) (B S H0 b s : nat) :
  mlp_dims_ok self H0 ->
  0 < out_channels (gate_proj self) ->
  0 < out_channels (down_proj self) ->
  shape x = [B; S; H0] -> shape x' = [B; S; H0] ->
  wf x -> wf x' ->
  b < B -> s < S ->
  (forall c, c < H0 -> tget fzero x [b; s; c] = tget fzero x' [b; s; c]) ->
  exists y y',
    QwenMLP_forward self x = Ok y
    /\ QwenMLP_forward self x' = Ok y'
    /\ forall o, o < H0 -> tget fzero y [b; s; o] = tget fzero y' [b; s; o].
Proof.
  intros Hd Hg Hdn Hx Hx' Hwf Hwf' Hb Hs Hrow.
  assert (HH : 0 < H0) by (destruct Hd as (_ & _ & _ & _ & <-); exact Hdn).
  exists (mlp_value self x), (mlp_value self x').
  split; [apply mlp_returns with B S H0; auto; lia|].
  split; [apply mlp_returns with B S H0; auto; lia|].
  intros o Ho.
  rewrite (@mlp_get self x B S H0 b s o) by assumption.
  rewrite (@mlp_get self x' B S H0 b s o) by assumption.
  pose proof Hd as (Hgi & Hui & _).
  unfold mlp_at. f_equal. apply map_ext_in. intros i _. f_equal.
  unfold gated_unit. rewrite Hgi, Hui. cbv zeta.
  f_equal; [f_equal|]; f_equal; apply map_ext_in; intros c Hc;
    apply in_seq in Hc; do 2 f_equal; apply Hrow; lia.
Qed.

End FeedForward.

(* ------------------------------------------------------------------------- *)
(** ** Rotary lookups at arbitrary position ids *)
(* ------------------------------------------------------------------------- *)

Lemma wrap_index_cases n i :
  ((- Z.of_nat n <= i < Z.of_nat n)%Z
   /\ wrap_index n i = Ok (Z.to_nat (i mod Z.of_nat n)))
  \/ (~ (- Z.of_nat n <= i < Z.of_nat n)%Z /\ wrap_index n i = Raise IndexError).
Proof.
  unfold wrap_index.
  destruct (Z.leb_spec 0 i), (Z.ltb_spec i (Z.of_nat n)); cbn [andb].
  - left. split; [lia|]. now rewrite Z.mod_small by lia.
  - right. destruct (Z.leb_spec (- Z.of_nat n) i), (Z.ltb_spec i 0); cbn [andb];
      split; auto; lia.
  - destruct (Z.leb_spec (- Z.of_nat n) i), (Z.ltb_spec i 0); cbn [andb];
      try lia.
    + left. split; [lia|]. do 2 f_equal.
      rewrite <- (Z.mod_add i 1 (Z.of_nat n)) by lia.
      rewrite Z.mul_1_l. symmetry. apply Z.mod_small. lia.
    + right. split; auto; lia.
  - lia.
Qed.

Lemma mapM_wrap_served n (ids : list Z) :
  Forall (fun p => (- Z.of_nat n <= p < Z.of_nat n)%Z) ids ->
  mapM (wrap_index n) ids
  = Ok (map (fun p => Z.to_nat (p mod Z.of_nat n)) ids).
Proof.
  induction 1 as [|p ids Hp _ IH]; cbn [mapM map]; [reflexivity|].
  destruct (wrap_index_cases n p) as [[_ ->]|[Hn _]]; [|contradiction].
  cbn [bind]. now rewrite IH.
Qed.


Section Lookup.
Context {F : Type} `{Scalar F}.

Lemma gather_served (t : tensor F) (ids : tensor Z) S M D :
  shape t = [1; M; D] ->
  shape ids = [S] -> length (data ids) = S ->
  Forall (fun p => (- Z.of_nat M <= p < Z.of_nat M)%Z) (data ids) ->
  exists g,
    gather_axis1 fzero t ids = Ok g
    /\ shape g = [1; S; D] /\ dtype_of g = dtype_of t /\ wf g
    /\ forall j d, j < S -> d < D ->
         tget fzero g [0; j; d]
         = tget fzero t [0; Z.to_nat (nth j (data ids) 0%Z mod Z.of_nat M); d].
Proof.
  intros Ht Hi Hlen Hall. unfold gather_axis1.
  rewrite Ht. cbn [nth]. rewrite (@mapM_wrap_served M (data ids) Hall). cbn [bind].
  eexists. split; [reflexivity|].
  unfold ndim. rewrite Hi. cbn [firstn skipn app length].
  split; [reflexivity|]. split; [reflexivity|]. split; [apply tabulate_wf|].
  intros j d Hj Hd. rewrite tget_tabulate by bounds.
  cbn [firstn skipn app ravel numel].
  rewrite Nat.mul_1_r, Nat.add_0_r.
  rewrite (nth_map_in _ _ 0%Z) by lia. reflexivity.
Qed.


(** A lookup the tables can serve returns a cosine and a sine table with
    one row per token, in the dtype of the caller's tensor. *)
Lemma lookup_served (rot : QwenRotaryEmbedding F) (x : tensor F)
    (pos : option (tensor Z)) S M D :
  shape (cos_cached rot) = [1; M; D] -> shape (sin_cached rot) = [1; M; D] ->
  2 <= ndim x ->
  nth 1 (shape x) 0 = S ->
  positions_served pos S M ->
  exists cos sin,
    QwenRotaryEmbedding_forward rot x pos = Ok (cos, sin)
    /\ shape cos = [1; S; D] /\ shape sin = [1; S; D]
    /\ dtype_of cos = dtype_of x /\ dtype_of sin = dtype_of x.
Proof.
  intros Hc Hs Hnd Hx Hpos. unfold QwenRotaryEmbedding_forward.
  destruct pos as [ids|].
  - destruct Hpos as (Hids & Hlen & Hall).
    destruct (@lookup_positions ids S Hids) as [Hps Hpd].
    set (pos_ids := if ndim ids =? 1 then ids else squeeze 0 ids) in *.
    destruct (@gather_served (cos_cached rot) pos_ids S M D Hc Hps
                ltac:(now rewrite Hpd) ltac:(now rewrite Hpd))
      as (gc & -> & Sgc & _).
    destruct (@gather_served (sin_cached rot) pos_ids S M D Hs Hps
                ltac:(now rewrite Hpd) ltac:(now rewrite Hpd))
      as (gs & -> & Sgs & _).
    cbn [bind]. eexists. eexists. split; [reflexivity|].
    repeat split; assumption.
  - cbn [positions_served] in Hpos.
    replace (ndim x <? 2) with false by (symmetry; apply Nat.ltb_ge; lia).
    rewrite Hx.
    destruct (@first_rows _ _ (cos_cached rot) S M D Hc) as (S1 & _).
    destruct (@first_rows _ _ (sin_cached rot) S M D Hs) as (S2 & _).
    rewrite (Nat.min_l S M) in S1, S2 by exact Hpos.
    eexists. eexists. split; [reflexivity|].
    repeat split; assumption.
Qed.

End Lookup.

(* ------------------------------------------------------------------------- *)
(** ** Shapes and precisions through the decoder stack *)
(* ------------------------------------------------------------------------- *)

Lemma promote_half_twice d : promote (promote d Float16) Float16 = promote d Float16.
Proof. now destruct d. Qed.

Section StackShapes.
Context {F : Type} `{Scalar F}.

Lemma repeat_kv_dtype (t : tensor F) n : dtype_of (repeat_kv t n) = dtype_of t.
Proof. unfold repeat_kv. now destruct (n =? 1). Qed.

Lemma head_norm_half (hn : QwenHeadNorm F) (t : tensor F) B N S D :
  shape t = [B; N; S; D] ->
  shape (QwenHeadNorm_forward hn t) = [B; N; S; D]
  /\ dtype_of (QwenHeadNorm_forward hn t) = Float16.
Proof.
  intros Ht.
  change (QwenHeadNorm_forward hn t)
    with (mean_centred_norm (hn_weight hn) (hn_eps hn) t).
  split; [now apply head_norm_shape | reflexivity].
Qed.

Lemma rms_norm_half (rms : QwenRMSNorm F) (t : tensor F) B S H0 :
  shape t = [B; S; H0] ->
  shape (QwenRMSNorm_forward rms t) = [B; S; H0]
  /\ dtype_of (QwenRMSNorm_forward rms t) = Float16
  /\ wf (QwenRMSNorm_forward rms t).
Proof.
  intros Ht.
  change (QwenRMSNorm_forward rms t)
    with (mean_centred_norm (rms_weight rms) (rms_eps rms) t).
  split; [|split].
  - rewrite <- Ht. apply (mean_centred_norm_shape (rms_weight rms) (rms_eps rms) t).
    rewrite Ht. discriminate.
  - reflexivity.
  - unfold mean_centred_norm. apply to_wf, tabulate_wf.
Qed.

Lemma rotated_dtype (q cos sin : tensor F) :
  dtype_of (add_t (mul_t q (unsqueeze 1 cos))
                  (mul_t (rotate_half q) (unsqueeze 1 sin)))
  = promote (promote (dtype_of q) (dtype_of cos))
            (promote (dtype_of q) (dtype_of sin)).
Proof.
  reflexivity.
Qed.

(** The attention block on float16 hidden states [B, S, H], with position
    ids its tables can serve and a mask that fits. *)
Lemma attention_returns (self : QwenAttention F) (x : tensor F)
    (mask : option (tensor F)) (pos : option (tensor Z)) (cp : pos_arg)
    B S H0 M :
  attention_dims_ok self H0 ->
  nth 1 (shape (cos_cached (rotary_emb self))) 0 = M ->
  0 < num_heads self ->
  0 < out_channels (o_proj self) ->
  shape x = [B; S; H0] -> dtype_of x = Float16 ->
  0 < B -> 0 < S ->
  positions_served pos S M ->
  match mask with
  | Some m => mask_fits m B (num_heads self) S
  | None => True
  end ->
  exists y,
    QwenAttention_forward self x mask pos cp = Ok y
    /\ shape y = [B; S; out_channels (o_proj self)]
    /\ dtype_of y = Float16.
Proof.
  intros Hdims HM HN Hoo Hx Hdt HB HS Hpos Hmask.
  pose proof Hdims as (Hqi & Hqo & Hki & Hko & Hvi & Hvo & Hoi & Hrep & HD
                       & Hcs & H0c & H2c & H3c).
  assert (HNkv : 0 < num_kv_heads self).
  { destruct (num_kv_heads self); [cbn in Hrep; lia | lia]. }
  set (N := num_heads self) in *. set (Nkv := num_kv_heads self) in *.
  set (D := att_head_dim self) in *.
  destruct (shape (cos_cached (rotary_emb self))) as [|c0 [|M' [|c2 [|? ?]]]] eqn:Ec;
    try discriminate.
  cbn [nth] in H0c, H2c, HM. subst c0 c2 M'. symmetry in Hcs.
  destruct (@lookup_served _ _ (rotary_emb self) x pos S M D Ec Hcs
              ltac:(unfold ndim; rewrite Hx; cbn; lia)
              ltac:(now rewrite Hx) Hpos)
    as (cos & sin & Elook & Scos & Ssin & Dcos & Dsin).
  pose proof (conv_input_shape x Hx) as Hx4.
  unfold QwenAttention_forward. rewrite Hx. cbn [nth]. fold N Nkv D.
  rewrite (@conv_forward_ok _ _ (q_proj self) _ B S)
    by (rewrite ?Hqi, ?Hqo; first [exact Hx4 | exact HS | nia]).
  cbn [bind].
  rewrite (@conv_forward_ok _ _ (k_proj self) _ B S)
    by (rewrite ?Hki, ?Hko; first [exact Hx4 | exact HS | nia]).
  cbn [bind].
  rewrite (@conv_forward_ok _ _ (v_proj self) _ B S)
    by (rewrite ?Hvi, ?Hvo; first [exact Hx4 | exact HS | nia]).
  cbn [bind].
  rewrite Elook. cbn [bind fst snd].
  unfold apply_rotary_pos_emb.
  set (hs := unsqueeze 2 (permute fzero [0; 2; 1] x)) in *.
  assert (Dhs : dtype_of hs = Float16) by exact Hdt.
  set (q0 := permute fzero [0; 1; 3; 2] (view [B; N; D; S] (pointwise_conv (q_proj self) hs))).
  set (k0 := permute fzero [0; 1; 3; 2] (view [B; Nkv; D; S] (pointwise_conv (k_proj self) hs))).
  set (v0 := permute fzero [0; 1; 3; 2] (view [B; Nkv; D; S] (pointwise_conv (v_proj self) hs))).
  assert (Sq0 : shape q0 = [B; N; S; D]) by reflexivity.
  assert (Sk0 : shape k0 = [B; Nkv; S; D]) by reflexivity.
  assert (Sv0 : shape v0 = [B; Nkv; S; D]) by reflexivity.
  assert (Dv0 : dtype_of v0 = Float16) by exact Dhs.
  pose proof (@repeat_kv_shape _ _ k0 B Nkv S D (N / Nkv) Sk0) as Sk1.
  pose proof (@repeat_kv_shape _ _ v0 B Nkv S D (N / Nkv) Sv0) as Sv1.
  rewrite Hrep in Sk1, Sv1.
  set (k1 := repeat_kv k0 (N / Nkv)) in *. set (v1 := repeat_kv v0 (N / Nkv)) in *.
  assert (Dv1 : dtype_of v1 = Float16)
    by (unfold v1; now rewrite repeat_kv_dtype).
  destruct (@head_norm_half (q_norm self) q0 B N S D Sq0) as [Sq2 Dq2].
  destruct (@head_norm_half (k_norm self) k1 B N S D Sk1) as [Sk2 Dk2].
  set (q2 := QwenHeadNorm_forward (q_norm self) q0) in *.
  set (k2 := QwenHeadNorm_forward (k_norm self) k1) in *.
  set (q3 := add_t (mul_t q2 _) _). set (k3 := add_t (mul_t k2 _) _).
  assert (Sq3 : shape q3 = [B; N; S; D]) by (now apply rotated_shape).
  assert (Sk3 : shape k3 = [B; N; S; D]) by (now apply rotated_shape).
  assert (Dq3 : dtype_of q3 = Float16).
  { unfold q3. rewrite (rotated_dtype q2 cos sin).
    now rewrite Dq2, Dcos, Dsin, Hdt. }
  assert (Dk3 : dtype_of k3 = Float16).
  { unfold k3. rewrite (rotated_dtype k2 cos sin).
    now rewrite Dk2, Dcos, Dsin, Hdt. }
  set (scores := scale_t (scale self) _).
  assert (Ssc : shape scores = [B; N; S; S])
    by (apply scores_shape with D; assumption).
  assert (Dsc : dtype_of scores = Float16).
  { unfold scores, scale_t, map_t, matmul, permute. cbn [dtype_of tabulate].
    now rewrite Dq3, Dk3. }
  set (weights := match mask with Some _ => _ | None => _ end).
  assert (Sw : shape weights = [B; N; S; S]).
  { unfold weights. destruct mask as [m|]; [|exact Ssc].
    now apply masked_shape. }
  assert (Dw : dtype_of weights = Float16).
  { unfold weights. destruct mask as [m|]; [|exact Dsc].
    unfold add_t, zip_t, to, to_dtype. cbn [dtype_of tabulate].
    now rewrite Dsc. }
  set (ctx := matmul (softmax_last weights) v1).
  assert (Sctx : shape ctx = [B; N; S; D])
    by (apply context_shape; assumption).
  assert (Dctx : dtype_of ctx = Float16).
  { unfold ctx, matmul, softmax_last. cbn [dtype_of tabulate]. now rewrite Dw, Dv1. }
  rewrite (@merge_heads_layout _ _ ctx B N S D Sctx HB HS).
  assert (Sm : shape (merge_heads ctx) = [B; S; N * D])
    by (unfold merge_heads; now rewrite Sctx).
  assert (Dm : dtype_of (merge_heads ctx) = Float16) by exact Dctx.
  pose proof (conv_input_shape (merge_heads ctx) Sm) as Hm4.
  rewrite (@conv_forward_ok _ _ (o_proj self) _ B S)
    by (rewrite ?Hoi; first [exact Hm4 | exact HS | exact Hoo]).
  cbn [bind].
  eexists. split; [reflexivity|].
  change (permute fzero [0; 2; 1]
            (squeeze 2 (pointwise_conv (o_proj self)
                          (unsqueeze 2 (permute fzero [0; 2; 1] (merge_heads ctx))))))
    with (shard_value (unsqueeze 2 (permute fzero [0; 2; 1] (merge_heads ctx)))
            (o_proj self)).
  split.
  - now rewrite (shard_value_shape (o_proj self) _ Hm4).
  - rewrite (shard_value_dtype (o_proj self) _ Hm4). exact Dm.
Qed.

(** One decoder layer keeps the shape of the hidden states; its result has
    the wider of the input's precision and float16. *)
Lemma layer_returns (l : QwenDecoderLayer F) (x : tensor F)
    (mask : option (tensor F)) (pos : option (tensor Z)) (cp : pos_arg)
    B S H0 M N :
  layer_dims_ok l H0 M N ->
  0 < H0 -> 0 < out_channels (gate_proj (mlp l)) ->
  shape x = [B; S; H0] ->
  0 < B -> 0 < S ->
  positions_served pos S M ->
  match mask with
  | Some m => mask_fits m B N S
  | None => True
  end ->
  exists y,
    QwenDecoderLayer_forward l x mask pos cp = Ok y
    /\ shape y = [B; S; H0]
    /\ dtype_of y = promote (dtype_of x) Float16.
Proof.
  intros (Hatt & Ho & HNeq & HM & _ & _ & Hmlp & _ & _ & _ & HN) HH Hg Hx HB HS
         Hpos Hmask.
  unfold QwenDecoderLayer_forward.
  destruct (@rms_norm_half (input_layernorm l) x B S H0 Hx) as (S1 & D1 & _).
  destruct (@attention_returns (self_attn l) _ mask pos cp B S H0 M
              Hatt HM ltac:(rewrite HNeq; exact HN) ltac:(rewrite Ho; exact HH)
              S1 D1 HB HS Hpos ltac:(rewrite HNeq; exact Hmask))
    as (y & -> & Sy & Dy).
  rewrite Ho in Sy. cbn [bind].
  set (h1 := add_t x y).
  assert (Sh1 : shape h1 = [B; S; H0]) by (now apply zip_same_shape).
  assert (Dh1 : dtype_of h1 = promote (dtype_of x) Float16)
    by (unfold h1, add_t, zip_t; cbn [dtype_of tabulate]; now rewrite Dy).
  destruct (@rms_norm_half (post_attention_layernorm l) h1 B S H0 Sh1)
    as (S2 & D2 & _).
  destruct (@mlp_shape _ _ (mlp l) _ B S H0 Hmlp S2) as (S3 & D3 & _).
  rewrite (@mlp_returns _ _ (mlp l) _ B S H0 Hmlp Hg HH HS S2). cbn [bind].
  eexists. split; [reflexivity|]. split.
  - now apply zip_same_shape.
  - unfold add_t, zip_t. cbn [dtype_of tabulate]. fold h1.
    rewrite Dh1, D3. apply promote_half_twice.
Qed.

Lemma layers_return (ls : list (QwenDecoderLayer F)) (mask : option (tensor F))
    (pos : option (tensor Z)) (cp : pos_arg) B S H0 M N :
  Forall (fun l => layer_dims_ok l H0 M N) ls ->
  Forall (fun l => 0 < out_channels (gate_proj (mlp l))) ls ->
  0 < H0 -> 0 < B -> 0 < S ->
  positions_served pos S M ->
  match mask with
  | Some m => mask_fits m B N S
  | None => True
  end ->
  forall x,
    shape x = [B; S; H0] -> dtype_of x = Float32 ->
    exists y,
      run_layers ls x mask pos cp = Ok y
      /\ shape y = [B; S; H0] /\ dtype_of y = Float32.
Proof.
  intros Hall Hg HH HB HS Hpos Hmask. revert Hg.
  induction Hall as [|l ls Hl _ IH]; intros Hg x Hx Hdt.
  - exists x. now repeat split.
  - inversion Hg as [|? ? Hgl Hgs]; subst. cbn [run_layers].
    destruct (@layer_returns l x mask pos cp B S H0 M N Hl HH Hgl Hx HB HS
                Hpos Hmask)
      as (y & -> & Sy & Dy).
    cbn [bind]. apply (IH Hgs); [exact Sy|]. now rewrite Dy, Hdt.
Qed.

Lemma embedding_returns (table : tensor F) (ids : tensor Z) B S V H0 :
  shape table = [V; H0] -> shape ids = [B; S] ->
  Forall (fun t => (0 <= t < Z.of_nat V)%Z) (data ids) ->
  exists h,
    Embedding_forward table ids = Ok h
    /\ shape h = [B; S; H0] /\ dtype_of h = dtype_of table.
Proof.
  intros Ht Hi Hall. unfold Embedding_forward. rewrite Ht. cbn [nth].
  rewrite (@mapM_strict_inside V (data ids) Hall). cbn [bind].
  eexists. split; [reflexivity|]. cbn [shape dtype_of tabulate].
  rewrite Hi. now split.
Qed.

Lemma stack_returns (self : QwenModel F) (ids : tensor Z)
    (mask : option (tensor F)) (pos : option (tensor Z)) (cp : pos_arg)
    (pf : bool) B S V H0 M N :
  model_dims_ok self V H0 M N ->
  0 < H0 ->
  Forall (fun l => 0 < out_channels (gate_proj (mlp l))) (layers self) ->
  shape ids = [B; S] ->
  0 < B -> 0 < S ->
  Forall (fun t => (0 <= t < Z.of_nat V)%Z) (data ids) ->
  positions_served pos S M ->
  match mask with
  | Some m => mask_fits m B N S
  | None => True
  end ->
  exists hs,
    QwenModel_forward self ids mask pos cp pf = Ok hs
    /\ shape hs = [B; S; H0]
    /\ dtype_of hs = (if pf then Float32 else Float16).
Proof.
  intros (Ht & Hdt & Hls & _) HH Hg Hi HB HS Hall Hpos Hmask.
  unfold QwenModel_forward.
  destruct (@embedding_returns _ ids B S V H0 Ht Hi Hall) as (h & -> & Sh & Dh).
  cbn [bind]. rewrite Hdt in Dh.
  destruct (@layers_return (layers self) mask pos cp B S H0 M N Hls Hg HH HB HS
              Hpos Hmask h Sh Dh)
    as (y & -> & Sy & Dy).
  cbn [bind]. destruct pf.
  - exists y. now repeat split.
  - destruct (@rms_norm_half (norm self) y B S H0 Sy) as (S1 & D1 & _).
    eexists. split; [reflexivity|]. now split.
Qed.

(** X8.  On a stack whose projections all have output channels, token ids
    [B, S] inside the vocabulary, position ids the rotary tables can serve
    and a mask that fits, the decoder stack raises nothing and returns
    hidden states [B, S, H]: the float32 residual stream itself in prefill
    mode, its float16 normalisation otherwise. *)
Theorem stack_returns_hidden_states
    (self : QwenModel F) (input_ids : tensor Z) (causal_mask : option (tensor F))
    (position_ids : option (tensor Z)) (cp : pos_arg) (pf : bool)
    (B S V H0 M N : nat) :
  model_dims_ok self V H0 M N ->
  0 < H0 ->
  Forall (fun l => 0 < out_channels (gate_proj (mlp l))) (layers self) ->
  shape input_ids = [B; S] ->
  wf input_ids ->
  0 < B -> 0 < S ->
  Forall (fun t => (0 <= t < Z.of_nat V)%Z) (data input_ids) ->
  positions_served position_ids S M ->
  match causal_mask with
  | Some m => mask_fits m B N S
  | None => True
  end ->
  exists hs,
    QwenModel_forward self input_ids causal_mask position_ids cp pf = Ok hs
    /\ shape hs = [B; S; H0]
    /\ dtype_of hs = (if pf then Float32 else Float16).
Proof.
  intros Hm HH Hg Hi _ HB HS Hall Hpos Hmask.
  now apply stack_returns with V M N.
Qed.

(** *** The whole forward call *)

Lemma checks_pass (ids pos : tensor Z) (pf : bool) B S :
  shape ids = [B; S] ->
  (shape pos = [S] \/ shape pos = [1; S]) ->
  forward_checks ids pos pf = Ok tt.
Proof.
  intros Hi Hp. apply forward_checks_valid. unfold inputs_valid, ndim.
  rewrite Hi. cbn [length Nat.eqb andb].
  destruct pf, Hp as [-> | ->]; cbn [last length Nat.eqb orb];
    try reflexivity; apply Nat.eqb_refl.
Qed.

Lemma extract_returns (hs : tensor F) cp pf B S H0 :
  shape hs = [B; S; H0] -> current_pos_ok cp pf S ->
  exists rows,
    extract_position hs cp pf = Ok rows
    /\ shape rows = [B; logits_rows cp pf S; H0].
Proof.
  intros Hs Hcp. unfold logits_rows. destruct pf.
  - exists hs. split; [now destruct cp | exact Hs].
  - destruct cp as [|q|t].
    + exists hs. now split.
    + destruct Hcp as [C|[C|(p & Hp & Hr)]]; try discriminate.
      exists (slice fzero 1 (Z.to_nat p) (Z.to_nat p + 1) hs).
      split; [exact (@extract_position_one _ _ hs _ p B S H0 Hp Hs Hr)|].
      apply slice_one_shape with S; [exact Hs | lia].
    + destruct Hcp as [C|[C|(p & Hp & Hr)]]; try discriminate.
      exists (slice fzero 1 (Z.to_nat p) (Z.to_nat p + 1) hs).
      split; [exact (@extract_position_one _ _ hs _ p B S H0 Hp Hs Hr)|].
      apply slice_one_shape with S; [exact Hs | lia].
Qed.

(** With sixteen tokens or more every block of the partition has rows. *)
Lemma head16_accepts (l : list (Conv2d F)) V H0 :
  map (@out_channels F) l = partition_sizes 16 V ->
  Forall (fun c => in_channels c = H0) l ->
  16 <= V ->
  Forall (fun c => in_channels c = H0 /\ 0 < out_channels c) l.
Proof.
  intros Hout Hin HV. apply Forall_forall. intros c Hc.
  split; [now apply (proj1 (Forall_forall _ _) Hin)|].
  assert (Ho : In (out_channels c) (partition_sizes 16 V))
    by (rewrite <- Hout; now apply in_map).
  unfold partition_sizes in Ho. apply in_map_iff in Ho as (i & <- & _).
  pose proof (Nat.div_str_pos V 16 ltac:(lia)). lia.
Qed.

Lemma head16_logits (self : QwenForCausalLM F) (rows : tensor F) B R V H0 :
  head16_dims_ok self V H0 -> enable_coreml self = false ->
  16 <= V -> 0 < R ->
  shape rows = [B; R; H0] ->
  exists t,
    project_under module_flags self rows = Ok (Logits t)
    /\ shape t = [B; R; V] /\ dtype_of t = Float16.
Proof.
  intros (l & Hh & Hout & Hin) Hco HV HR Hr.
  assert (Hlen : length l = 16).
  { apply (f_equal (@length _)) in Hout.
    now rewrite length_map, partition_sizes_length in Hout. }
  change (project_under module_flags self rows)
    with (project16 module_flags self (conv_layout rows)).
  unfold project16, project_shards, get_shards. rewrite Hh, Hlen, Hco.
  cbn [Nat.eqb bind andb].
  pose proof (conv_layout_shape rows Hr) as Hx4.
  rewrite (@shards_logits_ok _ _ l (conv_layout rows) B H0 R Hx4 HR
             (@head16_accepts l V H0 Hout Hin HV)).
  cbn [bind].
  destruct l as [|c0 l']; [discriminate|].
  set (l := c0 :: l') in *.
  destruct (@cat2_spec _ _ (map (shard_value (conv_layout rows)) l)
              (shard_value (conv_layout rows) c0) B R (partition_sizes 16 V))
    as (Hshape & Hdt & _).
  - discriminate.
  - now rewrite partition_sizes_length, length_map.
  - intros p Hp. rewrite length_map in Hp.
    rewrite (nth_map_in _ _ c0) by exact Hp.
    rewrite (shard_value_shape _ _ Hx4). do 3 f_equal.
    rewrite <- Hout. now rewrite (nth_map_in _ _ c0) by exact Hp.
  - eexists. split; [reflexivity|]. split.
    + rewrite Hshape, partition_sizes_sum by lia. reflexivity.
    + rewrite Hdt. cbn [map nth l].
      now rewrite (shard_value_dtype _ _ Hx4).
Qed.

(** X9.  With the module's constants, on a model with at least sixteen tokens
    whose projections all have output channels, a well-formed call (token
    ids [B, S] inside the vocabulary, one servable position id per token, a
    mask that fits, a current position inside the sequence) raises nothing
    and returns one float16 logits tensor [B, R, vocab_size]: [R] is 1 when
    a current position is given outside prefill, and [S] in prefill mode or
    without a current position. *)
Theorem forward_returns_logits
    (self : QwenForCausalLM F) (input_ids : tensor Z)
    (update_mask : option (tensor F)) (position_ids : tensor Z)
    (causal_mask : option (tensor F)) (cp : pos_arg) (pf : bool)
    (B S V H0 M N : nat) :
  model_dims_ok (model self) V H0 M N ->
  head16_dims_ok self V H0 ->
  16 <= V ->
  0 < H0 ->
  Forall (fun l => 0 < out_channels (gate_proj (mlp l))) (layers (model self)) ->
  enable_coreml self = false ->
  shape input_ids = [B; S] ->
  wf input_ids ->
  0 < B -> 0 < S ->
  Forall (fun t => (0 <= t < Z.of_nat V)%Z) (data input_ids) ->
  positions_served (Some position_ids) S M ->
  match causal_mask with
  | Some m => mask_fits m B N S
  | None => True
  end ->
  current_pos_ok cp pf S ->
  exists logits,
    QwenForCausalLM_forward self input_ids update_mask position_ids
      causal_mask cp pf = Ok (Logits logits)
    /\ shape logits = [B; logits_rows cp pf S; V]
    /\ dtype_of logits = Float16.
Proof.
  intros Hm Hh HV HH Hg Hco Hi _ HB HS Hall Hpos Hmask Hcp.
  unfold QwenForCausalLM_forward, QwenForCausalLM_forward_under.
  pose proof Hpos as (Hps & _).
  rewrite (@checks_pass input_ids position_ids pf B S Hi Hps). cbn [bind].
  destruct (@stack_returns (model self) input_ids causal_mask (Some position_ids)
              cp pf B S V H0 M N Hm HH Hg Hi HB HS Hall Hpos Hmask)
    as (hs & -> & Shs & _).
  cbn [bind].
  destruct (@extract_returns hs cp pf B S H0 Shs Hcp) as (rows & -> & Sr).
  cbn [bind].
  apply head16_logits with H0; auto.
  unfold logits_rows. destruct pf; [exact HS|]. destruct cp; lia.
Qed.

End StackShapes.

(* ------------------------------------------------------------------------- *)
(** ** Rotary lookups: the fallback and the edges of the table *)
(* ------------------------------------------------------------------------- *)

Section LookupEdges.
Context {F : Type} `{Scalar F}.

Lemma arange_served S M :
  S <= M ->
  Forall (fun p => (0 <= p < Z.of_nat M)%Z) (data (arange S)).
Proof.
  intros HS. unfold arange. cbn [data]. apply Forall_forall.
  intros p Hp. apply in_map_iff in Hp as (j & <- & Hj). apply in_seq in Hj. lia.
Qed.

Lemma gather_arange (t : tensor F) S M D :
  shape t = [1; M; D] -> S <= M ->
  gather_axis1 fzero t (arange S) = Ok (slice fzero 1 0 S t).
Proof.
  intros Ht HS. unfold gather_axis1. rewrite Ht. cbn [nth].
  rewrite (@mapM_wrap_in_range M _ (arange_served HS)). cbn [bind].
  f_equal. unfold slice, narrow. rewrite Ht. cbn [nth].
  rewrite Nat.min_0_l, Nat.sub_0_r, (Nat.min_l S M) by exact HS.
  unfold ndim, arange, set_nth. cbn [shape data length firstn skipn app].
  apply tabulate_ext. intros idx Hb.
  apply in_bounds3_inv in Hb as (i & j & d & -> & Hi & Hj & Hd).
  cbn [firstn skipn app nth ravel numel].
  rewrite Nat.mul_1_r, !Nat.add_0_r.
  rewrite map_map, (nth_map_seq _ 0) by exact Hj.
  now rewrite Nat2Z.id.
Qed.

(** X10.  A lookup without position ids, for a tensor with at least two
    axes, is the lookup at the positions [0, 1, ..., S-1], [S] being the
    second axis of the caller's tensor, as long as the table has that many
    rows. *)
Theorem rotary_fallback_is_sequential
    (rot : QwenRotaryEmbedding F) (x : tensor F) (M D : nat) :
  shape (cos_cached rot) = [1; M; D] ->
  shape (sin_cached rot) = [1; M; D] ->
  2 <= ndim x ->
  nth 1 (shape x) 0 <= M ->
  QwenRotaryEmbedding_forward rot x None
  = QwenRotaryEmbedding_forward rot x (Some (arange (nth 1 (shape x) 0))).
Proof.
  intros Hc Hs Hnd HS. rewrite (rotary_fallback rot x Hnd).
  unfold QwenRotaryEmbedding_forward.
  change (ndim (arange (nth 1 (shape x) 0)) =? 1) with true. cbv iota.
  now rewrite (gather_arange _ Hc HS), (gather_arange _ Hs HS).
Qed.


End LookupEdges.

(* ------------------------------------------------------------------------- *)
(** ** The CoreML return convention and the argument checks *)
(* ------------------------------------------------------------------------- *)

Lemma mapM_length {A B : Type} (f : A -> result B) (l : list A) bs :
  mapM f l = Ok bs -> length bs = length l.
Proof.
  revert bs. induction l as [|a l IH]; intros bs E; cbn [mapM] in E.
  - injection E as <-. reflexivity.
  - destruct (f a) as [b|e]; cbn [bind] in E; [|discriminate].
    destruct (mapM f l) as [bs'|e]; cbn [bind] in E; [|discriminate].
    injection E as <-. cbn [length]. now rewrite (IH bs' eq_refl).
Qed.

Section Returns.
Context {F : Type} `{Scalar F}.

(** The model with another [enable_coreml]. *)
Lemma forward16_shape (self : QwenForCausalLM F) (l : list (Conv2d F))
    input_ids update_mask position_ids causal_mask cp pf :
  heads self = Heads16 l -> length l = 16 ->
  QwenForCausalLM_forward self input_ids update_mask position_ids
    causal_mask cp pf
  = (forward_checks input_ids position_ids pf ;;;
     hs <- QwenModel_forward (model self) input_ids causal_mask
             (Some position_ids) cp pf ;;
     hs <- extract_position hs cp pf ;;
     logits <- mapM (shard_logits (conv_layout hs)) l ;;
     if enable_coreml self then Ok (LogitsTuple logits)
     else Ok (Logits (cat fzero 2 logits))).
Proof.
  intros Hh Hlen.
  unfold QwenForCausalLM_forward, QwenForCausalLM_forward_under.
  destruct (forward_checks input_ids position_ids pf); cbn [bind]; [|reflexivity].
  destruct (QwenModel_forward (model self) input_ids causal_mask
              (Some position_ids) cp pf) as [hs|e]; cbn [bind]; [|reflexivity].
  destruct (extract_position hs cp pf) as [hs'|e]; cbn [bind]; [|reflexivity].
  change (project_under module_flags self hs')
    with (project16 module_flags self (conv_layout hs')).
  unfold project16, project_shards, get_shards.
  rewrite Hh, Hlen. cbn [Nat.eqb bind].
  change (ENABLE_LOGITS2 module_flags) with true. rewrite andb_true_r.
  reflexivity.
Qed.

(** X12.  A model built with [enable_coreml=True] returns the sixteen shard
    outputs as a tuple and never one tensor; concatenated on the last axis
    they are the tensor the same model returns with [enable_coreml=False],
    and the two raise alike. *)
Theorem coreml_returns_the_shard_outputs
    (self : QwenForCausalLM F) (l : list (Conv2d F))
    (input_ids : tensor Z) (update_mask : option (tensor F))
    (position_ids : tensor Z) (causal_mask : option (tensor F))
    (cp : pos_arg) (pf : bool) :
  heads self = Heads16 l ->
  length l = 16 ->
  let on := mkCausalLM (config self) true (model self) (heads self) in
  let off := mkCausalLM (config self) false (model self) (heads self) in
  let run m := QwenForCausalLM_forward m input_ids update_mask position_ids
                 causal_mask cp pf in
  (forall t, run on <> Ok (Logits t))
  /\ (forall ts, run on = Ok (LogitsTuple ts) ->
        length ts = 16 /\ run off = Ok (Logits (cat fzero 2 ts)))
  /\ (forall t, run off = Ok (Logits t) ->
        exists ts, run on = Ok (LogitsTuple ts) /\ t = cat fzero 2 ts)
  /\ (forall e, run on = Raise e <-> run off = Raise e).
Proof.
  intros Hh Hlen on off run. unfold run.
  rewrite (@forward16_shape on l _ _ _ _ _ _ Hh Hlen).
  rewrite (@forward16_shape off l _ _ _ _ _ _ Hh Hlen).
  cbn [enable_coreml model on off].
  destruct (forward_checks input_ids position_ids pf); cbn [bind].
  2:{ repeat split; try discriminate; auto. }
  destruct (QwenModel_forward (model self) input_ids causal_mask
              (Some position_ids) cp pf) as [hs|e]; cbn [bind].
  2:{ repeat split; try discriminate; auto. }
  destruct (extract_position hs cp pf) as [hs'|e]; cbn [bind].
  2:{ repeat split; try discriminate; auto. }
  destruct (mapM (shard_logits (conv_layout hs')) l) as [ts0|e] eqn:Ets;
    cbn [bind].
  2:{ repeat split; try discriminate; auto. }
  split; [discriminate|]. split; [|split; [|split]].
  - intros ts E. injection E as <-.
    now rewrite (mapM_length _ _ Ets).
  - intros t E. injection E as <-. eexists. now split.
  - discriminate.
  - discriminate.
Qed.

(** X13.  Which error each violated check of [forward] raises: the message of the
    first failing assertion, and, in prefill mode with a 0-dimensional
    position tensor, the [IndexError] of [position_ids.shape[-1]]. *)
Theorem forward_check_errors
    (fl : flags) (self : QwenForCausalLM F) (input_ids : tensor Z)
    (update_mask : option (tensor F)) (position_ids : tensor Z)
    (causal_mask : option (tensor F)) (cp : pos_arg) (pf : bool) :
  let run := QwenForCausalLM_forward_under fl self input_ids update_mask
               position_ids causal_mask cp pf in
  (ndim input_ids <> 2 ->
   run = Raise (AssertionError "input_ids must be 2D"))
  /\ (ndim input_ids = 2 -> pf = false ->
      ndim position_ids <> 1 -> ndim position_ids <> 2 ->
      run = Raise (AssertionError "position_ids must be 1D or 2D"))
  /\ (ndim input_ids = 2 -> pf = true -> shape position_ids = [] ->
      run = Raise IndexError)
  /\ (ndim input_ids = 2 -> pf = true -> shape position_ids <> [] ->
      last (shape position_ids) 0 <> last (shape input_ids) 0 ->
      run = Raise (AssertionError
                     "position_ids length must match input_ids in prefill")).
Proof.
  intros run. unfold run, QwenForCausalLM_forward_under, forward_checks, ndim.
  split; [|split; [|split]].
  - intros Hn. apply Nat.eqb_neq in Hn. now rewrite Hn.
  - intros Hn -> H1 H2. apply Nat.eqb_eq in Hn. apply Nat.eqb_neq in H1, H2.
    rewrite Hn. cbn [py_assert bind negb]. now rewrite H1, H2.
  - intros Hn -> Hp. apply Nat.eqb_eq in Hn.
    rewrite Hn. cbn [py_assert bind negb]. unfold shape_last. now rewrite Hp.
  - intros Hn -> Hp Hl. apply Nat.eqb_eq in Hn. pose proof Hn as Hn'.
    rewrite Hn. cbn [py_assert bind negb]. unfold shape_last.
    destruct (shape position_ids) as [|x xs] eqn:Ep; [contradiction|].
    cbn [bind]. apply Nat.eqb_eq in Hn'.
    destruct (shape input_ids) as [|y ys] eqn:Ei; [discriminate|].
    cbn [bind]. apply Nat.eqb_neq in Hl. now rewrite Hl.
Qed.

End Returns.

(* ------------------------------------------------------------------------- *)
(** ** Reading a checkpoint directory *)
(* ------------------------------------------------------------------------- *)

Section DictFacts.
Context {V : Type}.

Lemma dict_get_set (k k' : string) (v : V) (d : dict V) :
  dict_get k (dict_set k' v d)
  = if String.eqb k k' then Some v else dict_get k d.
Proof.
  induction d as [|[k0 v0] d IH]; cbn [dict_set dict_get]; [reflexivity|].
  destruct (String.eqb_spec k' k0) as [->|Hne]; cbn [dict_get].
  - now destruct (String.eqb k k0).
  - rewrite IH. destruct (String.eqb_spec k k0) as [->|Hne2]; [|reflexivity].
    destruct (String.eqb_spec k0 k'); [congruence | reflexivity].
Qed.

Lemma dict_get_absent (k : string) (d : dict V) :
  ~ In k (dict_keys d) -> dict_get k d = None.
Proof.
  induction d as [|[k0 v0] d IH]; cbn [dict_keys map fst dict_get In];
    [reflexivity|].
  intros Hn. destruct (String.eqb_spec k k0) as [->|_]; [tauto|].
  apply IH. tauto.
Qed.

Lemma dict_get_update (k : string) (d2 : dict V) :
  NoDup (dict_keys d2) ->
  forall d,
    dict_get k (dict_update d d2)
    = match dict_get k d2 with
      | Some v => Some v
      | None => dict_get k d
      end.
Proof.
  unfold dict_update.
  induction d2 as [|[k2 v2] d2 IH]; intros Hnd d; cbn [fold_left dict_get fst snd];
    [reflexivity|].
  cbn [dict_keys map fst] in Hnd. inversion Hnd as [|? ? Hnotin Hnd']; subst.
  rewrite (IH Hnd'), dict_get_set.
  destruct (String.eqb_spec k k2) as [->|_]; [|reflexivity].
  now rewrite (dict_get_absent _ _ Hnotin).
Qed.

Lemma dict_keys_set (k : string) (v : V) (d : dict V) (k' : string) :
  In k' (dict_keys (dict_set k v d)) <-> k' = k \/ In k' (dict_keys d).
Proof.
  induction d as [|[k0 v0] d IH]; cbn [dict_set dict_keys map fst In].
  - intuition.
  - destruct (String.eqb_spec k k0) as [->|Hne]; cbn [map fst In].
    + intuition.
    + unfold dict_keys in IH. rewrite IH. intuition.
Qed.

End DictFacts.

Section ReadCheckpoint.
Context {F : Type} `{Scalar F}.

Lemma read_files_lookup (k : string) (dir : directory F) :
  Forall (fun file => NoDup (dict_keys (snd file))) dir ->
  forall acc : state_dict F,
    dict_get k
      (fold_left
         (fun sd file =>
            if endswith ".safetensors" (fst file)
            then dict_update sd (snd file) else sd)
         dir acc)
    = match last_provider k dir with
      | Some v => Some v
      | None => dict_get k acc
      end.
Proof.
  induction 1 as [|file dir Hnd _ IH]; intros acc;
    cbn [fold_left last_provider]; [reflexivity|].
  rewrite IH. destruct (last_provider k dir); [reflexivity|].
  unfold state_dict in *.
  destruct (endswith ".safetensors" (fst file)); [|reflexivity].
  now apply dict_get_update.
Qed.

(** X14.  What [load_pretrained_weights] reads for a key is the tensor of the last
    [.safetensors] file of the directory listing that has the key: later
    files override earlier ones, and files with another suffix are not
    read. *)
Theorem checkpoint_key_comes_from_last_file
    (dir : directory F) (k : string) :
  Forall (fun file => NoDup (dict_keys (snd file))) dir ->
  dict_get k (read_checkpoint dir) = last_provider k dir.
Proof.
  intros Hnd. unfold read_checkpoint. rewrite (read_files_lookup k Hnd).
  now destruct (last_provider k dir).
Qed.

(** *** Names handed to the decoder stack *)

Lemma convert_items_keys (items : state_dict F) :
  forall acc out,
    convert_items items acc = Ok out ->
    forall k,
      In k (dict_keys out)
      <-> In k (dict_keys acc)
          \/ exists k0, In k0 (dict_keys items)
                        /\ k = stripped_key k0 /\ is_head_key k = false.
Proof.
  induction items as [|[k0 v] items IH]; intros acc out E k.
  - cbn [convert_items] in E. injection E as <-.
    cbn [dict_keys map In]. split; [auto | intros [?|(? & [] & _)]; auto].
  - cbn [convert_items] in E.
    change (if startswith "model." k0 then replace "model." "" k0 else k0)
      with (stripped_key k0) in E.
    change (contains "lm_head.weight" (stripped_key k0))
      with (is_head_key (stripped_key k0)) in E.
    cbn [dict_keys map fst In].
    destruct (is_head_key (stripped_key k0)) eqn:Eh.
    { rewrite (IH _ _ E k). split.
      - intros [?|(k1 & ? & ? & ?)]; [auto | right; exists k1; auto].
      - intros [?|(k1 & [<-|?] & -> & Hk)]; [auto | congruence | right; exists k1; auto]. }
    assert (Hstep : forall v', convert_items items (dict_set (stripped_key k0) v' acc)
                               = Ok out ->
              In k (dict_keys out)
              <-> In k (dict_keys acc)
                  \/ exists k1, (k0 = k1 \/ In k1 (map fst items))
                                /\ k = stripped_key k1 /\ is_head_key k = false).
    { intros v' E'. rewrite (IH _ _ E' k), dict_keys_set. split.
      - intros [[->|?]|(k1 & ? & ? & ?)];
          [right; exists k0; auto | auto | right; exists k1; auto].
      - intros [?|(k1 & [<-|?] & -> & Hk)];
          [auto | auto | right; exists k1; auto]. }
    destruct (existsb _ projection_names).
    + destruct (view_as_conv v) as [v'|e]; cbn [bind] in E; [|discriminate].
      now apply Hstep with v'.
    + now apply Hstep with v.
Qed.

(** X15.  The names offered to the decoder stack are exactly the checkpoint's
    keys with ["model."] taken out, those containing ["lm_head.weight"] left
    aside: the head weight is never offered to the stack, so never reported
    as unexpected. *)
Theorem stack_is_offered_the_stripped_keys
    (items out : state_dict F) (k : string) :
  convert_items items [] = Ok out ->
  (In k (dict_keys out)
   <-> exists k0, In k0 (dict_keys items)
                  /\ k = stripped_key k0 /\ is_head_key k = false).
Proof.
  intros E. rewrite (convert_items_keys _ _ E k). cbn [dict_keys map In].
  tauto.
Qed.

End ReadCheckpoint.

(* ------------------------------------------------------------------------- *)
(** ** The head layouts the module's constants switch off *)
(* ------------------------------------------------------------------------- *)

Section OtherHeads.
Context {F : Type} `{Scalar F}.

Lemma load_head8_fresh init (cfg : QwenConfig F) (W : tensor F) :
  shape W = [vocab_size cfg; hidden_size cfg] ->
  snd (load_head_under eight_way_flags
         (QwenForCausalLM_init_under eight_way_flags init cfg false) W)
  = Ok (with_heads (QwenForCausalLM_init_under eight_way_flags init cfg false)
          (Heads8
             (map (fun q => loaded_conv (fst q) (snd q))
                (combine
                   (map (fun i => Conv2d_init init (hidden_size cfg)
                                    (split_size 8 (vocab_size cfg) i))
                        (seq 0 8))
                   (split_from fzero 0
                      (map (split_size 8 (vocab_size cfg)) (seq 0 8))
                      (view [vocab_size cfg; hidden_size cfg; 1; 1] W)))))).
Proof.
  intros HW.
  set (m := QwenForCausalLM_init_under eight_way_flags init cfg false).
  change (load_head_under eight_way_flags m W)
    with (io_bind (io_lift (view_as_conv W)) (load_head8 m)).
  rewrite (view_as_conv_matrix W HW). cbn [io_lift io_bind].
  unfold load_head8.
  change (vocab_size (config m)) with (vocab_size cfg).
  change (heads m) with (make_heads8 init cfg). unfold make_heads8.
  rewrite torch_split_ok
    by (rewrite partition_sizes_split_size, partition_sizes_sum by lia; reflexivity).
  cbn [io_lift io_bind].
  set (fresh := map (fun i => Conv2d_init init (hidden_size cfg)
                                (split_size 8 (vocab_size cfg) i)) (seq 0 8)).
  assert (Hl : map (fun c => shape (conv_weight c)) fresh
               = map (fun i => [split_size 8 (vocab_size cfg) i; hidden_size cfg; 1; 1])
                     (seq 0 8))
    by (unfold fresh; now rewrite map_map).
  pose proof (@copy_shards_ok _ _ "lm_head8_" _ _ 0
                (@built_shards_fit _ _ (hidden_size cfg)
                   (view [vocab_size cfg; hidden_size cfg; 1; 1] W)
                   (vocab_size cfg)
                   (split_size 8 (vocab_size cfg)) 8 eq_refl 0 0 fresh Hl)) as Hc.
  destruct (copy_shards _ _ _ _) as [out r]. cbn [snd] in Hc. subst r.
  reflexivity.
Qed.

(** The unsplit head applied after loading. *)
Lemma single_head_projects init' (cfg : QwenConfig F) (W4 hs : tensor F) B S :
  shape hs = [B; S; hidden_size cfg] ->
  0 < vocab_size cfg -> 0 < S ->
  project_under single_head_flags
    (with_heads (QwenForCausalLM_init_under single_head_flags init' cfg false)
       (Head1 (loaded_conv
                 (Conv2d_init init' (hidden_size cfg) (vocab_size cfg)) W4)))
    hs
  = Ok (Logits
          (shard_value (conv_layout hs)
             (loaded_conv
                (Conv2d_init init' (hidden_size cfg) (vocab_size cfg)) W4))).
Proof.
  intros Hs HV HS. pose proof (conv_layout_shape hs Hs) as Hx4.
  change (project_under single_head_flags
            (with_heads (QwenForCausalLM_init_under single_head_flags init' cfg false)
               (Head1 (loaded_conv
                         (Conv2d_init init' (hidden_size cfg) (vocab_size cfg)) W4)))
            hs)
    with (logits <- shard_logits (conv_layout hs)
                      (loaded_conv
                         (Conv2d_init init' (hidden_size cfg) (vocab_size cfg)) W4) ;;
          Ok (Logits logits)).
  rewrite (@shard_logits_ok _ _ _ (conv_layout hs) B S)
    by (cbn [loaded_conv in_channels out_channels Conv2d_init];
        first [exact Hx4 | exact HV | exact HS]).
  reflexivity.
Qed.

(** X16.  The eight-way head (the arm taken when [ENABLE_VACAB_SPLIT16] is off
    and [ENABLE_VACAB_SPLIT8] on) is as good as the sixteen-way one: built
    for at least eight tokens, loaded with a [V, H] matrix and applied to
    hidden states [B, S, H], its concatenated logits are the tensor the
    unsplit head returns, [B, S, V] with column [v] being row [v] of the
    matrix applied to the float16 hidden vector. *)
Theorem eight_way_head_equals_unsplit_projection
    (init init' : list nat -> F) (cfg : QwenConfig F)
    (W hs : tensor F) (B S : nat) :
  shape W = [vocab_size cfg; hidden_size cfg] ->
  shape hs = [B; S; hidden_size cfg] ->
  8 <= vocab_size cfg ->
  0 < hidden_size cfg -> 0 < B -> 0 < S ->
  exists (m8 m1 : QwenForCausalLM F) (logits : tensor F),
    snd (load_head_under eight_way_flags
           (QwenForCausalLM_init_under eight_way_flags init cfg false) W) = Ok m8
    /\ snd (load_head_under single_head_flags
              (QwenForCausalLM_init_under single_head_flags init' cfg false) W)
       = Ok m1
    /\ project_under eight_way_flags m8 hs = Ok (Logits logits)
    /\ project_under single_head_flags m1 hs = Ok (Logits logits)
    /\ shape logits = [B; S; vocab_size cfg]
    /\ dtype_of logits = Float16
    /\ (forall b s v, b < B -> s < S -> v < vocab_size cfg ->
          tget fzero logits [b; s; v]
          = fsum (map (fun c => fmul (cast Float16 (tget fzero W [v; c]))
                                     (cast Float16 (tget fzero hs [b; s; c])))
                      (seq 0 (hidden_size cfg)))).
Proof.
  intros HW Hs HV HH HB HS.
  set (W4 := view [vocab_size cfg; hidden_size cfg; 1; 1] W).
  assert (HW4 : shape W4 = [vocab_size cfg; hidden_size cfg; 1; 1]) by reflexivity.
  set (shards :=
         map (fun q => loaded_conv (fst q) (snd q))
           (combine
              (map (fun i => Conv2d_init init (hidden_size cfg)
                               (split_size 8 (vocab_size cfg) i)) (seq 0 8))
              (split_from fzero 0
                 (map (split_size 8 (vocab_size cfg)) (seq 0 8)) W4))).
  assert (Lsh : length shards = 8).
  { unfold shards. rewrite length_map, length_combine, split_from_length,
      !length_map, length_seq. reflexivity. }
  pose proof (conv_layout_shape hs Hs) as Hx4.
  destruct (@whole_head_value _ _ init' cfg W hs B S HW Hs) as (Hshape & Hdt & Hget).
  exists (with_heads (QwenForCausalLM_init_under eight_way_flags init cfg false)
            (Heads8 shards)),
         (with_heads (QwenForCausalLM_init_under single_head_flags init' cfg false)
            (Head1 (loaded_conv
                      (Conv2d_init init' (hidden_size cfg) (vocab_size cfg)) W4))),
         (shard_value (conv_layout hs)
            (loaded_conv (Conv2d_init init' (hidden_size cfg) (vocab_size cfg)) W4)).
  split; [now apply load_head8_fresh|].
  split; [now apply load_head1_fresh|].
  split; [|split; [exact (@single_head_projects init' cfg W4 hs B S Hs ltac:(lia) HS)
                  |split; [exact Hshape | split; [exact Hdt | exact Hget]]]].
  change (project_under eight_way_flags
            (with_heads (QwenForCausalLM_init_under eight_way_flags init cfg false)
               (Heads8 shards)) hs)
    with (project_shards eight_way_flags
            (with_heads (QwenForCausalLM_init_under eight_way_flags init cfg false)
               (Heads8 shards))
            8 shards (conv_layout hs)).
  unfold project_shards, get_shards. rewrite Lsh. cbn [Nat.eqb bind].
  rewrite (@shards_logits_ok _ _ shards (conv_layout hs) B (hidden_size cfg) S Hx4 HS)
    by (apply loaded_shards_accept with (vocab_size cfg); [exact HW4 | lia | exact HV]).
  cbn [bind].
  change (enable_coreml
            (with_heads (QwenForCausalLM_init_under eight_way_flags init cfg false)
               (Heads8 shards))
          && ENABLE_LOGITS2 eight_way_flags) with false.
  cbv iota. do 2 f_equal.
  apply split_projection_equals_whole
    with (B := B) (C' := hidden_size cfg) (S := S); [lia | exact HW4 | exact Hx4].
Qed.

(** The two halves [torch.split] cuts for the two-way head. *)
Lemma load_head2_unfold init (cfg : QwenConfig F) (W : tensor F) :
  shape W = [vocab_size cfg; hidden_size cfg] ->
  let m := QwenForCausalLM_init_under two_way_flags init cfg false in
  let W4 := view [vocab_size cfg; hidden_size cfg; 1; 1] W in
  let half := vocab_size cfg / 2 in
  let h := Conv2d_init init (hidden_size cfg) half in
  load_head_under two_way_flags m W
  = (h1 <~ io_lift (copy_conv h (narrow fzero 0 0 half W4)) ;;
     h2 <~ io_lift (copy_conv h (narrow fzero 0 (0 + half)
                                   (vocab_size cfg - half) W4)) ;;
     io_print (PrintLoaded "lm_head2_1.weight and lm_head2_2.weight") ;;>
     io_ret (with_heads m (Heads2 h1 h2)))%io.
Proof.
  intros HW m W4 half h.
  change (load_head_under two_way_flags m W)
    with (io_bind (io_lift (view_as_conv W)) (load_head2 m)).
  rewrite (view_as_conv_matrix W HW). cbn [io_lift io_bind].
  unfold load_head2.
  change (vocab_size (config m)) with (vocab_size cfg).
  change (heads m) with (Heads2 h h).
  rewrite torch_split_ok.
  2:{ cbn [sum_list fold_right shape view nth].
      pose proof (Nat.Div0.div_le_upper_bound (vocab_size cfg) 2 (vocab_size cfg)
                    ltac:(lia)). lia. }
  cbn [io_lift io_bind split_from]. fold W4 half.
  destruct (copy_conv h (narrow fzero 0 0 half W4)) as [h1|e]; [|reflexivity].
  destruct (copy_conv h (narrow fzero 0 (0 + half) (vocab_size cfg - half) W4));
    reflexivity.
Qed.

(** X17.  The two-way head (the arm taken when both wider splits are off) gives
    both halves [vocab_size // 2] rows.  With an odd vocabulary of at least
    three tokens loading the head raises [RuntimeError] at the second copy,
    before anything is printed, and the projection of hidden states
    [B, S, H] has one column less than the vocabulary; with an even
    vocabulary the head loads and its concatenated logits are those of the
    unsplit head. *)
Theorem two_way_head_needs_an_even_vocabulary
    (init init' : list nat -> F) (cfg : QwenConfig F)
    (W hs : tensor F) (B S h : nat) :
  shape W = [vocab_size cfg; hidden_size cfg] ->
  shape hs = [B; S; hidden_size cfg] ->
  0 < S ->
  0 < h ->
  let m := QwenForCausalLM_init_under two_way_flags init cfg false in
  (vocab_size cfg = 2 * h + 1 ->
   load_head_under two_way_flags m W = ([], Raise RuntimeError)
   /\ exists t, project_under two_way_flags m hs = Ok (Logits t)
                /\ shape t = [B; S; vocab_size cfg - 1])
  /\ (vocab_size cfg = 2 * h ->
      exists (m2 m1 : QwenForCausalLM F) (logits : tensor F),
        snd (load_head_under two_way_flags m W) = Ok m2
        /\ snd (load_head_under single_head_flags
                  (QwenForCausalLM_init_under single_head_flags init' cfg false) W)
           = Ok m1
        /\ project_under two_way_flags m2 hs = Ok (Logits logits)
        /\ project_under single_head_flags m1 hs = Ok (Logits logits)).
Proof.
  intros HW Hs HS Hh m.
  set (W4 := view [vocab_size cfg; hidden_size cfg; 1; 1] W).
  assert (HW4 : shape W4 = [vocab_size cfg; hidden_size cfg; 1; 1]) by reflexivity.
  pose proof (conv_layout_shape hs Hs) as Hx4.
  split.
  - intros HV.
    assert (Hhalf : vocab_size cfg / 2 = h).
    { rewrite HV. symmetry. apply (Nat.div_unique (2 * h + 1) 2 h 1); lia. }
    split.
    + unfold m. rewrite (@load_head2_unfold init cfg W HW). cbv zeta.
      fold W4. rewrite Hhalf.
      rewrite copy_conv_same_shape
        by (rewrite (narrow0_shape W4 0 h HW4); reflexivity).
      cbn [io_lift io_bind].
      unfold copy_conv, copy_.
      rewrite (narrow0_shape W4 (0 + h) (vocab_size cfg - h) HW4).
      cbn [Conv2d_init conv_weight shape tabulate rev app expandable_rev].
      rewrite !Nat.eqb_refl. cbn [orb andb].
      replace (vocab_size cfg - h =? h) with false
        by (symmetry; apply Nat.eqb_neq; lia).
      replace (vocab_size cfg - h =? 1) with false
        by (symmetry; apply Nat.eqb_neq; lia).
      reflexivity.
    + set (c := Conv2d_init init (hidden_size cfg) (vocab_size cfg / 2)).
      change (project_under two_way_flags m hs)
        with (logits1 <- shard_logits (conv_layout hs) c ;;
              logits2 <- shard_logits (conv_layout hs) c ;;
              Ok (Logits (cat fzero 2 [logits1; logits2]))).
      rewrite (@shard_logits_ok _ _ c (conv_layout hs) B S)
        by (unfold c; cbn [in_channels out_channels Conv2d_init];
            first [exact Hx4 | exact HS | lia]).
      cbn [bind].
      eexists. split; [reflexivity|].
      destruct (@cat2_spec _ _
                  [shard_value (conv_layout hs) c; shard_value (conv_layout hs) c]
                  (shard_value (conv_layout hs) c)
                  B S [vocab_size cfg / 2; vocab_size cfg / 2])
        as (Hshape & _).
      * discriminate.
      * reflexivity.
      * intros p Hp. cbn [length] in Hp.
        destruct p as [|[|p]]; [| |lia]; cbn [nth];
          now rewrite (shard_value_shape _ _ Hx4).
      * rewrite Hshape. cbn [sum_list fold_right]. rewrite Hhalf, HV.
        do 3 f_equal. lia.
  - intros HV.
    assert (Hhalf : vocab_size cfg / 2 = h).
    { rewrite HV, Nat.mul_comm. apply Nat.div_mul. lia. }
    assert (Hmod : vocab_size cfg mod 2 = 0).
    { rewrite HV, Nat.mul_comm. apply Nat.Div0.mod_mul. }
    assert (Hsz : forall i, split_size 2 (vocab_size cfg) i = h).
    { intros i. unfold split_size. rewrite Hhalf, Hmod. cbn. lia. }
    set (c := Conv2d_init init (hidden_size cfg) h).
    set (s1 := narrow fzero 0 0 h W4).
    set (s2 := narrow fzero 0 (0 + h) h W4).
    exists (with_heads m (Heads2 (loaded_conv c s1) (loaded_conv c s2))),
           (with_heads (QwenForCausalLM_init_under single_head_flags init' cfg false)
              (Head1 (loaded_conv
                        (Conv2d_init init' (hidden_size cfg) (vocab_size cfg)) W4))),
           (shard_value (conv_layout hs)
              (loaded_conv (Conv2d_init init' (hidden_size cfg) (vocab_size cfg)) W4)).
    split; [|split; [now apply load_head1_fresh
                    | split; [|exact (@single_head_projects init' cfg W4 hs B S Hs ltac:(lia) HS)]]].
    + unfold m. rewrite (@load_head2_unfold init cfg W HW). cbv zeta.
      fold W4. rewrite Hhalf.
      replace (vocab_size cfg - h) with h by lia. fold c s1 s2.
      rewrite !copy_conv_same_shape
        by (unfold s1, s2; rewrite (narrow0_shape W4 _ h HW4); reflexivity).
      reflexivity.
    + change (project_under two_way_flags
                (with_heads m (Heads2 (loaded_conv c s1) (loaded_conv c s2))) hs)
        with (logits1 <- shard_logits (conv_layout hs) (loaded_conv c s1) ;;
              logits2 <- shard_logits (conv_layout hs) (loaded_conv c s2) ;;
              Ok (Logits (cat fzero 2 [logits1; logits2]))).
      rewrite (@shard_logits_ok _ _ (loaded_conv c s1) (conv_layout hs) B S)
        by (unfold c; cbn [loaded_conv in_channels out_channels Conv2d_init];
            first [exact Hx4 | exact HS | exact Hh]).
      cbn [bind].
      rewrite (@shard_logits_ok _ _ (loaded_conv c s2) (conv_layout hs) B S)
        by (unfold c; cbn [loaded_conv in_channels out_channels Conv2d_init];
            first [exact Hx4 | exact HS | exact Hh]).
      cbn [bind].
      do 2 f_equal.
      rewrite <- (@split_projection_equals_whole _ _ 2 init init'
                    (hidden_size cfg) (vocab_size cfg) W4 (conv_layout hs) B
                    (hidden_size cfg) S ltac:(lia) HW4 Hx4).
      cbn [seq map split_from combine fst snd]. rewrite !Hsz. reflexivity.
Qed.

End OtherHeads.

(* ------------------------------------------------------------------------- *)
(** ** Decoding one position against projecting all of them *)
(* ------------------------------------------------------------------------- *)

Section DecodeRow.
Context {F : Type} `{Scalar F}.

(** The layers pass the current position along and never read it. *)
Lemma run_layers_ignores_current_pos (ls : list (QwenDecoderLayer F))
    (x : tensor F) mask pos cp cp' :
  run_layers ls x mask pos cp = run_layers ls x mask pos cp'.
Proof.
  revert x. induction ls as [|l ls IH]; intros x; cbn [run_layers]; [reflexivity|].
  change (QwenDecoderLayer_forward l x mask pos cp)
    with (QwenDecoderLayer_forward l x mask pos cp').
  destruct (QwenDecoderLayer_forward l x mask pos cp'); cbn [bind];
    [apply IH | reflexivity].
Qed.

Lemma stack_ignores_current_pos (m : QwenModel F) ids mask pos cp cp' pf :
  QwenModel_forward m ids mask pos cp pf = QwenModel_forward m ids mask pos cp' pf.
Proof.
  unfold QwenModel_forward.
  destruct (Embedding_forward (embed_tokens m) ids); cbn [bind]; [|reflexivity].
  now rewrite (run_layers_ignores_current_pos _ _ _ _ cp cp').
Qed.

(** Entry [(b, s, v)] of the concatenated shard outputs. *)
Lemma head16_logits_get (l : list (Conv2d F)) (rows : tensor F) B R V H0 b s v :
  map (@out_channels F) l = partition_sizes 16 V ->
  Forall (fun c => in_channels c = H0) l ->
  shape rows = [B; R; H0] -> b < B -> s < R -> v < V ->
  exists c o,
    In c l
    /\ tget fzero (cat fzero 2 (map (shard_value (conv_layout rows)) l)) [b; s; v]
       = fsum (map (fun ci => fmul (tget fzero (conv_weight c) [o; ci; 0; 0])
                                   (cast Float16 (tget fzero rows [b; s; ci])))
                   (seq 0 H0))
    /\ c = nth (fst (locate (partition_sizes 16 V) v)) l c
    /\ o = snd (locate (partition_sizes 16 V) v).
Proof.
  intros Hout Hin Hr Hb Hs Hv.
  assert (Hlen : length l = 16).
  { apply (f_equal (@length _)) in Hout.
    now rewrite length_map, partition_sizes_length in Hout. }
  pose proof (conv_layout_shape rows Hr) as Hx4.
  destruct l as [|c0 l']; [discriminate|].
  set (l := c0 :: l') in *.
  set (sizes := partition_sizes 16 V) in *.
  assert (Hsum : sum_list sizes = V) by (apply partition_sizes_sum; lia).
  destruct (@cat2_spec _ _ (map (shard_value (conv_layout rows)) l)
              (shard_value (conv_layout rows) c0) B R sizes)
    as (_ & _ & _ & Hget).
  { discriminate. }
  { unfold sizes. now rewrite partition_sizes_length, length_map. }
  { intros p Hp. rewrite length_map in Hp.
    rewrite (nth_map_in _ _ c0) by exact Hp.
    rewrite (shard_value_shape _ _ Hx4). do 3 f_equal.
    rewrite <- Hout. now rewrite (nth_map_in _ _ c0) by exact Hp. }
  rewrite Hget by lia.
  pose proof (@locate_spec sizes v ltac:(lia)) as Hl.
  destruct (locate sizes v) as [p o]. cbn [fst snd]. destruct Hl as (Hp & Ho & _).
  unfold sizes in Hp. rewrite partition_sizes_length in Hp.
  rewrite (nth_map_in _ _ c0) by lia.
  set (c := nth p l c0).
  assert (Hc : In c l) by (apply nth_In; lia).
  assert (Hoc : o < out_channels c).
  { rewrite <- Hout in Ho. now rewrite (nth_map_in _ _ c0) in Ho by lia. }
  exists c, o. split; [exact Hc|]. split; [|split].
  - rewrite (@shard_value_get _ _ c _ B H0 R b s o Hx4 Hb Hs Hoc).
    rewrite (proj1 (Forall_forall _ _) Hin c Hc).
    f_equal. apply map_ext_in. intros ci Hci. apply in_seq in Hci.
    f_equal. apply conv_layout_get with B R H0; auto; lia.
  - unfold c. apply nth_indep. lia.
  - reflexivity.
Qed.

(** X18.  Outside prefill and with at least sixteen tokens, the logits
    returned for a current position [p] are row [p] of the logits the same
    call returns without a current position: selecting the row before the
    head or after it is the same. *)
Theorem decode_logits_are_a_row_of_all_logits
    (self : QwenForCausalLM F) (input_ids : tensor Z)
    (update_mask : option (tensor F)) (position_ids : tensor Z)
    (causal_mask : option (tensor F)) (cp : pos_arg)
    (p : Z) (hs : tensor F) (B S V H0 : nat) :
  head16_dims_ok self V H0 ->
  16 <= V ->
  enable_coreml self = false ->
  pos_index cp = Some p ->
  (0 <= p < Z.of_nat S)%Z ->
  forward_checks input_ids position_ids false = Ok tt ->
  QwenModel_forward (model self) input_ids causal_mask (Some position_ids)
                    cp false = Ok hs ->
  shape hs = [B; S; H0] ->
  exists one all,
    QwenForCausalLM_forward self input_ids update_mask position_ids
      causal_mask cp false = Ok (Logits one)
    /\ QwenForCausalLM_forward self input_ids update_mask position_ids
         causal_mask PosNone false = Ok (Logits all)
    /\ shape one = [B; 1; V] /\ shape all = [B; S; V]
    /\ forall b v, b < B -> v < V ->
         tget fzero one [b; 0; v] = tget fzero all [b; Z.to_nat p; v].
Proof.
  intros Hhead HV Hco Hcp Hp Hchk Hstack Hs.
  pose proof Hhead as (l & Hh & Hout & Hin).
  pose proof (@head16_accepts _ l V H0 Hout Hin HV) as Hacc.
  assert (Hlen : length l = 16).
  { apply (f_equal (@length _)) in Hout.
    now rewrite length_map, partition_sizes_length in Hout. }
  set (row := slice fzero 1 (Z.to_nat p) (Z.to_nat p + 1) hs).
  assert (Srow : shape row = [B; 1; H0])
    by (apply slice_one_shape with S; [exact Hs | lia]).
  destruct (@head16_logits _ _ self row B 1 V H0 Hhead Hco HV ltac:(lia) Srow)
    as (one & Eone & Sone & _).
  destruct (@head16_logits _ _ self hs B S V H0 Hhead Hco HV ltac:(lia) Hs)
    as (all & Eall & Sall & _).
  exists one, all.
  assert (Fone : QwenForCausalLM_forward self input_ids update_mask position_ids
                   causal_mask cp false = Ok (Logits one)).
  { unfold QwenForCausalLM_forward, QwenForCausalLM_forward_under.
    rewrite Hchk, Hstack. cbn [bind].
    rewrite (@extract_position_one _ _ hs cp p B S H0 Hcp Hs Hp). cbn [bind].
    exact Eone. }
  assert (Fall : QwenForCausalLM_forward self input_ids update_mask position_ids
                   causal_mask PosNone false = Ok (Logits all)).
  { unfold QwenForCausalLM_forward, QwenForCausalLM_forward_under.
    rewrite Hchk, (stack_ignores_current_pos _ _ _ _ PosNone cp), Hstack.
    cbn [bind extract_position negb]. exact Eall. }
  split; [exact Fone|]. split; [exact Fall|].
  split; [exact Sone|]. split; [exact Sall|].
  intros b v Hb Hv.
  assert (E1 : one = cat fzero 2 (map (shard_value (conv_layout row)) l)).
  { change (project_under module_flags self row)
      with (project16 module_flags self (conv_layout row)) in Eone.
    unfold project16, project_shards, get_shards in Eone.
    rewrite Hh, Hlen, Hco in Eone. cbn [Nat.eqb bind andb] in Eone.
    rewrite (@shards_logits_ok _ _ l (conv_layout row) B H0 1
               (conv_layout_shape row Srow) ltac:(lia) Hacc) in Eone.
    cbn [bind] in Eone. now injection Eone as <-. }
  assert (E2 : all = cat fzero 2 (map (shard_value (conv_layout hs)) l)).
  { change (project_under module_flags self hs)
      with (project16 module_flags self (conv_layout hs)) in Eall.
    unfold project16, project_shards, get_shards in Eall.
    rewrite Hh, Hlen, Hco in Eall. cbn [Nat.eqb bind andb] in Eall.
    rewrite (@shards_logits_ok _ _ l (conv_layout hs) B H0 S
               (conv_layout_shape hs Hs) ltac:(lia) Hacc) in Eall.
    cbn [bind] in Eall. now injection Eall as <-. }
  destruct (@head16_logits_get l row B 1 V H0 b 0 v Hout Hin Srow Hb ltac:(lia) Hv)
    as (c1 & o1 & _ & G1 & Pc1 & Po1).
  destruct (@head16_logits_get l hs B S V H0 b (Z.to_nat p) v Hout Hin Hs Hb
              ltac:(lia) Hv)
    as (c2 & o2 & _ & G2 & Pc2 & Po2).
  rewrite E1, E2, G1, G2.
  assert (Ec : c1 = c2 /\ o1 = o2).
  { split; [|congruence].
    rewrite Pc1, Pc2. apply nth_indep. rewrite Hlen.
    pose proof (@locate_spec (partition_sizes 16 V) v
                  ltac:(rewrite partition_sizes_sum by lia; exact Hv)) as Hl.
    destruct (locate (partition_sizes 16 V) v) as [q o]. cbn [fst].
    destruct Hl as (Hq & _). now rewrite partition_sizes_length in Hq. }
  destruct Ec as [-> ->].
  f_equal. apply map_ext_in. intros ci Hci. apply in_seq in Hci.
  do 2 f_equal. unfold row.
  apply slice_one_get with B S H0; auto; lia.
Qed.

End DecodeRow.

(* ------------------------------------------------------------------------- *)
(** ** The mask cut of the prefill entry point *)
(* ------------------------------------------------------------------------- *)

Section PrefillMask.
Context {F : Type} `{Scalar F}.

Lemma narrow_rows_of_table dt a b L c (f : list nat -> F) :
  narrow fzero 2 0 L (tabulate dt [a; b; L; c] f) = tabulate dt [a; b; L; c] f.
Proof.
  unfold narrow. cbn [shape dtype_of tabulate]. unfold set_nth at 1.
  cbn [firstn skipn app]. apply tabulate_ext. intros idx Hb.
  pose proof Hb as Hb'.
  apply in_bounds4_inv in Hb as (i & j & r & k & -> & Hi & Hj & Hr & Hk).
  unfold set_nth. cbn [nth firstn skipn app Nat.add].
  now apply tget_tabulate.
Qed.

(** Cutting the rows of a mask to the sequence length twice is cutting
    them once. *)
Lemma slice_rows_twice (m : tensor F) Bm Cm R C n :
  shape m = [Bm; Cm; R; C] ->
  slice fzero 2 0 n (slice fzero 2 0 n m) = slice fzero 2 0 n m.
Proof.
  intros Hm.
  assert (E : slice fzero 2 0 n m
              = tabulate (dtype_of m) [Bm; Cm; Nat.min n R; C]
                  (fun idx => tget fzero m (set_nth 2 (0 + nth 2 idx 0) idx))).
  { unfold slice, narrow. rewrite Hm. cbn [nth].
    now rewrite Nat.min_0_l, Nat.sub_0_r. }
  rewrite E. unfold slice. cbn [shape tabulate nth].
  rewrite Nat.min_0_l, Nat.sub_0_r.
  replace (Nat.min n (Nat.min n R)) with (Nat.min n R) by lia.
  apply narrow_rows_of_table.
Qed.

Lemma attention_mask_rows (self : QwenAttention F) (x m : tensor F) pos cp
    Bm Cm R C :
  shape m = [Bm; Cm; R; C] ->
  QwenAttention_forward self x (Some (slice fzero 2 0 (nth 1 (shape x) 0) m)) pos cp
  = QwenAttention_forward self x (Some m) pos cp.
Proof.
  intros Hm. unfold QwenAttention_forward. cbv zeta.
  now rewrite (@slice_rows_twice m Bm Cm R C _ Hm).
Qed.

Lemma layer_mask_rows (l : QwenDecoderLayer F) (x m : tensor F) pos cp
    B S H0 Bm Cm R C :
  shape x = [B; S; H0] -> shape m = [Bm; Cm; R; C] ->
  QwenDecoderLayer_forward l x (Some (slice fzero 2 0 S m)) pos cp
  = QwenDecoderLayer_forward l x (Some m) pos cp.
Proof.
  intros Hx Hm. unfold QwenDecoderLayer_forward.
  destruct (@rms_norm_half _ _ (input_layernorm l) x B S H0 Hx) as (S1 & _).
  assert (E : nth 1 (shape (QwenRMSNorm_forward (input_layernorm l) x)) 0 = S)
    by now rewrite S1.
  rewrite <- E at 1.
  now rewrite (@attention_mask_rows (self_attn l) _ m pos cp Bm Cm R C Hm).
Qed.

(** Whatever the attention block returns has one row per token. *)
Lemma attention_keeps_rows (self : QwenAttention F) (x y : tensor F)
    mask pos cp B S H0 :
  shape x = [B; S; H0] ->
  QwenAttention_forward self x mask pos cp = Ok y ->
  shape y = [B; S; out_channels (o_proj self)].
Proof.
  intros Hx. unfold QwenAttention_forward. rewrite Hx. cbn [nth].
  destruct (Conv2d_forward (q_proj self) _) as [q|e]; cbn [bind]; [|discriminate].
  destruct (Conv2d_forward (k_proj self) _) as [k|e]; cbn [bind]; [|discriminate].
  destruct (Conv2d_forward (v_proj self) _) as [v|e]; cbn [bind]; [|discriminate].
  destruct (QwenRotaryEmbedding_forward (rotary_emb self) x pos) as [cs|e];
    cbn [bind]; [|discriminate].
  destruct (apply_rotary_pos_emb _ _ (fst cs) (snd cs)) as [q3 k3].
  set (merged := view _ (permute fzero [0; 2; 1; 3] _)).
  assert (Sm : exists X, shape merged = [B; S; X]) by (eexists; reflexivity).
  destruct Sm as [X Sm].
  pose proof (conv_input_shape merged Sm) as Hm4.
  destruct (Conv2d_forward (o_proj self) _) as [out|e] eqn:Eo; cbn [bind];
    [|discriminate].
  apply conv_forward_inv in Eo as (-> & _).
  intros E. injection E as <-.
  change (permute fzero [0; 2; 1]
            (squeeze 2 (pointwise_conv (o_proj self)
                          (unsqueeze 2 (permute fzero [0; 2; 1] merged)))))
    with (shard_value (unsqueeze 2 (permute fzero [0; 2; 1] merged)) (o_proj self)).
  now rewrite (shard_value_shape (o_proj self) _ Hm4).
Qed.

(** The feed-forward block returns its value or raises [RuntimeError]. *)
Lemma mlp_forward_cases (self : QwenMLP F) (x : tensor F) :
  QwenMLP_forward self x = Ok (mlp_value self x)
  \/ QwenMLP_forward self x = Raise RuntimeError.
Proof.
  unfold QwenMLP_forward. cbv zeta.
  destruct (conv_forward_cases (gate_proj self)
              (unsqueeze 2 (permute fzero [0; 2; 1] (to MODEL_DTYPE x))))
    as [-> | ->]; cbn [bind]; [|now right].
  destruct (conv_forward_cases (up_proj self)
              (unsqueeze 2 (permute fzero [0; 2; 1] (to MODEL_DTYPE x))))
    as [-> | ->]; cbn [bind]; [|now right].
  match goal with
  | |- context [Conv2d_forward (down_proj self) ?d] =>
      destruct (conv_forward_cases (down_proj self) d) as [-> | ->]
  end; cbn [bind]; [now left | now right].
Qed.

(** Whatever a decoder layer returns has the shape of its input. *)
Lemma layer_keeps_shape (l : QwenDecoderLayer F) (x y : tensor F)
    mask pos cp B S H0 M N :
  layer_dims_ok l H0 M N ->
  shape x = [B; S; H0] ->
  QwenDecoderLayer_forward l x mask pos cp = Ok y ->
  shape y = [B; S; H0].
Proof.
  intros (_ & Ho & _ & _ & _ & _ & Hmlp & _) Hx.
  unfold QwenDecoderLayer_forward.
  destruct (@rms_norm_half _ _ (input_layernorm l) x B S H0 Hx) as (S1 & _).
  destruct (QwenAttention_forward (self_attn l) _ mask pos cp) as [a|e] eqn:Ea;
    cbn [bind]; [|discriminate].
  pose proof (@attention_keeps_rows (self_attn l) _ a mask pos cp B S H0 S1 Ea)
    as Sa.
  rewrite Ho in Sa.
  set (h1 := add_t x a).
  assert (Sh1 : shape h1 = [B; S; H0]) by (now apply zip_same_shape).
  destruct (@rms_norm_half _ _ (post_attention_layernorm l) h1 B S H0 Sh1)
    as (S2 & _).
  destruct (@mlp_shape _ _ (mlp l) _ B S H0 Hmlp S2) as (S3 & _).
  destruct (mlp_forward_cases (mlp l)
              (QwenRMSNorm_forward (post_attention_layernorm l) h1))
    as [-> | ->]; cbn [bind]; [|discriminate].
  intros E. injection E as <-. now apply zip_same_shape.
Qed.

Lemma layers_mask_rows (ls : list (QwenDecoderLayer F)) (m : tensor F) pos cp
    B S H0 M N Bm Cm R C :
  Forall (fun l => layer_dims_ok l H0 M N) ls ->
  shape m = [Bm; Cm; R; C] ->
  forall x, shape x = [B; S; H0] ->
    run_layers ls x (Some (slice fzero 2 0 S m)) pos cp
    = run_layers ls x (Some m) pos cp.
Proof.
  intros Hall Hm. induction Hall as [|l ls Hl _ IH]; intros x Hx;
    cbn [run_layers]; [reflexivity|].
  rewrite (@layer_mask_rows l x m pos cp B S H0 Bm Cm R C Hx Hm).
  destruct (QwenDecoderLayer_forward l x (Some m) pos cp) as [y|e] eqn:El;
    cbn [bind]; [|reflexivity].
  apply IH. now apply (@layer_keeps_shape l x y (Some m) pos cp B S H0 M N).
Qed.

(** X19.  [prefill_kv_cache] cuts the rows of the mask to the sequence length
    before it calls the stack; every attention block cuts rows and columns
    again, so the first cut changes nothing: the prefill call runs the stack
    in prefill mode on the mask as given, returns no value (or the stack's
    error) and leaves the gradient mode as it found it. *)
Theorem prefill_mask_cut_changes_nothing
    (self : QwenForCausalLM F) (input_ids : tensor Z)
    (position_ids : option (tensor Z)) (start_pos : pos_arg)
    (m : tensor F) (w : torch_state) (B S V H0 M N Bm Cm R C : nat) :
  model_dims_ok (model self) V H0 M N ->
  shape input_ids = [B; S] ->
  positions_served position_ids S M ->
  shape m = [Bm; Cm; R; C] ->
  QwenModel_forward (model self) input_ids (Some (slice fzero 2 0 S m))
    position_ids start_pos true
  = QwenModel_forward (model self) input_ids (Some m) position_ids start_pos true
  /\ prefill_kv_cache self input_ids position_ids start_pos (Some m) w
     = (rmap (fun _ => tt)
          (QwenModel_forward (model self) input_ids (Some m) position_ids
             start_pos true),
        w).
Proof.
  intros (Ht & _ & Hls & _) Hi Hpos Hm.
  assert (E : QwenModel_forward (model self) input_ids
                (Some (slice fzero 2 0 S m)) position_ids start_pos true
              = QwenModel_forward (model self) input_ids (Some m) position_ids
                  start_pos true).
  { unfold QwenModel_forward.
    destruct (Embedding_forward (embed_tokens (model self)) input_ids) as [h|e] eqn:Ee;
      cbn [bind]; [|reflexivity].
    assert (Sh : shape h = [B; S; H0]).
    { unfold Embedding_forward in Ee.
      destruct (mapM _ _) as [ps|?]; cbn [bind] in Ee; [|discriminate].
      injection Ee as <-. cbn [shape tabulate]. now rewrite Hi, Ht. }
    now rewrite (@layers_mask_rows (layers (model self)) m position_ids start_pos
                   B S H0 M N Bm Cm R C Hls Hm h Sh). }
  split; [exact E|].
  unfold prefill_kv_cache, with_no_grad.
  rewrite stack_call_no_grad, set_grad_restore.
  rewrite Hi. cbn [nth]. rewrite E. reflexivity.
Qed.

End PrefillMask.

(* ------------------------------------------------------------------------- *)
(** ** Construction *)
(* ------------------------------------------------------------------------- *)

Lemma construct_each_constant {A : Type} (a : A) n i :
  construct_each (fun _ => Constructed a) i n
  = Constructed (map (fun _ => a) (seq i n)).
Proof.
  revert i. induction n as [|n IH]; intros i; cbn [construct_each seq map and_then];
    [reflexivity|].
  now rewrite IH.
Qed.

Section ConstructionFacts.
Context {F : Type} `{Scalar F}.

Lemma attention_new_result (init : list nat -> F) (cfg : QwenConfig F) :
  QwenAttention_new init cfg
  = if (num_attention_heads cfg =? 0) || (head_dim cfg =? 0)
    then ZeroDivisionError
    else Constructed (QwenAttention_init init cfg).
Proof.
  unfold QwenAttention_new, QwenRotaryEmbedding_new, getattr_head_dim,
    int_floordiv, inv_sqrt.
  destruct (num_attention_heads cfg =? 0); [reflexivity|].
  cbn [and_then orb].
  destruct (head_dim cfg =? 0); reflexivity.
Qed.

(** X20.  Building the model raises [ZeroDivisionError] exactly when the
    configuration asks for at least one layer and has no attention head
    (the default of the [head_dim] lookup divides by the head count even
    though the attribute is there) or a zero head dimension (the attention
    scale divides by its square root); in every other case construction
    returns the freshly initialised model. *)
Theorem construction_raises_on_zero_heads_or_head_dim
    (fl : flags) (init : list nat -> F) (cfg : QwenConfig F) (coreml : bool) :
  QwenForCausalLM_new fl init cfg coreml
  = if (0 <? num_hidden_layers cfg)
       && ((num_attention_heads cfg =? 0) || (head_dim cfg =? 0))
    then ZeroDivisionError
    else Constructed (QwenForCausalLM_init_under fl init cfg coreml).
Proof.
  unfold QwenForCausalLM_new, QwenModel_new, QwenDecoderLayer_new,
    QwenForCausalLM_init_under, QwenModel_init, QwenDecoderLayer_init.
  rewrite attention_new_result.
  destruct ((num_attention_heads cfg =? 0) || (head_dim cfg =? 0)).
  - cbn [and_then]. destruct (num_hidden_layers cfg) as [|n]; reflexivity.
  - cbn [and_then]. rewrite construct_each_constant. cbn [and_then].
    rewrite andb_false_r. reflexivity.
Qed.

End ConstructionFacts.

(* ------------------------------------------------------------------------- *)
(** ** The decoder layer, entry by entry *)
(* ------------------------------------------------------------------------- *)

Section LayerResiduals.
Context {F : Type} `{Scalar F}.

(** X21.  A decoder layer whose gate projection has output channels adds two
    residuals: the attention of the normalised input to the input, then the
    feed-forward block of the normalised sum to the sum.  Entry by entry,
    with the feed-forward term spelled out. *)
Theorem decoder_layer_adds_two_residuals
    (l : QwenDecoderLayer F) (x : tensor F) (mask : option (tensor F))
    (pos : option (tensor Z)) (cp : pos_arg) (B S H0 M N b s c : nat) :
  layer_dims_ok l H0 M N ->
  0 < out_channels (gate_proj (mlp l)) ->
  shape x = [B; S; H0] ->
  0 < B -> 0 < S ->
  positions_served pos S M ->
  match mask with
  | Some m => mask_fits m B N S
  | None => True
  end ->
  b < B -> s < S -> c < H0 ->
  exists a y,
    QwenAttention_forward (self_attn l)
      (QwenRMSNorm_forward (input_layernorm l) x) mask pos cp = Ok a
    /\ QwenDecoderLayer_forward l x mask pos cp = Ok y
    /\ shape y = [B; S; H0]
    /\ tget fzero y [b; s; c]
       = fadd (fadd (tget fzero x [b; s; c]) (tget fzero a [b; s; c]))
              (mlp_at (mlp l)
                 (QwenRMSNorm_forward (post_attention_layernorm l) (add_t x a))
                 b s c).
Proof.
  intros Hl Hg Hx HB HS Hpos Hmask Hb Hs Hc.
  pose proof Hl as (Hatt & Ho & HNeq & HM & _ & _ & Hmlp & _ & _ & _ & HN).
  assert (HH : 0 < H0) by lia.
  destruct (@rms_norm_half _ _ (input_layernorm l) x B S H0 Hx) as (S1 & D1 & _).
  destruct (@attention_returns _ _ (self_attn l) _ mask pos cp B S H0 M
              Hatt HM ltac:(rewrite HNeq; exact HN) ltac:(rewrite Ho; exact HH)
              S1 D1 HB HS Hpos ltac:(rewrite HNeq; exact Hmask))
    as (a & Ea & Sa & _).
  rewrite Ho in Sa.
  exists a,
    (add_t (add_t x a)
       (mlp_value (mlp l)
          (QwenRMSNorm_forward (post_attention_layernorm l) (add_t x a)))).
  split; [exact Ea|].
  set (h1 := add_t x a).
  assert (Sh1 : shape h1 = [B; S; H0]) by (now apply zip_same_shape).
  destruct (@rms_norm_half _ _ (post_attention_layernorm l) h1 B S H0 Sh1)
    as (S2 & _ & W2).
  destruct (@mlp_shape _ _ (mlp l) _ B S H0 Hmlp S2) as (S3 & _).
  split.
  { unfold QwenDecoderLayer_forward. rewrite Ea. cbn [bind]. fold h1.
    now rewrite (@mlp_returns _ _ (mlp l) _ B S H0 Hmlp Hg HH HS S2). }
  split; [now apply zip_same_shape|].
  unfold add_t at 1.
  rewrite (@zip_same_get _ _ fadd _ _ [B; S; H0] [b; s; c] Sh1 S3 ltac:(bounds)).
  unfold h1 at 1, add_t at 1.
  rewrite (@zip_same_get _ _ fadd _ _ [B; S; H0] [b; s; c] Hx Sa ltac:(bounds)).
  f_equal.
  now apply mlp_get with B S H0.
Qed.

End LayerResiduals.

(* ------------------------------------------------------------------------- *)
(** ** Construction gives the dimensions the forward pass relies on *)
(* ------------------------------------------------------------------------- *)

Section FreshDimensions.
Context {F : Type} `{Scalar F}.

Lemma fresh_attention_dims (init : list nat -> F) (cfg : QwenConfig F) k r :
  head_dim cfg = 2 * k -> 0 < k ->
  num_attention_heads cfg = num_key_value_heads cfg * r ->
  0 < num_key_value_heads cfg ->
  attention_dims_ok (QwenAttention_init init cfg) (hidden_size cfg).
Proof.
  intros HD Hk HN Hkv.
  destruct (@rotary_tables_shape _ _ cfg k HD) as [Hc Hs].
  unfold attention_dims_ok.
  cbn [QwenAttention_init num_heads num_kv_heads att_head_dim q_proj k_proj
       v_proj o_proj rotary_emb in_channels out_channels Conv2d_init].
  rewrite Hc, Hs. cbn [nth length].
  assert (Hq : num_attention_heads cfg / num_key_value_heads cfg = r).
  { rewrite HN, Nat.mul_comm. apply Nat.div_mul. lia. }
  rewrite Hq.
  repeat split; try reflexivity; lia.
Qed.

Lemma fresh_layer_dims (init : list nat -> F) (cfg : QwenConfig F) k r :
  head_dim cfg = 2 * k -> 0 < k ->
  num_attention_heads cfg = num_key_value_heads cfg * r ->
  0 < num_key_value_heads cfg -> 0 < r ->
  layer_dims_ok (QwenDecoderLayer_init init cfg) (hidden_size cfg)
    (max_position_embeddings cfg) (num_attention_heads cfg).
Proof.
  intros HD Hk HN Hkv Hr.
  destruct (@rotary_tables_shape _ _ cfg k HD) as [Hc _].
  unfold layer_dims_ok.
  split; [now apply fresh_attention_dims with k r|].
  cbn [QwenDecoderLayer_init self_attn mlp input_layernorm post_attention_layernorm
       QwenAttention_init o_proj num_heads num_kv_heads att_head_dim rotary_emb
       q_norm k_norm out_channels Conv2d_init].
  rewrite Hc. cbn [nth].
  repeat split; try reflexivity; try lia; nia.
Qed.

Lemma fresh_model_dims (init : list nat -> F) (cfg : QwenConfig F) k r :
  head_dim cfg = 2 * k -> 0 < k ->
  num_attention_heads cfg = num_key_value_heads cfg * r ->
  0 < num_key_value_heads cfg -> 0 < r ->
  model_dims_ok (QwenModel_init init cfg) (vocab_size cfg) (hidden_size cfg)
    (max_position_embeddings cfg) (num_attention_heads cfg).
Proof.
  intros HD Hk HN Hkv Hr. unfold model_dims_ok.
  split; [reflexivity|]. split; [reflexivity|]. split; [|reflexivity].
  apply Forall_forall. intros l Hl.
  cbn [QwenModel_init layers] in Hl.
  apply in_map_iff in Hl as (i & <- & _).
  now apply fresh_layer_dims with k r.
Qed.

Lemma fresh_head16_dims (init : list nat -> F) (cfg : QwenConfig F) coreml :
  head16_dims_ok (QwenForCausalLM_init init cfg coreml)
    (vocab_size cfg) (hidden_size cfg).
Proof.
  eexists. split; [reflexivity|]. split.
  - rewrite map_map. reflexivity.
  - apply Forall_forall. intros c Hc. apply in_map_iff in Hc as (i & <- & _).
    reflexivity.
Qed.

(** X22.  A model built from a configuration with an even, positive head
    dimension and a head count that is a positive multiple of the key/value
    head count has the dimensions under which the forward pass is
    well-shaped: every layer, the embedding table and the sixteen shards. *)
Theorem constructed_model_is_well_dimensioned
    (init : list nat -> F) (cfg : QwenConfig F) (coreml : bool) (k r : nat) :
  head_dim cfg = 2 * k -> 0 < k ->
  num_attention_heads cfg = num_key_value_heads cfg * r ->
  0 < num_key_value_heads cfg -> 0 < r ->
  let self := QwenForCausalLM_init init cfg coreml in
  model_dims_ok (model self) (vocab_size cfg) (hidden_size cfg)
    (max_position_embeddings cfg) (num_attention_heads cfg)
  /\ head16_dims_ok self (vocab_size cfg) (hidden_size cfg)
  /\ enable_coreml self = coreml.
Proof.
  intros HD Hk HN Hkv Hr self. split; [|split; [|reflexivity]].
  - now apply fresh_model_dims with k r.
  - apply fresh_head16_dims.
Qed.

End FreshDimensions.

(* ------------------------------------------------------------------------- *)
(** ** What a load leaves behind *)
(* ------------------------------------------------------------------------- *)

Section LoadEffects.
Context {F : Type} `{Scalar F}.

(** X23.  Whether or not the load reports success, the decoder stack has received
    every tensor of the checkpoint that names one of its parameters: a load
    that returns [False] is not rolled back.  The head is replaced only by
    a successful load. *)
Theorem load_is_not_rolled_back
    (cfg : QwenConfig F) (self : QwenForCausalLM F)
    (fs : filesystem F) (path : string) (dir : directory F) :
  head_shards_as_built cfg self ->
  fs path = Some dir ->
  checkpoint_fits cfg (model self) (read_checkpoint dir) ->
  exists out b self',
    QwenForCausalLM_load_pretrained_weights self fs path = (out, Ok (b, self'))
    /\ model self'
       = assign_model (conv_state_from (read_checkpoint dir) []) (model self)
    /\ (b = false -> heads self' = heads self)
    /\ config self' = config self
    /\ enable_coreml self' = enable_coreml self.
Proof.
  intros (Hvoc & l & Hheads & Hshapes) Hfs (Hproj & Hsz & Hhead).
  set (sd := read_checkpoint dir) in *.
  unfold QwenForCausalLM_load_pretrained_weights,
    QwenForCausalLM_load_pretrained_weights_under.
  rewrite (@stack_load_outcome _ _ (model self) fs path dir Hfs Hproj Hsz).
  fold sd.
  destruct (is_nil (missing_keys (model self) sd)
            && is_nil (unexpected_keys (model self) sd)) eqn:Eok;
    cbn [io_bind negb io_ret app].
  - rewrite Hfs. fold sd.
    destruct (dict_get "lm_head.weight" sd) as [W|] eqn:Ehead.
    + set (self1 := with_model self (assign_model (conv_state_from sd []) (model self))).
      pose proof (@load_head16_ok _ _ self1 cfg l W Hheads Hshapes Hvoc
                    (Hhead W eq_refl)) as Hload.
      destruct (load_head_under module_flags self1 W) as [out r].
      cbn [snd] in Hload. subst r. cbn [io_bind io_ret].
      eexists _, true, _. split; [reflexivity|].
      repeat split; try reflexivity. discriminate.
    + cbn [io_bind io_print io_ret app].
      eexists _, false, _. split; [reflexivity|].
      repeat split; reflexivity.
  - eexists _, false, _. split; [reflexivity|].
    repeat split; reflexivity.
Qed.

End LoadEffects.

(* ------------------------------------------------------------------------- *)
(** ** Loading keeps the dimensions *)
(* ------------------------------------------------------------------------- *)

Section LoadKeepsDimensions.
Context {F : Type} `{Scalar F}.

Lemma assign_param_shape (src : state_dict F) name (p : tensor F) :
  shape (assign_param src name p) = shape p
  /\ dtype_of (assign_param src name p) = dtype_of p.
Proof. unfold assign_param. now destruct (dict_get name src). Qed.

Lemma assign_layer_dims (src : state_dict F) i (l : QwenDecoderLayer F) H0 M N :
  layer_dims_ok l H0 M N -> layer_dims_ok (assign_layer src i l) H0 M N.
Proof.
  unfold layer_dims_ok, attention_dims_ok, mlp_dims_ok.
  cbn [assign_layer self_attn mlp input_layernorm post_attention_layernorm
       num_heads num_kv_heads att_head_dim rotary_emb q_proj k_proj v_proj o_proj
       q_norm k_norm gate_proj up_proj down_proj cos_cached sin_cached
       hn_weight rms_weight assign_conv in_channels out_channels].
  rewrite !(proj1 (assign_param_shape _ _ _)).
  exact (fun x => x).
Qed.

Lemma assign_layers_dims (src : state_dict F) (ls : list (QwenDecoderLayer F)) H0 M N :
  Forall (fun l => layer_dims_ok l H0 M N) ls ->
  forall i, Forall (fun l => layer_dims_ok l H0 M N) (assign_layers src i ls).
Proof.
  induction 1 as [|l ls Hl _ IH]; intros i; cbn [assign_layers]; constructor;
    [now apply assign_layer_dims | apply IH].
Qed.

Lemma assign_model_dims (src : state_dict F) (m : QwenModel F) V H0 M N :
  model_dims_ok m V H0 M N -> model_dims_ok (assign_model src m) V H0 M N.
Proof.
  intros (Ht & Hd & Hls & Hn). unfold model_dims_ok.
  cbn [assign_model embed_tokens layers norm rms_weight].
  destruct (assign_param_shape src "embed_tokens.weight" (embed_tokens m)) as [-> ->].
  rewrite (proj1 (assign_param_shape _ _ _)).
  repeat split; try assumption. now apply assign_layers_dims.
Qed.

Lemma stack_load_assigns (m : QwenModel F) (fs : filesystem F) path out b m' :
  QwenModel_load_pretrained_weights m fs path = (out, Ok (b, m')) ->
  exists src, m' = assign_model src m.
Proof.
  unfold QwenModel_load_pretrained_weights.
  destruct (fs path) as [dir|]; [|discriminate].
  destruct (convert_items (read_checkpoint dir) []) as [src|e];
    cbn [io_lift io_bind]; [|discriminate].
  unfold load_state_dict.
  destruct (size_mismatch (QwenModel_state_dict m) src);
    cbn [io_lift io_bind]; [discriminate|].
  destruct (nonempty _ || nonempty _); cbn [io_print io_ret io_bind app];
    intros E; inversion E; subst; now exists src.
Qed.

Lemma copy_shards_channels attr (splits : list (tensor F)) :
  forall (shards : list (Conv2d F)) i out l',
    copy_shards attr i shards splits = (out, Ok l') ->
    map (@out_channels F) l' = map (@out_channels F) shards
    /\ map (@in_channels F) l' = map (@in_channels F) shards.
Proof.
  induction splits as [|sp splits IH]; intros shards i out l' E.
  - destruct shards; cbn in E; inversion E; subst; now split.
  - destruct shards as [|c shards]; cbn [copy_shards io_lift] in E; [discriminate|].
    unfold copy_conv in E.
    destruct (copy_ (conv_weight c) sp) as [w|e]; cbn [bind io_lift io_bind] in E;
      [|discriminate].
    destruct (copy_shards attr (S i) shards splits) as [out1 [rest|e]] eqn:Er;
      cbn [io_print io_bind io_ret app] in E; [|discriminate].
    injection E as _ <-.
    destruct (IH _ _ _ _ Er) as [Ho Hi]. cbn [map out_channels in_channels].
    now rewrite Ho, Hi.
Qed.

Lemma load_head16_keeps (self self' : QwenForCausalLM F) (W : tensor F) out V H0 :
  load_head_under module_flags self W = (out, Ok self') ->
  head16_dims_ok self V H0 ->
  head16_dims_ok self' V H0
  /\ model self' = model self /\ enable_coreml self' = enable_coreml self.
Proof.
  intros E (l & Hh & Hout & Hin).
  change (load_head_under module_flags self W)
    with (io_bind (io_lift (view_as_conv W)) (load_head16 self)) in E.
  destruct (view_as_conv W) as [W4|e]; cbn [io_lift io_bind] in E; [|discriminate].
  unfold load_head16 in E.
  destruct (torch_split fzero W4 _) as [splits|e]; cbn [io_lift io_bind] in E;
    [|discriminate].
  rewrite Hh in E.
  destruct (copy_shards "lm_head16_" 0 l splits) as [out1 [l'|e]] eqn:Ec;
    cbn [io_bind io_ret app] in E; [|discriminate].
  injection E as _ <-.
  destruct (copy_shards_channels _ _ _ _ Ec) as [Ho Hi].
  split; [|split; reflexivity].
  exists l'. split; [reflexivity|]. split; [congruence|].
  apply Forall_forall. intros c Hc.
  assert (Hc' : In (in_channels c) (map (@in_channels F) l)).
  { rewrite <- Hi. now apply in_map. }
  apply in_map_iff in Hc' as (c0 & E0 & Hc0).
  rewrite <- E0. exact (proj1 (Forall_forall _ _) Hin c0 Hc0).
Qed.

(** X24.  Whatever a load that returns (with [True] or [False]) has changed, the
    dimensions the forward pass relies on are kept: parameter shapes and
    dtypes, channel counts, the shard partition and [enable_coreml]. *)
Theorem loading_keeps_the_dimensions
    (self self' : QwenForCausalLM F) (fs : filesystem F) (path : string)
    (out : list printed) (b : bool) (V H0 M N : nat) :
  QwenForCausalLM_load_pretrained_weights self fs path = (out, Ok (b, self')) ->
  model_dims_ok (model self) V H0 M N ->
  head16_dims_ok self V H0 ->
  model_dims_ok (model self') V H0 M N
  /\ head16_dims_ok self' V H0
  /\ enable_coreml self' = enable_coreml self.
Proof.
  intros E Hm Hh.
  unfold QwenForCausalLM_load_pretrained_weights,
    QwenForCausalLM_load_pretrained_weights_under in E.
  destruct (QwenModel_load_pretrained_weights (model self) fs path)
    as [out1 [[ok m1]|e]] eqn:Es; cbn [io_bind] in E; [|discriminate].
  destruct (stack_load_assigns _ _ _ Es) as (src & ->).
  set (self1 := with_model self (assign_model src (model self))) in *.
  assert (Hm1 : model_dims_ok (model self1) V H0 M N)
    by (now apply assign_model_dims).
  assert (Hh1 : head16_dims_ok self1 V H0) by exact Hh.
  destruct ok; cbn [negb io_ret] in E.
  - destruct (fs path) as [dir|]; cbn [io_lift] in E; [|discriminate].
    destruct (dict_get "lm_head.weight" (read_checkpoint dir)) as [W|].
    + destruct (load_head_under module_flags self1 W) as [out2 [self2|e]] eqn:El;
        cbn [io_bind io_ret app] in E; [|discriminate].
      injection E as _ _ <-.
      destruct (load_head16_keeps _ El Hh1) as (Hh2 & Em & Ec).
      split; [now rewrite Em | split; [exact Hh2 | exact Ec]].
    + cbn [io_print io_bind io_ret app] in E. injection E as _ _ <-.
      split; [exact Hm1 | split; [exact Hh1 | reflexivity]].
  - injection E as _ _ <-.
    split; [exact Hm1 | split; [exact Hh1 | reflexivity]].
Qed.

End LoadKeepsDimensions.

(* ------------------------------------------------------------------------- *)
(** ** The width of the rotary tables *)
(* ------------------------------------------------------------------------- *)

Section RotaryWidth.
Context {F : Type} `{Scalar F}.

(** X25.  The rotary tables have one row per position and two columns for every
    even number below the head dimension [D]: [D] columns when [D] is even,
    [D + 1] when it is odd, one more than a query or key vector has. *)
Theorem rotary_tables_are_one_column_wider_for_odd_head_dim
    (cfg : QwenConfig F) (k : nat) :
  let rot := QwenRotaryEmbedding_init cfg in
  let M := max_position_embeddings cfg in
  let D := head_dim cfg in
  shape (cos_cached rot) = [1; M; 2 * ((D + 1) / 2)]
  /\ shape (sin_cached rot) = [1; M; 2 * ((D + 1) / 2)]
  /\ (D = 2 * k -> shape (cos_cached rot) = [1; M; D])
  /\ (D = 2 * k + 1 -> shape (cos_cached rot) = [1; M; D + 1]).
Proof.
  intros rot M D.
  assert (Hw : shape (cos_cached rot) = [1; M; 2 * ((D + 1) / 2)]
               /\ shape (sin_cached rot) = [1; M; 2 * ((D + 1) / 2)]).
  { unfold rot, QwenRotaryEmbedding_init.
    cbn [cos_cached sin_cached unsqueeze map_t cat tabulate shape view firstn
         skipn app map nth sum_list fold_right set_nth].
    unfold arange_step2_len. fold D M.
    replace ((D + 1) / 2 + ((D + 1) / 2 + 0)) with (2 * ((D + 1) / 2)) by lia.
    split; reflexivity. }
  destruct Hw as [Hc Hs].
  split; [exact Hc|]. split; [exact Hs|]. split.
  - intros HD. rewrite Hc. do 3 f_equal.
    rewrite HD. change ((2 * k + 1) / 2) with (arange_step2_len (2 * k)).
    now rewrite arange_step2_len_even.
  - intros HD. rewrite Hc. do 3 f_equal. rewrite HD.
    replace (2 * k + 1 + 1) with ((k + 1) * 2) by lia.
    rewrite Nat.div_mul by lia. lia.
Qed.

End RotaryWidth.

(* ------------------------------------------------------------------------- *)
(** ** Further worked instances on the tiny model *)
(* ------------------------------------------------------------------------- *)

Lemma tiny_model_dims : model_dims_ok (model tiny_model) 17 4 4 2.
Proof.
  apply (@fresh_model_dims Z ZScalar tiny_init tiny_config 1 2); try reflexivity; cbn; lia.
Defined.

Lemma tiny_layer_dims : layer_dims_ok tiny_layer 4 4 2.
Proof.
  apply (@fresh_layer_dims Z ZScalar tiny_init tiny_config 1 2); try reflexivity; cbn; lia.
Defined.

Lemma tiny_head16_dims : head16_dims_ok tiny_model 17 4.
Proof. apply (@fresh_head16_dims Z ZScalar tiny_init tiny_config false). Defined.

Lemma tiny_mlp_dims : mlp_dims_ok tiny_mlp 4.
Proof. repeat split. Defined.

Lemma tiny_gates_open :
  Forall (fun l : QwenDecoderLayer Z => 0 < out_channels (gate_proj (mlp l)))
         (layers (model tiny_model)).
Proof. repeat constructor. Defined.

Lemma tiny_ids_in_vocabulary :
  Forall (fun t => (0 <= t < Z.of_nat 17)%Z) (data tiny_ids).
Proof. repeat (constructor; [lia|]). constructor. Defined.

Lemma tiny_pos_served : positions_served (Some tiny_pos) 3 4.
Proof.
  split; [left; reflexivity|]. split; [reflexivity|].
  repeat (constructor; [lia|]). constructor.
Defined.

Lemma tiny_stack_runs :
  QwenModel_forward (model tiny_model) tiny_ids (Some tiny_mask) (Some tiny_pos)
    (PosInt 1) false = Ok tiny_stack_out.
Proof. vm_compute. reflexivity. Defined.

Lemma rotate_half_swaps_halves_witness :
  tget 0%Z (rotate_half tiny_hidden) [0; 1; 0]
  = Z.opp (tget 0%Z tiny_hidden [0; 1; 2]).
Proof.
  exact (proj2 (proj2 (@rotate_half_swaps_halves Z ZScalar tiny_hidden
                         [1; 3] [0; 1] 4 0 eq_refl ltac:(bounds) ltac:(lia)))).
Defined.

Lemma rotate_half_twice_negates_witness :
  rotate_half (rotate_half tiny_hidden) = map_t Z.opp tiny_hidden.
Proof.
  exact (@rotate_half_twice_negates Z ZScalar tiny_hidden [1; 3] 2 eq_refl eq_refl).
Defined.

Lemma rotary_rotation_pairs_halves_witness :
  tget 0%Z (fst (apply_rotary_pos_emb tiny_queries tiny_queries tiny_cos tiny_sin))
       [0; 1; 2; 0]
  = rope_rotate tiny_queries tiny_cos tiny_sin 1 0 1 2 0.
Proof.
  destruct (@rotary_rotation_pairs_halves Z ZScalar tiny_queries tiny_queries
              tiny_cos tiny_sin 1 2 3 1 0 1 2 0 eq_refl eq_refl eq_refl eq_refl
              ltac:(lia) ltac:(lia) ltac:(lia) ltac:(lia))
    as (_ & _ & E & _).
  exact E.
Defined.

Lemma token_outside_vocabulary_raises_witness :
  QwenForCausalLM_forward_under module_flags tiny_model outside_ids None tiny_pos
    (Some tiny_mask) (PosInt 1) false
  = Raise IndexError.
Proof.
  refine (proj2 (@token_outside_vocabulary_raises Z ZScalar module_flags tiny_model
                   outside_ids None tiny_pos (Some tiny_mask) (PosInt 1) false
                   17 4 eq_refl _) eq_refl).
  apply Exists_cons_tl, Exists_cons_hd. lia.
Defined.

Lemma decode_position_outside_sequence_raises_witness :
  QwenForCausalLM_forward_under module_flags tiny_model tiny_ids None tiny_pos
    (Some tiny_mask) (PosInt 3) false
  = Raise RuntimeError.
Proof.
  refine (proj2 (@decode_position_outside_sequence_raises Z ZScalar module_flags
                   tiny_model tiny_ids None tiny_pos (Some tiny_mask) (PosInt 3)
                   3%Z tiny_stack_out 1 3 4 eq_refl eq_refl _ eq_refl _)).
  - vm_compute. reflexivity.
  - lia.
Defined.

Lemma mlp_is_gated_projection_witness :
  exists y,
    QwenMLP_forward tiny_mlp tiny_hidden = Ok y
    /\ shape y = [1; 3; 4]
    /\ dtype_of y = Float16
    /\ tget 0%Z y [0; 1; 2] = mlp_at tiny_mlp tiny_hidden 0 1 2.
Proof.
  exact (@mlp_is_gated_projection Z ZScalar tiny_mlp tiny_hidden 1 3 4 0 1 2
           tiny_mlp_dims ltac:(cbn; lia) eq_refl eq_refl
           ltac:(lia) ltac:(lia) ltac:(lia)).
Defined.

Lemma tiny_rows_agree :
  forall c, c < 4 ->
    tget 0%Z tiny_hidden [0; 0; c] = tget 0%Z tiny_hidden_other [0; 0; c].
Proof.
  intros c Hc. do 4 (destruct c as [|c]; [reflexivity|]). lia.
Defined.

Lemma mlp_mixes_no_tokens_witness :
  exists y y',
    QwenMLP_forward tiny_mlp tiny_hidden = Ok y
    /\ QwenMLP_forward tiny_mlp tiny_hidden_other = Ok y'
    /\ tget 0%Z y [0; 0; 1] = tget 0%Z y' [0; 0; 1].
Proof.
  destruct (@mlp_mixes_no_tokens Z ZScalar tiny_mlp tiny_hidden tiny_hidden_other
              1 3 4 0 0 tiny_mlp_dims ltac:(cbn; lia) ltac:(cbn; lia)
              eq_refl eq_refl eq_refl eq_refl
              ltac:(lia) ltac:(lia) tiny_rows_agree)
    as (y & y' & E & E' & Hrow).
  exists y, y'. split; [exact E|]. split; [exact E'|]. apply Hrow. lia.
Defined.

Lemma stack_returns_hidden_states_witness :
  exists hs,
    QwenModel_forward (model tiny_model) tiny_ids (Some tiny_mask) (Some tiny_pos)
      PosNone true = Ok hs
    /\ shape hs = [1; 3; 4] /\ dtype_of hs = Float32.
Proof.
  apply (@stack_returns_hidden_states Z ZScalar (model tiny_model) tiny_ids
           (Some tiny_mask) (Some tiny_pos) PosNone true 1 3 17 4 4 2
           tiny_model_dims ltac:(lia) tiny_gates_open
           eq_refl eq_refl ltac:(lia) ltac:(lia)
           tiny_ids_in_vocabulary tiny_pos_served tiny_mask_fits).
Defined.

Lemma forward_returns_logits_witness :
  exists logits,
    QwenForCausalLM_forward tiny_model tiny_ids None tiny_pos (Some tiny_mask)
      (PosInt 1) false = Ok (Logits logits)
    /\ shape logits = [1; 1; 17] /\ dtype_of logits = Float16.
Proof.
  apply (@forward_returns_logits Z ZScalar tiny_model tiny_ids None tiny_pos
           (Some tiny_mask) (PosInt 1) false 1 3 17 4 4 2
           tiny_model_dims tiny_head16_dims ltac:(lia) ltac:(lia)
           tiny_gates_open eq_refl eq_refl eq_refl
           ltac:(lia) ltac:(lia)
           tiny_ids_in_vocabulary tiny_pos_served tiny_mask_fits).
  right. right. exists 1%Z. split; [reflexivity | lia].
Defined.

Lemma rotary_fallback_is_sequential_witness :
  QwenRotaryEmbedding_forward tiny_rotary tiny_hidden None
  = QwenRotaryEmbedding_forward tiny_rotary tiny_hidden (Some (arange 3)).
Proof.
  apply (@rotary_fallback_is_sequential Z ZScalar tiny_rotary tiny_hidden 4 2
           eq_refl eq_refl); cbn; lia.
Defined.


Lemma coreml_returns_the_shard_outputs_witness :
  exists ts,
    QwenForCausalLM_forward tiny_model_coreml tiny_ids None tiny_pos
      (Some tiny_mask) (PosInt 1) false = Ok (LogitsTuple ts)
    /\ length ts = 16
    /\ QwenForCausalLM_forward tiny_model tiny_ids None tiny_pos
         (Some tiny_mask) (PosInt 1) false = Ok (Logits (cat 0%Z 2 ts)).
Proof.
  destruct (@coreml_returns_the_shard_outputs Z ZScalar tiny_model
              (map (fun i => Conv2d_init tiny_init 4 (split_size 16 17 i)) (seq 0 16))
              tiny_ids None tiny_pos (Some tiny_mask) (PosInt 1) false
              eq_refl eq_refl)
    as (_ & Htuple & _).
  assert (E : exists ts,
             QwenForCausalLM_forward tiny_model_coreml tiny_ids None tiny_pos
               (Some tiny_mask) (PosInt 1) false = Ok (LogitsTuple ts))
    by (eexists; vm_compute; reflexivity).
  destruct E as (ts & E). exists ts.
  destruct (Htuple ts E) as (Hlen & Hoff).
  split; [exact E|]. split; [exact Hlen | exact Hoff].
Defined.

Lemma two_file_dir_has_dicts :
  Forall (fun file : string * state_dict Z => NoDup (dict_keys (snd file)))
         two_file_dir.
Proof.
  repeat (constructor;
          [ cbn; repeat (constructor; [cbn; intuition discriminate|]); constructor | ]).
  constructor.
Defined.

Lemma checkpoint_key_comes_from_last_file_witness :
  dict_get "w" (read_checkpoint two_file_dir)
  = Some (digits_tensor Float32 [4]).
Proof.
  exact (@checkpoint_key_comes_from_last_file Z two_file_dir "w"%string
           two_file_dir_has_dicts).
Defined.

Lemma stack_is_offered_the_stripped_keys_witness :
  In "norm.weight"%string (dict_keys small_converted)
  <-> exists k0, In k0 (dict_keys small_items)
                 /\ "norm.weight"%string = stripped_key k0
                 /\ is_head_key "norm.weight" = false.
Proof.
  exact (@stack_is_offered_the_stripped_keys Z small_items small_converted
           "norm.weight"%string eq_refl).
Defined.

Lemma eight_way_head_equals_unsplit_projection_witness :
  exists m8 m1 logits,
    snd (load_head_under eight_way_flags
           (QwenForCausalLM_init_under eight_way_flags tiny_init tiny_config false)
           tiny_head_weight) = Ok m8
    /\ snd (load_head_under single_head_flags
              (QwenForCausalLM_init_under single_head_flags tiny_init
                 tiny_config false) tiny_head_weight) = Ok m1
    /\ project_under eight_way_flags m8 tiny_hidden = Ok (Logits logits)
    /\ project_under single_head_flags m1 tiny_hidden = Ok (Logits logits).
Proof.
  destruct (@eight_way_head_equals_unsplit_projection Z ZScalar tiny_init
              tiny_init tiny_config tiny_head_weight tiny_hidden 1 3
              eq_refl eq_refl ltac:(cbn; lia) ltac:(cbn; lia)
              ltac:(lia) ltac:(lia))
    as (m8 & m1 & logits & L8 & L1 & P8 & P1 & _).
  exists m8, m1, logits. repeat split; assumption.
Defined.

Lemma two_way_head_needs_an_even_vocabulary_witness :
  load_head_under two_way_flags
    (QwenForCausalLM_init_under two_way_flags tiny_init tiny_config false)
    tiny_head_weight
  = ([], Raise RuntimeError).
Proof.
  refine (proj1 (proj1 (@two_way_head_needs_an_even_vocabulary Z ZScalar
                          tiny_init tiny_init tiny_config tiny_head_weight
                          tiny_hidden 1 3 8 eq_refl eq_refl _ _) eq_refl));
    lia.
Defined.

Lemma decode_logits_are_a_row_of_all_logits_witness :
  exists one all,
    QwenForCausalLM_forward tiny_model tiny_ids None tiny_pos (Some tiny_mask)
      (PosInt 1) false = Ok (Logits one)
    /\ QwenForCausalLM_forward tiny_model tiny_ids None tiny_pos (Some tiny_mask)
         PosNone false = Ok (Logits all)
    /\ tget 0%Z one [0; 0; 16] = tget 0%Z all [0; 1; 16].
Proof.
  destruct (@decode_logits_are_a_row_of_all_logits Z ZScalar tiny_model tiny_ids
              None tiny_pos (Some tiny_mask) (PosInt 1) 1%Z tiny_stack_out
              1 3 17 4 tiny_head16_dims ltac:(lia) eq_refl eq_refl ltac:(lia)
              eq_refl tiny_stack_runs eq_refl)
    as (one & all & E1 & E2 & _ & _ & Hrow).
  exists one, all. split; [exact E1|]. split; [exact E2|].
  apply (Hrow 0 16); lia.
Defined.

Lemma prefill_mask_cut_changes_nothing_witness :
  prefill_kv_cache tiny_model tiny_ids (Some tiny_pos) (PosInt 0) (Some tiny_mask)
    (mkTorch true 0)
  = (rmap (fun _ => tt)
       (QwenModel_forward (model tiny_model) tiny_ids (Some tiny_mask)
          (Some tiny_pos) (PosInt 0) true),
     mkTorch true 0).
Proof.
  exact (proj2 (@prefill_mask_cut_changes_nothing Z ZScalar tiny_model tiny_ids
                  (Some tiny_pos) (PosInt 0) tiny_mask (mkTorch true 0)
                  1 3 17 4 4 2 1 1 3 3 tiny_model_dims eq_refl tiny_pos_served
                  eq_refl)).
Defined.

Lemma decoder_layer_adds_two_residuals_witness :
  exists a y,
    QwenAttention_forward (self_attn tiny_layer)
      (QwenRMSNorm_forward (input_layernorm tiny_layer) tiny_hidden)
      (Some tiny_mask) (Some tiny_pos) PosNone = Ok a
    /\ QwenDecoderLayer_forward tiny_layer tiny_hidden (Some tiny_mask)
         (Some tiny_pos) PosNone = Ok y
    /\ shape y = [1; 3; 4]
    /\ tget 0%Z y [0; 2; 3]
       = Z.add (Z.add (tget 0%Z tiny_hidden [0; 2; 3]) (tget 0%Z a [0; 2; 3]))
               (mlp_at (mlp tiny_layer)
                  (QwenRMSNorm_forward (post_attention_layernorm tiny_layer)
                     (add_t tiny_hidden a)) 0 2 3).
Proof.
  exact (@decoder_layer_adds_two_residuals Z ZScalar tiny_layer tiny_hidden
           (Some tiny_mask) (Some tiny_pos) PosNone 1 3 4 4 2 0 2 3
           tiny_layer_dims ltac:(cbn; lia) eq_refl ltac:(lia) ltac:(lia)
           tiny_pos_served
           tiny_mask_fits ltac:(lia) ltac:(lia) ltac:(lia)).
Defined.

Lemma constructed_model_is_well_dimensioned_witness :
  model_dims_ok (model tiny_model) 17 4 4 2
  /\ head16_dims_ok tiny_model 17 4
  /\ enable_coreml tiny_model = false.
Proof.
  apply (@constructed_model_is_well_dimensioned Z ZScalar tiny_init tiny_config
           false 1 2); try reflexivity; cbn; lia.
Defined.

Lemma load_is_not_rolled_back_witness :
  exists out b self',
    QwenForCausalLM_load_pretrained_weights tiny_model tiny_fs "ckpt"%string
    = (out, Ok (b, self'))
    /\ model self'
       = assign_model
           (conv_state_from
              (read_checkpoint [("config.json"%string, []);
                                ("model.safetensors"%string, tiny_checkpoint)]) [])
           (model tiny_model)
    /\ (b = false -> heads self' = heads tiny_model)
    /\ config self' = config tiny_model
    /\ enable_coreml self' = enable_coreml tiny_model.
Proof.
  exact (@load_is_not_rolled_back Z ZScalar tiny_config tiny_model tiny_fs
           "ckpt"%string _ tiny_head_as_built eq_refl tiny_checkpoint_fits).
Defined.

Lemma tiny_load_returns :
  QwenForCausalLM_load_pretrained_weights tiny_model tiny_fs "ckpt"%string
  = (tiny_load_output, Ok (true, tiny_loaded)).
Proof. vm_compute. reflexivity. Defined.

Lemma loading_keeps_the_dimensions_witness :
  model_dims_ok (model tiny_loaded) 17 4 4 2
  /\ head16_dims_ok tiny_loaded 17 4
  /\ enable_coreml tiny_loaded = enable_coreml tiny_model.
Proof.
  exact (@loading_keeps_the_dimensions Z ZScalar tiny_model tiny_loaded tiny_fs
           "ckpt"%string tiny_load_output true 17 4 4 2 tiny_load_returns
           tiny_model_dims tiny_head16_dims).
Defined.
